(** * autofix_w505: rewrapping of docstrings and block comments

    A shallow embedding of [autofix_w505.py] and of the part of Python's
    [textwrap] and [re] behaviour that the script relies on, followed by
    the properties of the reflow and quote-normalisation engine.

    Conventions.
    - A Python [str] is a list of code points ([N]); [len] is its length
      as a Python integer ([Z]).
    - A function that mutates its [lines] argument returns the final
      content of the list together with what the call produced: a value
      or a raised exception.
    - [while] loops are recursive functions over the list they scan, or
      take a counter initialised with a bound on the number of passes.
      For [_wrap_chunks] and [rewrap_text] the lemmas [wrap_loop_fuel]
      and [rewrap_loop_fuel] show that the bound is never exhausted; the
      comment scanner of [process_content] returns [None] when its bound
      is. *)

From Stdlib Require Import String Ascii.
From Stdlib Require Import List NArith ZArith Lia Bool Permutation.
Import ListNotations.

(** ** Python strings *)

Module Py.

Definition char := N.
Definition str := list char.

(** Literals: the code points of a Rocq string. *)
Definition lit (s : string) : str := map N_of_ascii (list_ascii_of_string s).

Definition len (s : str) : Z := Z.of_nat (length s).

Definition str_eqb (a b : str) : bool :=
  if list_eq_dec N.eq_dec a b then true else false.

(** [str.isspace] on one character, which is also the class [\s] of [re]
    on [str] patterns and the set removed by [strip] with no argument. *)
Definition isspace (c : char) : bool :=
  ((9 <=? c) && (c <=? 13) || (28 <=? c) && (c <=? 32)
   || (c =? 133) || (c =? 160) || (c =? 5760)
   || (8192 <=? c) && (c <=? 8202)
   || (c =? 8232) || (c =? 8233) || (c =? 8239) || (c =? 8287)
   || (c =? 12288))%N.

Fixpoint lstrip (s : str) : str :=
  match s with
  | c :: t => if isspace c then lstrip t else s
  | [] => []
  end.

Definition rstrip (s : str) : str := rev (lstrip (rev s)).

Definition strip (s : str) : str := rstrip (lstrip s).

Fixpoint startswith (s p : str) {struct p} : bool :=
  match p, s with
  | [], _ => true
  | a :: p', b :: s' => (a =? b)%N && startswith s' p'
  | _ :: _, [] => false
  end.

Definition endswith (s p : str) : bool := startswith (rev s) (rev p).

(** [sep.join(parts)] *)
Fixpoint join (sep : str) (parts : list str) : str :=
  match parts with
  | [] => []
  | [p] => p
  | p :: rest => p ++ sep ++ join sep rest
  end.

(** [s.expandtabs()] with the default tab size 8; [col] is the current
    column, reset by a line feed or a carriage return. *)
Fixpoint expandtabs_from (col : nat) (s : str) : str :=
  match s with
  | [] => []
  | c :: t =>
      if (c =? 9)%N then
        let incr := 8 - Nat.modulo col 8 in
        repeat 32%N incr ++ expandtabs_from (col + incr) t
      else if ((c =? 10) || (c =? 13))%N then c :: expandtabs_from 0 t
      else c :: expandtabs_from (S col) t
  end.

Definition expandtabs (s : str) : str := expandtabs_from 0 s.

(** Slices [l[a:b]] for [0 <= a], [0 <= b]. *)
Definition slice {A} (l : list A) (a b : nat) : list A :=
  firstn (b - a) (skipn a l).

(** Slice assignment [l[a:b] = new]. *)
Definition splice {A} (l : list A) (a b : nat) (new : list A) : list A :=
  firstn a l ++ new ++ skipn (Nat.max a b) l.

(** [s.splitlines()]: the line boundaries are line feed, carriage return
    (with a following line feed), vertical tab, form feed, the file, group
    and record separators, next line, line and paragraph separator. *)
Definition is_linebreak (c : char) : bool :=
  ((10 <=? c) && (c <=? 13) || (28 <=? c) && (c <=? 30)
   || (c =? 133) || (c =? 8232) || (c =? 8233))%N.

Fixpoint splitlines_from (cur : str) (s : str) : list str :=
  match s with
  | [] => match cur with [] => [] | _ => [cur] end
  | c :: t =>
      if is_linebreak c then
        match t with
        | d :: t' => if ((c =? 13) && (d =? 10))%N
                     then cur :: splitlines_from [] t'
                     else cur :: splitlines_from [] t
        | [] => [cur]
        end
      else splitlines_from (cur ++ [c]) t
  end.

Definition splitlines (s : str) : list str := splitlines_from [] s.

(** The literals of the script *)
Definition colon : str := [58%N].
Definition newline : str := [10%N].
Definition triple_double : str := [34; 34; 34]%N.
Definition triple_single : str := [39; 39; 39]%N.
Definition letter_r : str := [114%N].

(** Exceptions.  A message is kept as its parts: literal text and the
    [repr] of a string or of an integer, so that it names the offending
    text without a model of the escaping done by [repr]. *)
Inductive msg_part := Text (s : str) | Repr (s : str) | ReprInt (z : Z).

Inductive exn :=
| ValueError (msg : list msg_part)
| AssertionError
| IndexError
| SyntaxError
| OSError.

Inductive outcome (A : Type) :=
| Return (a : A)
| Raise (e : exn).
Arguments Return {A} a.
Arguments Raise {A} e.

(** Code that works on a mutable list of lines: the final content of the
    list and the outcome. *)
Definition action (A : Type) := list str -> list str * outcome A.

Definition ret {A} (a : A) : action A := fun lines => (lines, Return a).
Definition raise {A} (e : exn) : action A := fun lines => (lines, Raise e).
Definition bind {A B} (m : action A) (k : A -> action B) : action B :=
  fun lines =>
    match m lines with
    | (lines', Return a) => k a lines'
    | (lines', Raise e) => (lines', Raise e)
    end.
Definition get_lines : action (list str) := fun lines => (lines, Return lines).
Definition set_lines (new : list str) : action unit :=
  fun _ => (new, Return tt).

Notation "x <- m ;; k" := (bind m (fun x => k))
  (at level 61, m at next level, right associativity).

End Py.
Import Py.

(** ** Regular expressions of the script *)

Module Re.

Definition is_digit (c : char) : bool := ((48 <=? c) && (c <=? 57))%N.
Definition is_digit19 (c : char) : bool := ((49 <=? c) && (c <=? 57))%N.
Definition is_letter (c : char) : bool :=
  ((65 <=? c) && (c <=? 90) || (97 <=? c) && (c <=? 122))%N.
(** [[*-]] *)
Definition is_bullet (c : char) : bool := ((c =? 42) || (c =? 45))%N.
(** [[.)]] *)
Definition is_dot_paren (c : char) : bool := ((c =? 46) || (c =? 41))%N.

(** Greedy [\s*] at the start of [s]: the run matched and what follows. *)
Fixpoint spaces (s : str) : str * str :=
  match s with
  | c :: t => if isspace c then let (w, r) := spaces t in (c :: w, r)
              else ([], s)
  | [] => ([], [])
  end.

(** [(?:[*-]|[1-9][0-9]?[.)]|[A-Za-z][.)])] at the start of [s]. *)
Definition marker_head (s : str) : option (str * str) :=
  match s with
  | [] => None
  | c :: t =>
      if is_bullet c then Some ([c], t)
      else if is_digit19 c then
        match t with
        | [] => None
        | d :: t1 =>
            if is_digit d then
              match t1 with
              | p :: t2 => if is_dot_paren p then Some ([c; d; p], t2)
                           else None
              | [] => None
              end
            else if is_dot_paren d then Some ([c; d], t1)
            else None
        end
      else if is_letter c then
        match t with
        | p :: t1 => if is_dot_paren p then Some ([c; p], t1) else None
        | [] => None
        end
      else None
  end.

(** [re_list_marker] at the start of [s]: the marker with its trailing
    whitespace ([\s+], greedy), and the text after it. *)
Definition list_marker (s : str) : option (str * str) :=
  match marker_head s with
  | None => None
  | Some (h, t) =>
      match spaces t with
      | ([], _) => None
      | (w, r) => Some (h ++ w, r)
      end
  end.

(** [re.match] of [^({re_indent})({re_list_marker})?] on [line]: the two
    groups, the second one empty when it did not take part, and the rest
    of the line.  [None] when there is no match (comment mode, no [#]
    after the leading whitespace). *)
Definition match_indent (is_docstring : bool) (line : str)
  : option (str * str * str) :=
  let (w, r) := spaces line in
  let indent_rest :=
    if is_docstring then Some (w, r)
    else match r with
         | c :: r1 => if (c =? 35)%N then
                        let (w2, r2) := spaces r1 in Some (w ++ c :: w2, r2)
                      else None
         | [] => None
         end in
  match indent_rest with
  | None => None
  | Some (indent, rest) =>
      match list_marker rest with
      | Some (m, rest') => Some (indent, m, rest')
      | None => Some (indent, [], rest)
      end
  end.

(** [re.match] of [\s|>>>|{re_list_marker}] on [line] *)
Definition starts_new_block (line : str) : bool :=
  match line with
  | c :: _ =>
      isspace c || startswith line (lit ">>>")
      || match list_marker line with Some _ => true | None => false end
  | [] => false
  end.

(** [noqa], ignoring case, at the start of [s]. *)
Definition noqa_here (s : str) : bool :=
  match s with
  | n :: o :: q :: a :: _ =>
      (((n =? 110) || (n =? 78)) && ((o =? 111) || (o =? 79))
       && ((q =? 113) || (q =? 81)) && ((a =? 97) || (a =? 65)))%N
  | _ => false
  end.

(** [re_noqa.search(s)], where [re_noqa] is [#\s*noqa] compiled with
    [re.IGNORECASE]. *)
Fixpoint noqa_search (s : str) : bool :=
  match s with
  | [] => false
  | c :: t => ((c =? 35)%N && noqa_here (lstrip t)) || noqa_search t
  end.

(** [re_quote] at the start of [s]: an optional [r], then the first that
    matches of three double quotes, three single quotes, one double quote,
    one single quote.  [quote_body] is the part after the [r]; both give
    the text matched and the text after it. *)
Definition quote_body (s : str) : option (str * str) :=
  if startswith s triple_double then Some (triple_double, skipn 3 s)
  else if startswith s triple_single then Some (triple_single, skipn 3 s)
  else if startswith s [34%N] then Some ([34%N], skipn 1 s)
  else if startswith s [39%N] then Some ([39%N], skipn 1 s)
  else None.

Definition match_quote (s : str) : option (str * str) :=
  if startswith s letter_r then
    match quote_body (skipn 1 s) with
    | Some (q, r) => Some (letter_r ++ q, r)
    | None => None
    end
  else quote_body s.

End Re.

(** ** [textwrap.wrap] as the script calls it

    [textwrap.wrap(text, width=.., initial_indent=.., subsequent_indent=..,
    break_long_words=False, break_on_hyphens=False)], the other options at
    their defaults ([expand_tabs], [replace_whitespace], [drop_whitespace]
    set, [fix_sentence_endings] unset, [max_lines] None). *)

Module Textwrap.

(** [_whitespace]: tab, line feed, vertical tab, form feed, carriage
    return and space. *)
Definition is_ws (c : char) : bool := ((9 <=? c) && (c <=? 13) || (c =? 32))%N.

(** [TextWrapper._munge_whitespace] *)
Definition munge_whitespace (text : str) : str :=
  map (fun c => if is_ws c then 32%N else c) (expandtabs text).

(** [TextWrapper._split] without hyphen breaks: [wordsep_simple_re.split]
    and the removal of empty chunks leave the maximal runs of whitespace
    and of other characters, in order. *)
Fixpoint split (text : str) : list str :=
  match text with
  | [] => []
  | c :: t =>
      match split t with
      | (d :: ch) :: rest =>
          if Bool.eqb (is_ws c) (is_ws d) then (c :: d :: ch) :: rest
          else [c] :: (d :: ch) :: rest
      | rest => [c] :: rest
      end
  end.

(** [chunk.strip()] is the empty string *)
Definition is_blank (chunk : str) : bool :=
  match strip chunk with [] => true | _ => false end.

(** The inner [while chunks] loop of [_wrap_chunks]: chunks are moved to
    the current line while they fit in [width]. *)
Fixpoint fill_line (width cur_len : Z) (chunks : list str)
  : list str * list str :=
  match chunks with
  | c :: rest =>
      if (cur_len + len c <=? width)%Z then
        let (cur_line, chunks') := fill_line width (cur_len + len c) rest in
        (c :: cur_line, chunks')
      else ([], chunks)
  | [] => ([], [])
  end.

(** [_handle_long_word] with [break_long_words] unset: the long chunk is
    taken only when the current line is empty. *)
Definition handle_long_word (chunks cur_line : list str)
  : list str * list str :=
  match cur_line, chunks with
  | [], c :: rest => ([c], rest)
  | _, _ => (cur_line, chunks)
  end.

(** The line is full, and the next chunk is too big to fit on any line:
    [if chunks and len(chunks[-1]) > width]. *)
Definition take_long_word (width : Z) (chunks cur_line : list str)
  : list str * list str :=
  match chunks with
  | c :: _ => if (len c >? width)%Z then handle_long_word chunks cur_line
              else (cur_line, chunks)
  | [] => (cur_line, chunks)
  end.

(** The last chunk of the line is dropped when [strip] empties it. *)
Definition drop_trailing_blank (cur_line : list str) : list str :=
  match rev cur_line with
  | c :: r => if is_blank c then rev r else cur_line
  | [] => cur_line
  end.

Section Wrapper.

Variables (width : Z) (initial_indent subsequent_indent : str).

(** One pass of the outer [while chunks] loop of [_wrap_chunks], for a
    non-empty [c0 :: rest0]: the chunks left and the lines so far. *)
Definition wrap_step (c0 : str) (rest0 lines : list str)
  : list str * list str :=
  let indent := match lines with
                | [] => initial_indent
                | _ => subsequent_indent
                end in
  let w := (width - len indent)%Z in
  let started := match lines with [] => false | _ => true end in
  let chunks1 := if is_blank c0 && started then rest0 else c0 :: rest0 in
  let (cur_line, chunks2) := fill_line w 0 chunks1 in
  let (cur_line', chunks3) := take_long_word w chunks2 cur_line in
  match drop_trailing_blank cur_line' with
  | [] => (chunks3, lines)
  | kept => (chunks3, lines ++ [indent ++ concat kept])
  end.

Fixpoint wrap_loop (fuel : nat) (chunks lines : list str) : list str :=
  match fuel, chunks with
  | S fuel', c0 :: rest0 =>
      let (chunks', lines') := wrap_step c0 rest0 lines in
      wrap_loop fuel' chunks' lines'
  | _, _ => lines
  end.

(** [_wrap_chunks]; every pass of the loop removes a chunk, so the number
    of chunks bounds the number of passes. *)
Definition wrap_chunks (chunks : list str) : outcome (list str) :=
  if (width <=? 0)%Z then
    Raise (ValueError [Text (lit "invalid width "); ReprInt width;
                       Text (lit " (must be > 0)")])
  else Return (wrap_loop (length chunks) chunks []).

Definition wrap (text : str) : outcome (list str) :=
  wrap_chunks (split (munge_whitespace text)).

End Wrapper.

End Textwrap.

(** ** The line wrapper: [rewrap_text] *)

Section RewrapText.

Variables (max_length : Z) (is_docstring : bool).

(** The inner [while] loop, which moves [end_line] over the lines that
    follow the overlong one: the number of lines it takes into the
    paragraph. *)
Fixpoint paragraph_extent (paragraph_prefix : str) (following : list str)
  : nat :=
  match following with
  | [] => 0
  | next :: following' =>
      if startswith next paragraph_prefix then
        let line := rstrip (skipn (length paragraph_prefix) next) in
        match line with
        | [] => 0                      (* Empty line separates paragraphs. *)
        | _ =>
            if is_docstring
               && (str_eqb (strip line) triple_double
                   || str_eqb (strip line) triple_single) then 0
            else if Re.starts_new_block line then 0
            else if Re.noqa_search line then 0
            else if endswith line colon then 1
            else S (paragraph_extent paragraph_prefix following')
        end
      else 0
  end.

(** The body of the outer loop at an overlong line [cur = lines[lineno]],
    up to the call of [textwrap.wrap]: [end_line] and [new_lines]. *)
Definition reflow_paragraph (lines : list str) (lineno : nat) (cur : str)
  : outcome (nat * list str) :=
  match Re.match_indent is_docstring cur with
  | None => Raise AssertionError
  | Some (indent, list_marker, _) =>
      let paragraph_prefix := indent ++ repeat 32%N (length list_marker) in
      let paragraph_prefix_len := length paragraph_prefix in
      let start_line := lineno in
      let end_line :=
        if endswith (rstrip cur) colon then lineno + 1
        else lineno + 1
             + paragraph_extent paragraph_prefix (skipn (lineno + 1) lines) in
      let paragraph :=
        join newline
          (map (skipn paragraph_prefix_len)
             (slice lines start_line end_line)) in
      match Textwrap.wrap max_length (indent ++ list_marker)
              paragraph_prefix paragraph with
      | Raise e => Raise e
      | Return new_lines => Return (end_line, new_lines)
      end
  end.

(** [len(line) <= max_length or re_noqa.search(line)] *)
Definition left_alone (line : str) : bool :=
  (len line <=? max_length)%Z || Re.noqa_search line.

(** The state of the outer loop is [lines], [lineno] and [modified].  Each
    pass either moves [lineno] forward or replaces at least one line and
    puts [lineno] after the replacement, so that [len(lines) - lineno]
    decreases: [fuel] starts at [len(lines)]. *)
Fixpoint rewrap_loop (fuel : nat) (lines : list str) (lineno : nat)
  (modified : bool) : list str * outcome bool :=
  match fuel, nth_error lines lineno with
  | S fuel', Some cur =>
      if left_alone cur then rewrap_loop fuel' lines (lineno + 1) modified
      else
        (* This line needs wrapping. *)
        match reflow_paragraph lines lineno cur with
        | Raise e => (lines, Raise e)
        | Return (end_line, new_lines) =>
            rewrap_loop fuel' (splice lines lineno end_line new_lines)
              (lineno + length new_lines) true
        end
  | _, _ => (lines, Return modified)
  end.

Definition rewrap_text : action bool :=
  fun lines => rewrap_loop (length lines) lines 0 false.

End RewrapText.

(** ** The quote normaliser: [ensure_docstring_triple_quotes] *)

(** What the group [.*] followed by [$] matches on the rest of a line:
    [.] is any character but a line feed, and [$] stands at the end or
    before a final line feed. *)
Definition has_newline (s : str) : bool := existsb (N.eqb 10) s.

Definition rest_of_line (s : str) : option str :=
  if has_newline s then
    if endswith s newline && negb (has_newline (removelast s))
    then Some (removelast s) else None
  else Some s.

(** The first [re.match]: leading whitespace, the opening quote given by
    [re_quote], and the rest of the line, as groups 1 to 3. *)
Definition match_docstring_start (line : str) : option (str * str * str) :=
  let (indent, r) := Re.spaces line in
  match Re.match_quote r with
  | None => None
  | Some (quote, r') =>
      match rest_of_line r' with
      | None => None
      | Some content => Some (indent, quote, content)
      end
  end.

(** [quote.lstrip("r")] *)
Fixpoint lstrip_r (s : str) : str :=
  match s with
  | c :: t => if (c =? 114)%N then lstrip_r t else s
  | [] => []
  end.

(** [s[:-n]] for [n > 0] *)
Definition drop_end (n : nat) (s : str) : str := firstn (length s - n) s.

(** [lines[0] = v] and [lines[-1] = v] on a list that is not empty *)
Definition set_first (lines : list str) (v : str) : list str :=
  match lines with
  | _ :: t => v :: t
  | [] => []
  end.

Definition set_last (lines : list str) (v : str) : list str :=
  removelast lines ++ [v].

Definition invalid_format : str := lit "Invalid docstring format: ".

Definition is_canonical (quote : str) : bool :=
  str_eqb quote triple_double || str_eqb quote (letter_r ++ triple_double).

Definition ensure_docstring_triple_quotes : action bool :=
  fun lines =>
    match lines with
    | [] => (lines, Raise IndexError)
    | first :: _ =>
        match match_docstring_start first with
        | None => (lines, Raise (ValueError [Text invalid_format; Repr first]))
        | Some (indent, quote, content) =>
            if is_canonical quote then (lines, Return false)
            else
              let raw := if startswith quote letter_r then letter_r else [] in
              let end_quote := lstrip_r quote in
              if negb (endswith (rstrip (last lines [])) end_quote) then
                (lines,
                 Raise (ValueError [Text invalid_format; Text quote;
                                    Text (lit " doesn't match ");
                                    Repr (last lines [])]))
              else
                let lines1 :=
                  set_first lines (indent ++ raw ++ triple_double ++ content) in
                let lines2 :=
                  set_last lines1
                    (drop_end (length end_quote) (rstrip (last lines1 []))
                     ++ triple_double) in
                (lines2, Return true)
        end
    end.

(** ** The docstring driver: [process_docstring] *)

Section ProcessDocstring.

Variables (max_length : Z) (force_triple_quotes : bool).

(** [len(lines[0])], with the [IndexError] of an empty list *)
Definition first_line : action str :=
  fun lines =>
    match lines with
    | l :: _ => (lines, Return l)
    | [] => (lines, Raise IndexError)
    end.

(** First block: the quotes are normalised when forced or when the first
    line is too long. *)
Definition normalize_quotes : action bool :=
  first <- first_line ;;
  if force_triple_quotes || (len first >? max_length)%Z
  then ensure_docstring_triple_quotes
  else ret false.

(** The second [re.match]: the opening quote after the leading
    whitespace. *)
Definition match_opening_quote (line : str) : option str :=
  match Re.match_quote (snd (Re.spaces line)) with
  | Some (quote, _) => Some quote
  | None => None
  end.

(** The third [re.match]: leading whitespace (group 1), [quote], any
    characters (group 2), the canonical [end_quote] and trailing
    whitespace up to the end.  The closing quotes are the last characters
    before the trailing whitespace, and the content holds no line feed. *)
Definition match_single_line (quote line : str) : option (str * str) :=
  let (indent, r) := Re.spaces line in
  if startswith r quote then
    let body := rstrip (skipn (length quote) r) in
    if endswith body triple_double then
      let content := drop_end 3 body in
      if has_newline content then None else Some (indent, content)
    else None
  else None.

(** Second block: a single line that does not fit is split in three. *)
Definition split_single_line (modified : bool) : action bool :=
  first <- first_line ;;
  match match_opening_quote first with
  | None => raise (ValueError [Text invalid_format; Repr first])
  | Some quote =>
      lines <- get_lines ;;
      if (length lines =? 1) && (len first >? max_length)%Z then
        let end_quote :=
          if startswith quote letter_r then skipn 1 quote else quote in
        if negb (str_eqb end_quote triple_double) then raise AssertionError
        else
          match match_single_line quote first with
          | None => raise AssertionError
          | Some (indent, content) =>
              done <- set_lines (splice lines 0 1 [indent ++ quote;
                                                indent ++ content;
                                                indent ++ end_quote]) ;;
              ret true
          end
      else ret modified
  end.

(** Third block: the paragraphs are reflowed when a line is too long. *)
Definition reflow_docstring (modified : bool) : action bool :=
  lines <- get_lines ;;
  if existsb (fun line => (len line >? max_length)%Z) lines then
    changed <- rewrap_text max_length true ;;
    ret (if changed then true else modified)
  else ret modified.

Definition process_docstring : action bool :=
  modified <- normalize_quotes ;;
  modified <- split_single_line modified ;;
  reflow_docstring modified.

End ProcessDocstring.

(** ** The comment block scanner and the file driver *)

Definition path := string.

(** What the script sees of the file system: a path names a file with its
    text, or a directory with the [*.py] files found below it, each one
    flagged when git ignores it.  [written] logs the calls of
    [write_text].  A path is the key of its node: two spellings of one
    file are two keys. *)
Inductive node :=
| File (content : str)
| Dir (matches : list (path * bool)).

Record world := World {
  files : list (path * node);
  written : list path
}.

Fixpoint lookup (fs : list (path * node)) (p : path) : option node :=
  match fs with
  | [] => None
  | (q, n) :: rest => if String.eqb q p then Some n else lookup rest p
  end.

Fixpoint store (fs : list (path * node)) (p : path) (n : node)
  : list (path * node) :=
  match fs with
  | [] => [(p, n)]
  | (q, m) :: rest =>
      if String.eqb q p then (q, n) :: rest else (q, m) :: store rest p n
  end.

Definition read_text (w : world) (p : path) : outcome str :=
  match lookup (files w) p with
  | Some (File content) => Return content
  | _ => Raise OSError
  end.

Definition write_text (w : world) (p : path) (text : str) : world :=
  {| files := store (files w) p (File text); written := written w ++ [p] |}.

(** The namespace returned by [parser.parse_args]; the four flags are
    [store_true] options, set exactly when the option is passed. *)
Record namespace := Namespace {
  paths : list path;
  max_doc_length : Z;
  force_triple_quotes : bool;
  skip_comments : bool;
  skip_docstrings : bool;
  no_gitignore : bool
}.

(** What [main] prints: the lines on stdout and stderr, in order. *)
Inductive printed :=
| Modified (p : path)
| NotAFileOrDirectory (p : path)
| ErrorProcessing (p : path) (e : exn)
| Summary (processed modified errors : nat).

Definition is_comment_line (line : str) : bool :=
  startswith (lstrip line) [35%N].

(** [sorted(locs, reverse=True)] on pairs of integers *)
Definition loc_leb (a b : nat * nat) : bool :=
  (fst a <? fst b) || ((fst a =? fst b) && (snd a <=? snd b)).

Fixpoint insert_descending (x : nat * nat) (l : list (nat * nat))
  : list (nat * nat) :=
  match l with
  | [] => [x]
  | y :: t => if loc_leb y x then x :: l else y :: insert_descending x t
  end.

Definition sorted_reverse (l : list (nat * nat)) : list (nat * nat) :=
  fold_right insert_descending [] l.

Section Driver.

(** The span provider: [DocstringFinder(content).docstring_locs], the
    ranges of lines of the docstrings found by [ast], or the exception
    raised by [ast.parse]. *)
Variable docstring_locs : str -> outcome (list (nat * nat)).

(** The number of passes of the comment scanner that the model follows;
    [None] is returned when they do not suffice. *)
Variable scan_bound : nat.

Section ProcessContent.

Variables (max_length : Z) (force_triple_quotes : bool).

Definition too_long (line : str) : bool := (len line >? max_length)%Z.

(** The loop over the docstring ranges *)
Fixpoint process_docstrings (locs : list (nat * nat)) (lines : list str)
  (modified : bool) : outcome (list str * bool) :=
  match locs with
  | [] => Return (lines, modified)
  | (start_line, end_line) :: locs' =>
      match process_docstring max_length force_triple_quotes
              (slice lines start_line end_line) with
      | (_, Raise e) => Raise e
      | (docstring_lines, Return true) =>
          process_docstrings locs'
            (splice lines start_line end_line docstring_lines) true
      | (_, Return false) => process_docstrings locs' lines modified
      end
  end.

(** The inner loop that collects consecutive comment lines: how many of
    the lines after the first one belong to the block. *)
Fixpoint comment_run (following : list str) : nat :=
  match following with
  | line :: rest => if is_comment_line line then S (comment_run rest) else 0
  | [] => 0
  end.

(** The loop over the comment blocks; [lineno] continues at the old
    [end_line] after a block was replaced. *)
Fixpoint scan_comments (fuel : nat) (lines : list str) (lineno : nat)
  (modified : bool) : option (outcome (list str * bool)) :=
  match fuel with
  | 0 => None
  | S fuel' =>
      match nth_error lines lineno with
      | None => Some (Return (lines, modified))
      | Some cur =>
          if (lineno =? 0) && startswith cur (lit "#!") then
            scan_comments fuel' lines (lineno + 1) modified
          else if is_comment_line cur then
            let start_line := lineno in
            let end_line :=
              lineno + 1 + comment_run (skipn (lineno + 1) lines) in
            let comment_lines := slice lines start_line end_line in
            if existsb too_long comment_lines then
              match rewrap_text max_length false comment_lines with
              | (_, Raise e) => Some (Raise e)
              | (comment_lines', Return true) =>
                  scan_comments fuel'
                    (splice lines start_line end_line comment_lines')
                    end_line true
              | (_, Return false) =>
                  scan_comments fuel' lines end_line modified
              end
            else scan_comments fuel' lines end_line modified
          else scan_comments fuel' lines (lineno + 1) modified
      end
  end.

Definition process_content (content : str)
  (wrap_comments wrap_docstrings : bool)
  : option (outcome (list str * bool)) :=
  let lines := splitlines content in
  let after_docstrings :=
    if wrap_docstrings then
      match docstring_locs content with
      | Raise e => Raise e
      | Return locs => process_docstrings (sorted_reverse locs) lines false
      end
    else Return (lines, false) in
  match after_docstrings with
  | Raise e => Some (Raise e)
  | Return (lines', modified) =>
      if wrap_comments then scan_comments scan_bound lines' 0 modified
      else Some (Return (lines', modified))
  end.

Definition process_file (file_path : path)
  (wrap_comments wrap_docstrings : bool) (w : world)
  : option (world * outcome bool) :=
  match read_text w file_path with
  | Raise e => Some (w, Raise e)
  | Return content =>
      match process_content content wrap_comments wrap_docstrings with
      | None => None
      | Some (Raise e) => Some (w, Raise e)
      | Some (Return (processed_lines, true)) =>
          let text := join newline processed_lines ++ newline in
          Some (write_text w file_path text, Return true)
      | Some (Return (_, false)) => Some (w, Return false)
      end
  end.

End ProcessContent.

(** [recursive_glob(root, "*.py", omit_gitignore)] on a directory node:
    the paths that [rglob] finds, without those that git ignores when
    [omit_gitignore] is set.  This follows the runs in which
    [git check-ignore] starts and answers every query; when it does not,
    the generator raises [RuntimeError] outside the [try] of [main], or
    waits, and such runs are not described here. *)
Definition recursive_glob (matches : list (path * bool)) (omit_gitignore : bool)
  : list path :=
  map fst (filter (fun m => negb (omit_gitignore && snd m)) matches).

(** The counters and the output of [main], and the world. *)
Record run := Run {
  processed_count : nat;
  modified_count : nat;
  error_count : nat;
  output : list printed;
  state : world
}.

(** The loop over [file_paths], for the call of [process_file] made by
    [main]. *)
Fixpoint process_files
  (process : path -> world -> option (world * outcome bool))
  (file_paths : list path) (r : run) : option run :=
  match file_paths with
  | [] => Some r
  | file_path :: rest =>
      match process file_path (state r) with
      | None => None
      | Some (w, Return true) =>
          process_files process rest
            {| processed_count := processed_count r + 1;
               modified_count := modified_count r + 1;
               error_count := error_count r;
               output := output r ++ [Modified file_path];
               state := w |}
      | Some (w, Return false) =>
          process_files process rest
            {| processed_count := processed_count r + 1;
               modified_count := modified_count r;
               error_count := error_count r;
               output := output r;
               state := w |}
      | Some (w, Raise e) =>
          process_files process rest
            {| processed_count := processed_count r + 1;
               modified_count := modified_count r;
               error_count := error_count r + 1;
               output := output r ++ [ErrorProcessing file_path e];
               state := w |}
      end
  end.

(** The loop over [paths] *)
Fixpoint process_paths
  (process : path -> world -> option (world * outcome bool))
  (omit_gitignore : bool) (paths : list path) (r : run) : option run :=
  match paths with
  | [] => Some r
  | p :: rest =>
      match lookup (files (state r)) p with
      | Some (File _) =>
          match process_files process [p] r with
          | Some r' => process_paths process omit_gitignore rest r'
          | None => None
          end
      | Some (Dir matches) =>
          match process_files process
                  (recursive_glob matches omit_gitignore) r with
          | Some r' => process_paths process omit_gitignore rest r'
          | None => None
          end
      | None =>
          process_paths process omit_gitignore rest
            {| processed_count := processed_count r;
               modified_count := modified_count r;
               error_count := error_count r + 1;
               output := output r ++ [NotAFileOrDirectory p];
               state := state r |}
      end
  end.

(** [main] after the arguments are read: the loops, the summary and the
    exit code. *)
Definition main_loop (max_length : Z) (force_triple_quotes : bool)
  (omit_gitignore wrap_comments wrap_docstrings : bool)
  (paths : list path) (w : world) : option (Z * list printed * world) :=
  match process_paths
          (fun file_path =>
             process_file max_length force_triple_quotes file_path
               wrap_comments wrap_docstrings)
          omit_gitignore paths
          {| processed_count := 0; modified_count := 0; error_count := 0;
             output := []; state := w |} with
  | None => None
  | Some r =>
      Some (if error_count r =? 0 then 0%Z else 1%Z,
            output r ++ [Summary (processed_count r) (modified_count r)
                           (error_count r)],
            state r)
  end.

(** [main]: the exit code, what was printed, and the world afterwards. *)
Definition main (args : namespace) (w : world)
  : option (Z * list printed * world) :=
  let paths := paths args in
  let max_length := max_doc_length args in
  let force_triple_quotes := force_triple_quotes args in
  let omit_gitignore := negb (no_gitignore args) in
  let wrap_comments := negb (skip_docstrings args) in
  let wrap_docstrings := negb (skip_comments args) in
  main_loop max_length force_triple_quotes omit_gitignore
    wrap_comments wrap_docstrings paths w.

End Driver.

(** ** Vocabulary of the properties *)

(** [s.split()]: the non-whitespace tokens of [s], the maximal runs of
    characters that are not whitespace. *)
Definition starts_with_space (s : str) : bool :=
  match s with
  | c :: _ => isspace c
  | [] => true
  end.

Definition glue (c : char) (ws : list str) : list str :=
  match ws with
  | w :: rest => (c :: w) :: rest
  | [] => [[c]]
  end.

Fixpoint words (s : str) : list str :=
  match s with
  | [] => []
  | c :: t =>
      if isspace c then words t
      else if starts_with_space t then [c] :: words t
      else glue c (words t)
  end.

Definition all_space (s : str) : bool := forallb isspace s.

(** The lines made of a first prefix or a continuation prefix and a
    text: the shape of a paragraph, before and after it is reflowed. *)
Definition prefixed (first_prefix next_prefix : str) (texts : list str)
  : list str :=
  match texts with
  | [] => []
  | t :: ts => (first_prefix ++ t) :: map (app next_prefix) ts
  end.

(** A token that [textwrap] cannot break: not empty, and without any of
    the characters at which it splits. *)
Definition unbreakable (tok : str) : Prop :=
  tok <> [] /\ forallb (fun c => negb (Textwrap.is_ws c)) tok = true.

(** A line made of the prefix of a paragraph (the indent and list marker
    of one of the given lines, or the indent padded to the width of the
    marker) and one unbreakable token. *)
Definition token_line (is_docstring : bool) (lines : list str) (l : str)
  : Prop :=
  exists orig indent marker rest tok,
    In orig lines
    /\ Re.match_indent is_docstring orig = Some (indent, marker, rest)
    /\ unbreakable tok
    /\ (l = (indent ++ marker) ++ tok
        \/ l = (indent ++ repeat 32%N (length marker)) ++ tok).

(** The kind of a chunk of [textwrap]: whitespace or not, when all its
    characters agree. *)
Definition kind (c : str) : option bool :=
  match c with
  | [] => None
  | x :: t =>
      if forallb (fun y => Bool.eqb (Textwrap.is_ws y) (Textwrap.is_ws x)) t
      then Some (Textwrap.is_ws x) else None
  end.

(** Chunks as [_split] makes them: of one kind each, the kinds
    alternating. *)
Fixpoint well_chunked (cs : list str) : bool :=
  match cs with
  | [] => true
  | a :: t =>
      match kind a with
      | None => false
      | Some k =>
          match t with
          | [] => true
          | b :: _ =>
              match kind b with
              | Some k' => negb (Bool.eqb k k') && well_chunked t
              | None => false
              end
          end
      end
  end.

(** The loop of [rewrap_text] seen from [lineno]: the lines before it are
    final, the lines from it on are still those of the input. *)
Section RewrapRest.

Variables (max_length : Z) (is_docstring : bool).

Fixpoint rewrap_rest (fuel : nat) (rest : list str) (modified : bool)
  : list str * outcome bool :=
  match fuel, rest with
  | S fuel', cur :: following =>
      if left_alone max_length cur then
        let (out, r) := rewrap_rest fuel' following modified in
        (cur :: out, r)
      else
        match reflow_paragraph max_length is_docstring rest 0 cur with
        | Raise e => (rest, Raise e)
        | Return (end_line, new_lines) =>
            let (out, r) := rewrap_rest fuel' (skipn end_line rest) true in
            (new_lines ++ out, r)
        end
  | _, _ => (rest, Return modified)
  end.

End RewrapRest.

(** The indent that [_wrap_chunks] puts before a line. *)
Definition indent_for (initial_indent subsequent_indent : str)
  (lines : list str) : str :=
  match lines with
  | [] => initial_indent
  | _ => subsequent_indent
  end.

(** The lines that make a paragraph, counted after the overlong line. *)
Definition paragraph_lines (is_docstring : bool) (cur prefix : str)
  (following : list str) : nat :=
  if endswith (rstrip cur) colon then 0
  else paragraph_extent is_docstring prefix following.

(** A line of the result that respects the width: it fits, or carries
    the exclusion marker, or holds one unbreakable token. *)
Definition width_ok (max_length : Z) (is_docstring : bool)
  (lines : list str) (l : str) : Prop :=
  (len l <= max_length)%Z \/ Re.noqa_search l = true
  \/ token_line is_docstring lines l.

(** The claim about the comment indent, as the specification words it:
    whitespace, one [#], at most one space. *)
Definition single_space_indent (indent : str) : Prop :=
  exists ws, all_space ws = true
             /\ (indent = ws ++ [35%N] \/ indent = ws ++ [35%N; 32%N]).

(** A file that holds one comment line with a URL that does not fit in 79
    columns, and the span provider for it: it has no docstring. *)
Definition url_line : str :=
  lit "# https://example.com/it-does-not-need-to-be-broken-if-too-long-for-a-single-line".

Definition no_docstrings (content : str) : outcome (list (nat * nat)) :=
  Return [].

Definition url_world (log : list path) : world :=
  {| files := [("url.py"%string, File (url_line ++ newline))];
     written := log |}.

Definition default_args (ps : list path) : namespace :=
  {| paths := ps; max_doc_length := 79; force_triple_quotes := false;
     skip_comments := false; skip_docstrings := false;
     no_gitignore := false |}.

(** [main] run [n] times on the same arguments: what each run printed. *)
Fixpoint main_runs (docstring_locs : str -> outcome (list (nat * nat)))
  (scan_bound : nat) (args : namespace) (n : nat) (w : world)
  : option (list (list printed) * world) :=
  match n with
  | 0 => Some ([], w)
  | S n' =>
      match main docstring_locs scan_bound args w with
      | None => None
      | Some (_, out, w') =>
          match main_runs docstring_locs scan_bound args n' w' with
          | None => None
          | Some (outs, w'') => Some (out :: outs, w'')
          end
      end
  end.

(** The paths that [main] reported as modified, and the lines that
    report an error. *)
Definition modified_paths (out : list printed) : list path :=
  flat_map (fun line => match line with Modified q => [q] | _ => [] end) out.

Definition is_error_line (line : printed) : bool :=
  match line with
  | NotAFileOrDirectory _ | ErrorProcessing _ _ => true
  | _ => false
  end.

(** A line of code: anything but a comment line. *)
Definition is_code_line (line : str) : bool := negb (is_comment_line line).

(** Ranges of lines below [hi] that come in descending order and do not
    overlap, as [sorted(..., reverse=True)] leaves the ranges of the
    docstrings of a file. *)
Fixpoint descending (hi : nat) (locs : list (nat * nat)) : Prop :=
  match locs with
  | [] => True
  | (s, e) :: rest => s <= e /\ e <= hi /\ descending s rest
  end.

(** What a loop over ranges returns, with lines appended to the lines it
    produced. *)
Definition followed_by (tail : list str) (r : outcome (list str * bool))
  : outcome (list str * bool) :=
  match r with
  | Return (lines, modified) => Return (lines ++ tail, modified)
  | Raise e => Raise e
  end.

(** What the loops of [main] add to a run: lines of output, with the
    writes, the counters and the files that go with them. *)
Definition run_extends (r r' : run) : Prop :=
  exists delta,
    output r' = output r ++ delta
    /\ written (state r') = written (state r) ++ modified_paths delta
    /\ modified_count r' = modified_count r + length (modified_paths delta)
    /\ error_count r'
       = error_count r + length (filter is_error_line delta)
    /\ forall q, ~ In q (modified_paths delta) ->
                 lookup (files (state r')) q = lookup (files (state r)) q.



(** The measure that bounds the passes of the comment scanner.  A
    character counts for the columns it can take once tabs are expanded,
    a line for one more than the text after its [#] and the whitespace
    around it. *)
Definition char_weight (c : char) : nat := if (c =? 9)%N then 8 else 1.

Definition text_weight (s : str) : nat := list_sum (map char_weight s).

Definition comment_text (line : str) : str := lstrip (skipn 1 (lstrip line)).

Definition line_weight (line : str) : nat :=
  S (text_weight (comment_text line)).

Definition total_weight (lines : list str) : nat :=
  list_sum (map line_weight lines).

(** What [_wrap_chunks] can still add to the count of lines and
    characters beyond the characters of the chunks: one line, unless the
    next chunk is dropped at the start of a line. *)
Definition slack (lines chunks : list str) : nat :=
  match lines, chunks with
  | _ :: _, c :: _ => if Textwrap.is_blank c then 0 else 1
  | _, [] => 0
  | [], _ :: _ => 1
  end.

(** A path that names a directory, below which [main] searches. *)
Definition names_directory (w : world) (p : path) : bool :=
  match lookup (files w) p with
  | Some (Dir _) => true
  | _ => false
  end.

(** * Properties *)

(** ** Strings *)

Lemma lstrip_all_space (s : str) : all_space s = true -> lstrip s = [].
Proof.
  induction s as [|c t IH]; simpl; [reflexivity|].
  intros H. apply andb_true_iff in H as [Hc Ht]. rewrite Hc. auto.
Qed.

Lemma lstrip_nil_all_space (s : str) : lstrip s = [] -> all_space s = true.
Proof.
  induction s as [|c t IH]; simpl; [reflexivity|].
  destruct (isspace c) eqn:Hc; [auto | discriminate].
Qed.

Lemma lstrip_no_space (c : char) (t : str) :
  isspace c = false -> lstrip (c :: t) = c :: t.
Proof. intros H. simpl. now rewrite H. Qed.

Lemma lstrip_app_space (w s : str) :
  all_space w = true -> lstrip (w ++ s) = lstrip s.
Proof.
  induction w as [|c t IH]; simpl; [reflexivity|].
  intros H. apply andb_true_iff in H as [Hc Ht]. rewrite Hc. auto.
Qed.

Lemma all_space_app (a b : str) :
  all_space (a ++ b) = all_space a && all_space b.
Proof. apply forallb_app. Qed.

Lemma all_space_rev (a : str) : all_space (rev a) = all_space a.
Proof.
  induction a as [|c t IH]; simpl; [reflexivity|].
  rewrite all_space_app, IH. simpl. rewrite andb_true_r. apply andb_comm.
Qed.

Lemma rstrip_app_space (s w : str) :
  all_space w = true -> rstrip (s ++ w) = rstrip s.
Proof.
  intros H. unfold rstrip. rewrite rev_app_distr, lstrip_app_space;
    [reflexivity | now rewrite all_space_rev].
Qed.

Lemma rstrip_no_space (s : str) (c : char) :
  isspace c = false -> rstrip (s ++ [c]) = s ++ [c].
Proof.
  intros H. unfold rstrip. rewrite rev_app_distr. simpl. rewrite H.
  simpl. now rewrite rev_involutive.
Qed.

Lemma spaces_lstrip (s : str) : snd (Re.spaces s) = lstrip s.
Proof.
  induction s as [|c t IH]; simpl; [reflexivity|].
  destruct (isspace c); [|reflexivity].
  destruct (Re.spaces t). exact IH.
Qed.

Lemma spaces_spec (s w r : str) :
  Re.spaces s = (w, r) ->
  s = w ++ r /\ all_space w = true /\ lstrip r = r /\ r = lstrip s.
Proof.
  revert w r. induction s as [|c t IH]; simpl; intros w r H.
  - inversion H. auto.
  - destruct (isspace c) eqn:Hc.
    + destruct (Re.spaces t) as [w' r'] eqn:Ht. inversion H; subst.
      destruct (IH _ _ eq_refl) as (E & A & L & R).
      simpl. rewrite Hc. repeat split; auto. now f_equal.
    + inversion H; subst. simpl. rewrite Hc. auto.
Qed.

Lemma spaces_app (w r : str) :
  all_space w = true -> lstrip r = r -> Re.spaces (w ++ r) = (w, r).
Proof.
  intros Hw Hr. induction w as [|c t IH]; simpl.
  - destruct r as [|c t]; [reflexivity|]. simpl in *.
    destruct (isspace c) eqn:Hc; [|reflexivity].
    exfalso. assert (L : length (lstrip t) <= length t).
    { clear. induction t as [|a t IH]; simpl; [lia|].
      destruct (isspace a); simpl; lia. }
    rewrite Hr in L. simpl in L. lia.
  - simpl in Hw. apply andb_true_iff in Hw as [Hc Ht]. rewrite Hc.
    now rewrite (IH Ht).
Qed.

Lemma startswith_app (p s : str) : startswith (p ++ s) p = true.
Proof.
  induction p as [|c t IH]; simpl; [reflexivity|].
  now rewrite N.eqb_refl.
Qed.

Lemma startswith_inv (s p : str) :
  startswith s p = true -> s = p ++ skipn (length p) s.
Proof.
  revert s. induction p as [|c t IH]; intros s H; [reflexivity|].
  destruct s as [|d s]; simpl in H; [discriminate|].
  apply andb_true_iff in H as [E H]. apply N.eqb_eq in E. subst.
  simpl. f_equal. auto.
Qed.

Lemma endswith_app (s d : str) : endswith (s ++ d) d = true.
Proof. unfold endswith. rewrite rev_app_distr. apply startswith_app. Qed.

Lemma len_app (a b : str) : len (a ++ b) = (len a + len b)%Z.
Proof. unfold len. rewrite length_app. lia. Qed.

Lemma len_nonneg (a : str) : (0 <= len a)%Z.
Proof. unfold len. lia. Qed.

(** ** Tokens *)

Lemma words_space (w s : str) : all_space w = true -> words (w ++ s) = words s.
Proof.
  induction w as [|c t IH]; simpl; [reflexivity|].
  intros H. apply andb_true_iff in H as [Hc Ht]. rewrite Hc. auto.
Qed.

Lemma words_all_space (w : str) : all_space w = true -> words w = [].
Proof. intros H. rewrite <- (app_nil_r w). now rewrite words_space. Qed.

Lemma words_not_nil (c : char) (t : str) :
  isspace c = false -> words (c :: t) <> [].
Proof.
  intros H. simpl. rewrite H. destruct (starts_with_space t); [discriminate|].
  destruct (words t); discriminate.
Qed.

Lemma glue_app (c : char) (u v : list str) :
  u <> [] -> glue c (u ++ v) = glue c u ++ v.
Proof. destruct u; [congruence | reflexivity]. Qed.

Lemma words_cons (c : char) (t : str) :
  words (c :: t) =
  if isspace c then words t
  else if starts_with_space t then [c] :: words t
  else glue c (words t).
Proof. reflexivity. Qed.

Lemma words_split_at_space (a b : str) (c : char) :
  isspace c = true -> words (a ++ c :: b) = words a ++ words b.
Proof.
  intros Hc. induction a as [|x a IH].
  - simpl. now rewrite Hc.
  - rewrite <- app_comm_cons, !words_cons.
    destruct (isspace x) eqn:Hx; [exact IH|].
    rewrite IH. destruct a as [|d a].
    + simpl. now rewrite Hc.
    + simpl starts_with_space. destruct (isspace d) eqn:Hd; [reflexivity|].
      apply glue_app. now apply words_not_nil.
Qed.


(** ** Chunks of [textwrap] *)

Lemma is_ws_isspace (c : char) : Textwrap.is_ws c = true -> isspace c = true.
Proof.
  unfold Textwrap.is_ws, isspace. intros H.
  apply orb_true_iff in H as [H|H].
  - apply andb_true_iff in H as [H1 H2]. now rewrite H1, H2.
  - apply N.eqb_eq in H. now subst.
Qed.

Lemma all_space_repeat (n : nat) : all_space (repeat 32%N n) = true.
Proof. induction n as [|n IH]; [reflexivity|]. simpl. exact IH. Qed.

Lemma expandtabs_cons (c : char) (t : str) (col : nat) :
  expandtabs_from col (c :: t) =
  if (c =? 9)%N then
    repeat 32%N (8 - Nat.modulo col 8)
    ++ expandtabs_from (col + (8 - Nat.modulo col 8)) t
  else if ((c =? 10) || (c =? 13))%N then c :: expandtabs_from 0 t
  else c :: expandtabs_from (S col) t.
Proof. reflexivity. Qed.

Lemma starts_with_space_expandtabs (t : str) (col : nat) :
  starts_with_space (expandtabs_from col t) = starts_with_space t.
Proof.
  destruct t as [|d t']; [reflexivity|].
  rewrite expandtabs_cons. destruct (d =? 9)%N eqn:Hd.
  - apply N.eqb_eq in Hd. subst.
    pose proof (Nat.mod_upper_bound col 8).
    destruct (8 - Nat.modulo col 8) eqn:E; [lia | reflexivity].
  - destruct ((d =? 10) || (d =? 13))%N; reflexivity.
Qed.

Lemma words_expandtabs (s : str) (col : nat) :
  words (expandtabs_from col s) = words s.
Proof.
  revert col. induction s as [|c t IH]; intros col; [reflexivity|].
  rewrite expandtabs_cons. destruct (c =? 9)%N eqn:Htab.
  - apply N.eqb_eq in Htab. subst. rewrite words_space.
    + now rewrite IH.
    + apply all_space_repeat.
  - destruct ((c =? 10) || (c =? 13))%N;
      rewrite !words_cons, IH, starts_with_space_expandtabs; reflexivity.
Qed.

Lemma words_munge (text : str) :
  words (Textwrap.munge_whitespace text) = words text.
Proof.
  unfold Textwrap.munge_whitespace, expandtabs.
  rewrite <- (words_expandtabs text 0).
  induction (expandtabs_from 0 text) as [|c t IH]; [reflexivity|].
  simpl map. rewrite !words_cons, IH.
  assert (Hs : starts_with_space
                 (map (fun c => if Textwrap.is_ws c then 32%N else c) t)
               = starts_with_space t).
  { destruct t as [|d t']; [reflexivity|]. simpl.
    destruct (Textwrap.is_ws d) eqn:Hd; [|reflexivity].
    now rewrite (is_ws_isspace _ Hd). }
  rewrite Hs. destruct (Textwrap.is_ws c) eqn:Hc; [|reflexivity].
  now rewrite (is_ws_isspace _ Hc).
Qed.

Lemma concat_split (s : str) : concat (Textwrap.split s) = s.
Proof.
  induction s as [|c t IH]; [reflexivity|].
  simpl. destruct (Textwrap.split t) as [|[|d ch] rest].
  - simpl in *. now subst.
  - simpl in *. now subst.
  - destruct (Bool.eqb (Textwrap.is_ws c) (Textwrap.is_ws d));
      simpl in *; now rewrite IH.
Qed.

Lemma kind_cons (x : char) (t : str) (k : bool) :
  kind (x :: t) = Some k ->
  k = Textwrap.is_ws x
  /\ forallb (fun y => Bool.eqb (Textwrap.is_ws y) k) t = true.
Proof.
  simpl.
  destruct (forallb _ t) eqn:F; [|discriminate].
  intros H. inversion H. subst. auto.
Qed.

Lemma well_chunked_tail (a : str) (cs : list str) :
  well_chunked (a :: cs) = true -> well_chunked cs = true.
Proof.
  cbn [well_chunked]. destruct (kind a) as [k|]; [|discriminate].
  destruct cs as [|b cs]; [reflexivity|].
  destruct (kind b) as [k'|]; [|discriminate].
  intros H. now apply andb_true_iff in H as [_ H].
Qed.

Lemma well_chunked_kind (a : str) (cs : list str) :
  well_chunked (a :: cs) = true -> exists k, kind a = Some k.
Proof.
  cbn [well_chunked]. destruct (kind a) as [k|]; [eauto | discriminate].
Qed.

Lemma well_chunked_cons (a b : str) (t : list str) (k k' : bool) :
  kind a = Some k -> kind b = Some k' ->
  well_chunked (a :: b :: t) = negb (Bool.eqb k k') && well_chunked (b :: t).
Proof.
  intros Ka Kb. cbn [well_chunked]. now rewrite Ka, Kb.
Qed.

Lemma kind_extend (c d : char) (ch : str) (k : bool) :
  kind (d :: ch) = Some k -> Textwrap.is_ws c = Textwrap.is_ws d ->
  kind (c :: d :: ch) = Some k.
Proof.
  intros K E. apply kind_cons in K as [-> F].
  unfold kind. cbn [forallb]. rewrite E, eqb_reflx. cbn [andb].
  now rewrite F.
Qed.

Lemma split_well_chunked (s : str) : well_chunked (Textwrap.split s) = true.
Proof.
  induction s as [|c t IH]; [reflexivity|].
  simpl Textwrap.split. destruct (Textwrap.split t) as [|[|d ch] rest].
  - reflexivity.
  - discriminate.
  - destruct (well_chunked_kind _ _ IH) as [k K].
    pose proof (kind_cons _ _ _ K) as [Hk _].
    destruct (Bool.eqb (Textwrap.is_ws c) (Textwrap.is_ws d)) eqn:E.
    + apply eqb_prop in E. pose proof (kind_extend c _ _ _ K E) as K'.
      destruct rest as [|b rest].
      * cbn [well_chunked]. now rewrite K'.
      * destruct (well_chunked_kind _ _ (well_chunked_tail _ _ IH)) as [k' Kb].
        rewrite (well_chunked_cons _ _ _ _ _ K' Kb).
        now rewrite (well_chunked_cons _ _ _ _ _ K Kb) in IH.
    + assert (Kc : kind [c] = Some (Textwrap.is_ws c)) by reflexivity.
      rewrite (well_chunked_cons _ _ _ _ _ Kc K), IH, Hk, E. reflexivity.
Qed.

Lemma kind_space (c : str) : kind c = Some true -> all_space c = true.
Proof.
  destruct c as [|x t]; [discriminate|]. intros K.
  apply kind_cons in K as [Hx F]. simpl.
  rewrite is_ws_isspace by auto. simpl.
  induction t as [|y t IH]; [reflexivity|]. simpl in *.
  apply andb_true_iff in F as [Hy F]. apply eqb_prop in Hy.
  rewrite is_ws_isspace by auto. auto.
Qed.

Lemma kind_token (c : str) : kind c = Some false -> unbreakable c.
Proof.
  destruct c as [|x t]; [discriminate|]. intros K.
  apply kind_cons in K as [Hx F]. split; [discriminate|]. simpl.
  rewrite <- Hx. simpl.
  induction t as [|y t IH]; [reflexivity|]. simpl in *.
  apply andb_true_iff in F as [Hy F]. apply eqb_prop in Hy.
  rewrite Hy. auto.
Qed.

Lemma is_blank_all_space (c : str) :
  Textwrap.is_blank c = true <-> all_space c = true.
Proof.
  unfold Textwrap.is_blank, strip, rstrip. split.
  - destruct (rev (lstrip (rev (lstrip c)))) eqn:E; [|discriminate].
    intros _. apply (f_equal (@rev char)) in E.
    rewrite rev_involutive in E. simpl in E.
    apply lstrip_nil_all_space in E. rewrite all_space_rev in E.
    destruct (lstrip c) as [|x t] eqn:L.
    + now apply lstrip_nil_all_space.
    + exfalso. simpl in E. apply andb_true_iff in E as [Hx _].
      clear - L Hx. induction c as [|y c IH]; simpl in L; [discriminate|].
      destruct (isspace y) eqn:Hy; [auto|]. inversion L; subst. congruence.
  - intros H. now rewrite (lstrip_all_space _ H).
Qed.

Lemma not_blank_token (c : str) (k : bool) :
  kind c = Some k -> Textwrap.is_blank c = false -> unbreakable c.
Proof.
  intros K B. destruct k; [|now apply kind_token].
  apply kind_space in K. apply is_blank_all_space in K. congruence.
Qed.

Lemma well_chunked_app (a b : list str) :
  well_chunked (a ++ b) = true ->
  well_chunked a = true /\ well_chunked b = true.
Proof.
  induction a as [|x a IH]; [auto|]. intros H.
  pose proof (well_chunked_tail _ _ H) as T. destruct (IH T) as [Ha Hb].
  split; [|exact Hb]. clear IH Hb.
  destruct (well_chunked_kind _ _ H) as [k K].
  destruct a as [|y a]; [cbn [well_chunked]; now rewrite K|].
  simpl app in *. destruct (well_chunked_kind _ _ T) as [k' K'].
  rewrite (well_chunked_cons _ _ (a ++ b) _ _ K K') in H.
  rewrite (well_chunked_cons _ _ a _ _ K K').
  apply andb_true_iff in H as [N _]. now rewrite N, Ha.
Qed.

Lemma well_chunked_In (cs : list str) (c : str) :
  well_chunked cs = true -> In c cs -> exists k, kind c = Some k.
Proof.
  induction cs as [|a cs IH]; [contradiction|]. intros W [->|I].
  - now apply well_chunked_kind in W.
  - apply IH; auto. now apply well_chunked_tail in W.
Qed.

Lemma words_concat (cs : list str) :
  well_chunked cs = true -> words (concat cs) = flat_map words cs.
Proof.
  induction cs as [|a cs IH]; [reflexivity|]. intros W.
  pose proof (well_chunked_tail _ _ W) as T. specialize (IH T).
  simpl concat. simpl flat_map. rewrite <- IH.
  cbn [well_chunked] in W. destruct (kind a) as [k|] eqn:K; [|discriminate].
  destruct k.
  - apply kind_space in K. now rewrite words_space, (words_all_space _ K).
  - destruct cs as [|b cs]; [simpl; now rewrite !app_nil_r|].
    destruct (kind b) as [[|]|] eqn:Kb; try discriminate.
    destruct b as [|y b]; [discriminate|].
    pose proof (kind_cons _ _ _ Kb) as [Hy _]. symmetry in Hy.
    apply is_ws_isspace in Hy. simpl concat.
    rewrite words_split_at_space by exact Hy.
    rewrite words_cons, Hy. reflexivity.
Qed.

(** ** The loop of [_wrap_chunks] *)

Lemma fill_line_spec (w : Z) (chunks : list str) :
  forall n cur rest,
    Textwrap.fill_line w n chunks = (cur, rest) ->
    chunks = cur ++ rest
    /\ (cur = [] \/ (n + len (concat cur) <= w)%Z)
    /\ match rest with
       | c :: _ => cur = [] -> (n + len c > w)%Z
       | [] => True
       end.
Proof.
  induction chunks as [|c chunks IH]; intros n cur rest H; simpl in H.
  - inversion H. auto.
  - destruct (n + len c <=? w)%Z eqn:Fit.
    + destruct (Textwrap.fill_line w (n + len c) chunks) as [cur' rest'] eqn:F.
      inversion H; subst. destruct (IH _ _ _ F) as (E & B & R).
      apply Z.leb_le in Fit. split; [now rewrite E|]. split.
      * right. simpl concat. rewrite len_app.
        destruct B as [->|B]; [simpl; unfold len at 2; simpl; lia | lia].
      * destruct rest; [exact I | discriminate].
    + inversion H; subst. apply Z.leb_gt in Fit.
      split; [reflexivity|]. split; [now left|]. intros _. lia.
Qed.

Lemma drop_trailing_blank_spec (cur : list str) :
  Textwrap.drop_trailing_blank cur = cur
  \/ exists b, cur = Textwrap.drop_trailing_blank cur ++ [b]
               /\ Textwrap.is_blank b = true.
Proof.
  unfold Textwrap.drop_trailing_blank.
  destruct (rev cur) as [|c r] eqn:E; [now left|].
  destruct (Textwrap.is_blank c) eqn:B; [|now left].
  right. exists c. split; [|exact B].
  rewrite <- (rev_involutive cur), E. reflexivity.
Qed.

Lemma len_concat_app (a b : list str) :
  len (concat (a ++ b)) = (len (concat a) + len (concat b))%Z.
Proof. now rewrite concat_app, len_app. Qed.

Section WrapFacts.

Variables (width : Z) (initial_indent subsequent_indent : str).

(** What a line holds before its trailing blank is dropped: nothing,
    chunks that fit, or one chunk. *)
Lemma take_line_spec (w : Z) (chunks1 cur' chunks3 : list str) :
  (let (cur, chunks2) := Textwrap.fill_line w 0 chunks1 in
   Textwrap.take_long_word w chunks2 cur) = (cur', chunks3) ->
  chunks1 = cur' ++ chunks3
  /\ (chunks1 <> [] -> cur' <> [])
  /\ (cur' = [] \/ (len (concat cur') <= w)%Z \/ exists c, cur' = [c]).
Proof.
  destruct (Textwrap.fill_line w 0 chunks1) as [cur chunks2] eqn:F.
  destruct (fill_line_spec _ _ _ _ _ F) as (E & B & R).
  assert (B' : cur = [] \/ (len (concat cur) <= w)%Z \/ exists c, cur = [c]).
  { destruct B as [B|B]; [now left | right; left; lia]. }
  unfold Textwrap.take_long_word. destruct chunks2 as [|c r].
  - intros H. inversion H; subst. rewrite app_nil_r.
    repeat split; auto.
  - destruct (len c >? w)%Z eqn:Long.
    + unfold Textwrap.handle_long_word. destruct cur as [|x cur];
        intros H; inversion H; subst.
      * repeat split; [discriminate | right; right; eauto].
      * repeat split; [discriminate | exact B'].
    + intros H. inversion H; subst. repeat split; [|exact B'].
      intros _ ->. specialize (R eq_refl).
      rewrite Z.gtb_ltb in Long. apply Z.ltb_ge in Long. lia.
Qed.

Lemma drop_spec (w : Z) (cur' : list str) :
  cur' = [] \/ (len (concat cur') <= w)%Z \/ (exists c, cur' = [c]) ->
  exists post,
    cur' = Textwrap.drop_trailing_blank cur' ++ post
    /\ Forall (fun c => Textwrap.is_blank c = true) post
    /\ (Textwrap.drop_trailing_blank cur' = []
        \/ (len (concat (Textwrap.drop_trailing_blank cur')) <= w)%Z
        \/ exists c, Textwrap.drop_trailing_blank cur' = [c]
                     /\ Textwrap.is_blank c = false).
Proof.
  intros B. destruct (drop_trailing_blank_spec cur') as [D|(b & D & Bb)].
  - exists []. rewrite app_nil_r, D. repeat split; [constructor|].
    destruct B as [B|[B|(c & B)]]; [now left | now right; left |].
    subst. unfold Textwrap.drop_trailing_blank in D. simpl in D.
    destruct (Textwrap.is_blank c) eqn:Bc; [discriminate|].
    right. right. eauto.
  - exists [b]. repeat split; [exact D | now constructor |].
    destruct B as [B|[B|(c & B)]].
    + subst cur'. destruct (Textwrap.drop_trailing_blank []); discriminate.
    + right. left. rewrite D, len_concat_app in B.
      pose proof (len_nonneg (concat [b])). lia.
    + left. subst cur'.
      destruct (Textwrap.drop_trailing_blank [c]) as [|y [|z t]];
        [reflexivity | discriminate | discriminate].
Qed.

(** One pass of the loop: some chunks are taken from the front, a blank
    one may be dropped before and after them, and the line made of the
    others fits unless it is a single chunk. *)
Lemma wrap_step_spec (c0 : str) (rest0 lines chunks' lines' : list str) :
  Textwrap.wrap_step width initial_indent subsequent_indent c0 rest0 lines
  = (chunks', lines') ->
  exists pre kept post,
    c0 :: rest0 = pre ++ kept ++ post ++ chunks'
    /\ Forall (fun c => Textwrap.is_blank c = true) pre
    /\ Forall (fun c => Textwrap.is_blank c = true) post
    /\ length chunks' < length (c0 :: rest0)
    /\ lines' = match kept with
                | [] => lines
                | _ =>
                    lines
                    ++ [indent_for initial_indent subsequent_indent lines
                        ++ concat kept]
                end
    /\ (kept = []
        \/ (len (concat kept)
            <= width
               - len (indent_for initial_indent subsequent_indent lines))%Z
        \/ exists c, kept = [c] /\ Textwrap.is_blank c = false).
Proof.
  unfold Textwrap.wrap_step.
  fold (indent_for initial_indent subsequent_indent lines).
  set (w := (width
             - len (indent_for initial_indent subsequent_indent lines))%Z).
  set (started := match lines with [] => false | _ => true end).
  set (chunks1 := if Textwrap.is_blank c0 && started then rest0
                  else c0 :: rest0).
  assert (P : exists pre, c0 :: rest0 = pre ++ chunks1
                          /\ Forall (fun c => Textwrap.is_blank c = true) pre
                          /\ (pre = [] -> chunks1 <> [])).
  { unfold chunks1. destruct (Textwrap.is_blank c0 && started) eqn:D.
    - exists [c0]. apply andb_true_iff in D as [D _].
      repeat split; [now constructor | discriminate].
    - exists []. repeat split; [constructor | discriminate]. }
  destruct P as (pre & Epre & Bpre & Hpre).
  destruct (let (cur, chunks2) := Textwrap.fill_line w 0 chunks1 in
            Textwrap.take_long_word w chunks2 cur)
    as [cur' chunks3] eqn:T.
  destruct (take_line_spec _ _ _ _ T) as (Ecur & Ncur & Bcur).
  destruct (Textwrap.fill_line w 0 chunks1) as [cur chunks2].
  rewrite T.
  destruct (drop_spec w _ Bcur) as (post & Epost & Bpost & Bkept).
  set (kept := Textwrap.drop_trailing_blank cur') in *.
  intros H. exists pre, kept, post.
  assert (chunks' = chunks3 /\
          lines' = match kept with
                   | [] => lines
                   | _ =>
                       lines
                       ++ [indent_for initial_indent subsequent_indent lines
                           ++ concat kept]
                   end) as [-> ->].
  { destruct kept; inversion H; auto. }
  split; [now rewrite Epre, Ecur, Epost, <- !app_assoc|].
  split; [exact Bpre|]. split; [exact Bpost|]. split; [|auto].
  rewrite Epre, Ecur, !length_app. destruct pre; simpl; [|lia].
  specialize (Ncur (Hpre eq_refl)). destruct cur'; [congruence | simpl; lia].
Qed.

Lemma blank_words (cs : list str) :
  Forall (fun c => Textwrap.is_blank c = true) cs -> flat_map words cs = [].
Proof.
  induction 1 as [|c cs B _ IH]; [reflexivity|]. simpl.
  apply is_blank_all_space in B. now rewrite (words_all_space _ B), IH.
Qed.

(** The lines of the result that are new either fit in [width] or hold
    one unbreakable token after the indent. *)
Lemma wrap_loop_width (fuel : nat) :
  forall chunks lines l,
    well_chunked chunks = true ->
    In l (Textwrap.wrap_loop width initial_indent subsequent_indent
            fuel chunks lines) ->
    In l lines
    \/ (len l <= width)%Z
    \/ exists tok, unbreakable tok
                   /\ (l = initial_indent ++ tok
                       \/ l = subsequent_indent ++ tok).
Proof.
  induction fuel as [|fuel IH]; intros chunks lines l W H; [now left|].
  destruct chunks as [|c0 rest0]; [now left|]. simpl in H.
  destruct (Textwrap.wrap_step width initial_indent subsequent_indent
              c0 rest0 lines) as [chunks' lines'] eqn:S.
  destruct (wrap_step_spec _ _ _ _ _ S)
    as (pre & kept & post & E & _ & _ & _ & L & B).
  assert (W' : well_chunked chunks' = true).
  { rewrite E in W. apply well_chunked_app in W as [_ W].
    apply well_chunked_app in W as [_ W].
    now apply well_chunked_app in W as [_ W]. }
  destruct (IH _ _ _ W' H) as [I|P]; [|now right].
  destruct kept as [|k kept]; [left; now subst|].
  rewrite L in I. apply in_app_or in I as [I|[<-|[]]]; [now left|].
  right. destruct B as [B|[B|(c & B & Bc)]]; [discriminate | |].
  - left. rewrite len_app. lia.
  - right. inversion B; subst. exists c. split.
    + assert (I : In c (c0 :: rest0)).
      { rewrite E. apply in_or_app. right. now left. }
      destruct (well_chunked_In _ _ W I) as [k K].
      exact (not_blank_token _ _ K Bc).
    + simpl concat. rewrite app_nil_r. unfold indent_for.
      destruct lines; auto.
Qed.

(** The result is the lines so far followed by the texts of the new
    lines behind their indents, and the texts hold the tokens of the
    chunks in order. *)
Lemma wrap_loop_words (fuel : nat) :
  forall chunks lines,
    length chunks <= fuel ->
    well_chunked chunks = true ->
    exists texts,
      Textwrap.wrap_loop width initial_indent subsequent_indent
        fuel chunks lines
      = lines ++ match lines with
                 | [] => prefixed initial_indent subsequent_indent texts
                 | _ => map (app subsequent_indent) texts
                 end
      /\ flat_map words texts = flat_map words chunks.
Proof.
  induction fuel as [|fuel IH]; intros chunks lines F W.
  - destruct chunks; [|simpl in F; lia]. exists []. simpl.
    destruct lines; simpl; now rewrite ?app_nil_r.
  - destruct chunks as [|c0 rest0].
    + exists []. simpl. destruct lines; simpl; now rewrite ?app_nil_r.
    + simpl Textwrap.wrap_loop.
      destruct (Textwrap.wrap_step width initial_indent subsequent_indent
                  c0 rest0 lines) as [chunks' lines'] eqn:S.
      destruct (wrap_step_spec _ _ _ _ _ S)
        as (pre & kept & post & E & Bpre & Bpost & Len & L & _).
      assert (W' : well_chunked chunks' = true /\ well_chunked kept = true).
      { rewrite E in W. apply well_chunked_app in W as [_ W].
        apply well_chunked_app in W as [Wk W].
        now apply well_chunked_app in W as [_ W]. }
      destruct W' as [W' Wk].
      destruct (IH chunks' lines') as (texts & R & T);
        [simpl in *; lia | exact W' |].
      assert (Tk : flat_map words (c0 :: rest0)
                   = flat_map words kept ++ flat_map words chunks').
      { rewrite E, !flat_map_app, (blank_words _ Bpre), (blank_words _ Bpost).
        reflexivity. }
      rewrite R, Tk. destruct kept as [|k kept].
      * subst lines'. exists texts. split; [reflexivity | exact T].
      * exists (concat (k :: kept) :: texts). subst lines'. split.
        -- destruct lines as [|l0 lines]; simpl; [reflexivity|].
           now rewrite <- app_assoc.
        -- change (flat_map words (concat (k :: kept) :: texts))
             with (words (concat (k :: kept)) ++ flat_map words texts).
           now rewrite T, (words_concat _ Wk).
Qed.

Lemma wrap_words (text : str) (new : list str) :
  Textwrap.wrap width initial_indent subsequent_indent text = Return new ->
  exists texts,
    new = prefixed initial_indent subsequent_indent texts
    /\ flat_map words texts = words text.
Proof.
  unfold Textwrap.wrap, Textwrap.wrap_chunks.
  destruct (width <=? 0)%Z; [discriminate|]. intros H. inversion H.
  destruct (wrap_loop_words _ _ [] (le_n _)
              (split_well_chunked (Textwrap.munge_whitespace text)))
    as (texts & R & T).
  exists texts. split; [exact R|].
  now rewrite T, <- words_concat, concat_split, words_munge
    by apply split_well_chunked.
Qed.

Lemma wrap_width (text : str) (new : list str) (l : str) :
  Textwrap.wrap width initial_indent subsequent_indent text = Return new ->
  In l new ->
  (len l <= width)%Z
  \/ exists tok, unbreakable tok
                 /\ (l = initial_indent ++ tok \/ l = subsequent_indent ++ tok).
Proof.
  unfold Textwrap.wrap, Textwrap.wrap_chunks.
  destruct (width <=? 0)%Z; [discriminate|]. intros H I. inversion H; subst.
  destruct (wrap_loop_width _ _ [] _
              (split_well_chunked (Textwrap.munge_whitespace text)) I)
    as [[]|P]; exact P.
Qed.

Lemma wrap_returns (text : str) :
  (0 < width)%Z ->
  exists new,
    Textwrap.wrap width initial_indent subsequent_indent text = Return new.
Proof.
  intros H. unfold Textwrap.wrap, Textwrap.wrap_chunks.
  destruct (width <=? 0)%Z eqn:E; [apply Z.leb_le in E; lia | eauto].
Qed.

Lemma wrap_raises (text : str) (e : exn) :
  Textwrap.wrap width initial_indent subsequent_indent text = Raise e ->
  (width <= 0)%Z.
Proof.
  unfold Textwrap.wrap, Textwrap.wrap_chunks.
  destruct (width <=? 0)%Z eqn:E; [intros _; now apply Z.leb_le in E|].
  discriminate.
Qed.

(** The bound of [wrap_chunks] is never exhausted: more passes change
    nothing. *)
Lemma wrap_loop_fuel (fuel : nat) :
  forall chunks lines extra,
    length chunks <= fuel ->
    Textwrap.wrap_loop width initial_indent subsequent_indent
      (fuel + extra) chunks lines
    = Textwrap.wrap_loop width initial_indent subsequent_indent
        fuel chunks lines.
Proof.
  induction fuel as [|fuel IH]; intros chunks lines extra F.
  - destruct chunks; [|simpl in F; lia]. now destruct extra.
  - destruct chunks as [|c0 rest0]; [reflexivity|]. simpl.
    destruct (Textwrap.wrap_step width initial_indent subsequent_indent
                c0 rest0 lines) as [chunks' lines'] eqn:S.
    destruct (wrap_step_spec _ _ _ _ _ S)
      as (_ & _ & _ & _ & _ & _ & Len & _).
    apply IH. simpl in *. lia.
Qed.

End WrapFacts.

(** ** The indent and the list marker *)

Lemma marker_head_spec (s h t : str) :
  Re.marker_head s = Some (h, t) -> s = h ++ t.
Proof.
  unfold Re.marker_head. destruct s as [|c s]; [discriminate|].
  destruct (Re.is_bullet c); [intros H; now inversion H|].
  destruct (Re.is_digit19 c).
  - destruct s as [|d s]; [discriminate|]. destruct (Re.is_digit d).
    + destruct s as [|p s]; [discriminate|].
      destruct (Re.is_dot_paren p); [|discriminate].
      intros H; now inversion H.
    + destruct (Re.is_dot_paren d); [|discriminate].
      intros H; now inversion H.
  - destruct (Re.is_letter c); [|discriminate].
    destruct s as [|p s]; [discriminate|].
    destruct (Re.is_dot_paren p); [|discriminate].
    intros H; now inversion H.
Qed.

Lemma list_marker_spec (s m r : str) :
  Re.list_marker s = Some (m, r) -> s = m ++ r /\ lstrip r = r.
Proof.
  unfold Re.list_marker.
  destruct (Re.marker_head s) as [[h t]|] eqn:H; [|discriminate].
  apply marker_head_spec in H. subst s.
  destruct (Re.spaces t) as [w r'] eqn:S.
  apply spaces_spec in S as (E & _ & L & _).
  destruct w as [|x w]; [discriminate|]. intros M. inversion M; subst.
  split; [now rewrite <- app_assoc | exact L].
Qed.

(** The match splits the line in indent, marker and rest; the indent is
    whitespace, with one [#] inside in comment mode, and the rest does
    not start with whitespace. *)
Lemma match_indent_spec (is_docstring : bool) (line indent marker rest : str) :
  Re.match_indent is_docstring line = Some (indent, marker, rest) ->
  line = indent ++ marker ++ rest
  /\ lstrip (marker ++ rest) = marker ++ rest
  /\ lstrip rest = rest
  /\ (if is_docstring then all_space indent = true
      else exists ws1 ws2,
          indent = ws1 ++ [35%N] ++ ws2
          /\ all_space ws1 = true /\ all_space ws2 = true).
Proof.
  unfold Re.match_indent. destruct (Re.spaces line) as [w r] eqn:S.
  apply spaces_spec in S as (E & A & L & _).
  assert (M : forall ind r0,
             line = ind ++ r0 -> lstrip r0 = r0 ->
             match Re.list_marker r0 with
             | Some (m, rest') => Some (ind, m, rest')
             | None => Some (ind, [], r0)
             end = Some (indent, marker, rest) ->
             ind = indent /\ line = indent ++ marker ++ rest
             /\ lstrip (marker ++ rest) = marker ++ rest
             /\ lstrip rest = rest).
  { intros ind r0 E0 L0.
    destruct (Re.list_marker r0) as [[m rest']|] eqn:LM; intros H;
      inversion H; subst; [|auto].
    apply list_marker_spec in LM as (-> & L'). auto. }
  destruct is_docstring.
  - intros H. destruct (M _ _ E L H) as (<- & ? & ? & ?). auto.
  - destruct r as [|c r1]; [discriminate|].
    destruct (c =? 35)%N eqn:C; [|discriminate].
    apply N.eqb_eq in C. subst c.
    destruct (Re.spaces r1) as [w2 r2] eqn:S2.
    apply spaces_spec in S2 as (E2 & A2 & L2 & _). intros H.
    destruct (M (w ++ 35%N :: w2) r2) as (<- & ? & ? & ?); auto.
    + rewrite E, E2, <- app_assoc. reflexivity.
    + repeat split; auto. exists w, w2. auto.
Qed.

Lemma match_indent_docstring (line : str) :
  exists indent marker rest,
    Re.match_indent true line = Some (indent, marker, rest).
Proof.
  unfold Re.match_indent. destruct (Re.spaces line) as [w r].
  destruct (Re.list_marker r) as [[m rest']|]; eauto.
Qed.

Lemma match_indent_comment (line : str) :
  is_comment_line line = true ->
  exists indent marker rest,
    Re.match_indent false line = Some (indent, marker, rest).
Proof.
  unfold is_comment_line, Re.match_indent. rewrite <- spaces_lstrip.
  destruct (Re.spaces line) as [w r]. simpl snd.
  destruct r as [|c r1]; [intros D; discriminate D|].
  change (startswith (c :: r1) [35%N]) with ((35 =? c)%N && true).
  destruct (35 =? c)%N eqn:C; [intros _ | intros D; discriminate D].
  rewrite N.eqb_sym, C. destruct (Re.spaces r1) as [w2 r2].
  destruct (Re.list_marker r2) as [[m rest']|]; eauto.
Qed.

(** ** The paragraph *)

Lemma paragraph_extent_spec (is_docstring : bool) (prefix : str)
  (following : list str) :
  paragraph_extent is_docstring prefix following <= length following
  /\ Forall (fun l => startswith l prefix = true)
       (firstn (paragraph_extent is_docstring prefix following) following).
Proof.
  induction following as [|next following [IH1 IH2]]; simpl.
  - split; [lia | constructor].
  - destruct (startswith next prefix) eqn:P;
      [|split; [lia | constructor]].
    destruct (rstrip (skipn (length prefix) next));
      [split; [lia | constructor]|].
    repeat match goal with
           | |- context [if ?b then _ else _] => destruct b
           end; simpl; split; try lia; repeat constructor; auto.
Qed.

Lemma reflow_paragraph_shift (max_length : Z) (is_docstring : bool)
  (done following : list str) (cur : str) :
  reflow_paragraph max_length is_docstring (done ++ cur :: following)
    (length done) cur
  = match reflow_paragraph max_length is_docstring (cur :: following) 0 cur
    with
    | Return (end_line, new_lines) =>
        Return (length done + end_line, new_lines)
    | Raise e => Raise e
    end.
Proof.
  unfold reflow_paragraph.
  destruct (Re.match_indent is_docstring cur) as [[[indent marker] r0]|];
    [|reflexivity].
  assert (S1 : skipn (length done + 1) (done ++ cur :: following) = following).
  { rewrite skipn_app, skipn_all2 by lia.
    replace (length done + 1 - length done) with 1 by lia. reflexivity. }
  assert (S2 : forall k,
             slice (done ++ cur :: following) (length done)
               (length done + 1 + k)
             = slice (cur :: following) 0 (0 + 1 + k)).
  { intros k. unfold slice. rewrite skipn_app, skipn_all2 by lia.
    replace (length done - length done) with 0 by lia.
    replace (length done + 1 + k - length done) with (0 + 1 + k - 0) by lia.
    reflexivity. }
  rewrite S1. simpl skipn.
  destruct (endswith (rstrip cur) colon).
  - replace (length done + 1) with (length done + 1 + 0) by lia.
    replace (0 + 1) with (0 + 1 + 0) by lia. rewrite S2.
    destruct (Textwrap.wrap _ _ _ _); [|reflexivity].
    do 2 f_equal. lia.
  - rewrite S2. destruct (Textwrap.wrap _ _ _ _); [|reflexivity].
    do 2 f_equal. lia.
Qed.

(** What a pass of the loop at an overlong line computes. *)
Lemma reflow_paragraph_spec (max_length : Z) (is_docstring : bool)
  (cur : str) (following : list str) (end_line : nat) (new_lines : list str) :
  reflow_paragraph max_length is_docstring (cur :: following) 0 cur
  = Return (end_line, new_lines) ->
  exists indent marker r0,
    Re.match_indent is_docstring cur = Some (indent, marker, r0)
    /\ let prefix := indent ++ repeat 32%N (length marker) in
       let k := paragraph_lines is_docstring cur prefix following in
       end_line = 1 + k
       /\ k <= length following
       /\ Forall (fun l => startswith l prefix = true) (firstn k following)
       /\ Textwrap.wrap max_length (indent ++ marker) prefix
            (join newline
               (map (skipn (length prefix)) (cur :: firstn k following)))
          = Return new_lines.
Proof.
  unfold reflow_paragraph, paragraph_lines.
  destruct (Re.match_indent is_docstring cur) as [[[indent marker] r0]|];
    [|discriminate].
  intros H. exists indent, marker, r0. split; [reflexivity|].
  simpl skipn in H. cbv zeta.
  set (prefix := indent ++ repeat 32%N (length marker)) in *.
  destruct (paragraph_extent_spec is_docstring prefix following) as [Le Pre].
  destruct (endswith (rstrip cur) colon).
  - change (slice (cur :: following) 0 (0 + 1)) with [cur] in H.
    destruct (Textwrap.wrap _ _ _ _) eqn:W; [|discriminate].
    inversion H; subst. repeat split; [lia | constructor].
  - unfold slice in H.
    replace (0 + 1 + paragraph_extent is_docstring prefix following - 0)
      with (S (paragraph_extent is_docstring prefix following)) in H by lia.
    simpl skipn in H. simpl firstn in H.
    destruct (Textwrap.wrap _ _ _ _) eqn:W; [|discriminate].
    inversion H; subst. repeat split; auto.
Qed.

(** ** The loop of [rewrap_text] *)

Lemma skipn_In' {A} (n : nat) (l : list A) (x : A) :
  In x (skipn n l) -> In x l.
Proof.
  intros I. rewrite <- (firstn_skipn n l). apply in_or_app. now right.
Qed.

Section RewrapFacts.

Variables (max_length : Z) (is_docstring : bool).

Lemma left_alone_spec (l : str) :
  left_alone max_length l = true <->
  (len l <= max_length)%Z \/ Re.noqa_search l = true.
Proof.
  unfold left_alone. rewrite orb_true_iff, Z.leb_le. reflexivity.
Qed.

Lemma reflow_paragraph_end (cur : str) (following : list str)
  (end_line : nat) (new_lines : list str) :
  reflow_paragraph max_length is_docstring (cur :: following) 0 cur
  = Return (end_line, new_lines) ->
  1 <= end_line.
Proof.
  intros H. apply reflow_paragraph_spec in H as (? & ? & ? & _ & H).
  cbv zeta in H. lia.
Qed.

(** The loop on [lines] from [lineno] is the loop on the lines that
    remain: the lines before [lineno] are not read again. *)
Lemma rewrap_loop_rest (fuel : nat) :
  forall done rest modified,
    rewrap_loop max_length is_docstring fuel (done ++ rest) (length done)
      modified
    = let (out, r) := rewrap_rest max_length is_docstring fuel rest modified
      in (done ++ out, r).
Proof.
  induction fuel as [|fuel IH]; intros done rest modified.
  - simpl. now destruct (nth_error (done ++ rest) (length done)).
  - simpl. rewrite nth_error_app2, Nat.sub_diag by lia.
    destruct rest as [|cur following]; [reflexivity|].
    change (nth_error (cur :: following) 0) with (Some cur). cbv beta iota.
    destruct (left_alone max_length cur).
    + replace (done ++ cur :: following) with ((done ++ [cur]) ++ following)
        by now rewrite <- app_assoc.
      replace (length done + 1) with (length (done ++ [cur]))
        by (rewrite length_app; reflexivity).
      rewrite IH.
      destruct (rewrap_rest max_length is_docstring fuel following modified).
      now rewrite <- app_assoc.
    + rewrite reflow_paragraph_shift.
      destruct (reflow_paragraph max_length is_docstring (cur :: following)
                  0 cur) as [[end_line new_lines]|e] eqn:R; [|reflexivity].
      apply reflow_paragraph_end in R.
      assert (S : splice (done ++ cur :: following) (length done)
                    (length done + end_line) new_lines
                  = (done ++ new_lines) ++ skipn end_line (cur :: following)).
      { unfold splice. rewrite firstn_app, firstn_all2, Nat.sub_diag by lia.
        rewrite Nat.max_r, skipn_app, skipn_all2 by lia.
        replace (length done + end_line - length done) with end_line by lia.
        simpl. now rewrite app_nil_r, <- app_assoc. }
      rewrite S.
      replace (length done + length new_lines)
        with (length (done ++ new_lines)) by (rewrite length_app; reflexivity).
      rewrite IH.
      destruct (rewrap_rest max_length is_docstring fuel
                  (skipn end_line (cur :: following)) true).
      now rewrite <- app_assoc.
Qed.

Lemma rewrap_text_rest (lines : list str) :
  rewrap_text max_length is_docstring lines
  = rewrap_rest max_length is_docstring (length lines) lines false.
Proof.
  unfold rewrap_text.
  change (rewrap_loop max_length is_docstring (length lines) lines 0 false)
    with (rewrap_loop max_length is_docstring (length lines) ([] ++ lines)
            (length (@nil str)) false).
  rewrite rewrap_loop_rest.
  now destruct (rewrap_rest _ _ _ _ _).
Qed.

(** The bound of [rewrap_text] is never exhausted: more passes change
    nothing. *)
Lemma rewrap_rest_fuel (fuel : nat) :
  forall rest modified extra,
    length rest <= fuel ->
    rewrap_rest max_length is_docstring (fuel + extra) rest modified
    = rewrap_rest max_length is_docstring fuel rest modified.
Proof.
  induction fuel as [|fuel IH]; intros rest modified extra F.
  - destruct rest; [|simpl in F; lia]. now destruct extra.
  - destruct rest as [|cur following]; [reflexivity|]. simpl in *.
    destruct (left_alone max_length cur).
    + rewrite IH by lia. reflexivity.
    + destruct (reflow_paragraph max_length is_docstring (cur :: following)
                  0 cur) as [[end_line new_lines]|e] eqn:R; [|reflexivity].
      apply reflow_paragraph_end in R. rewrite IH; [reflexivity|].
      destruct end_line; [lia|]. simpl.
      pose proof (length_skipn end_line following). lia.
Qed.

Lemma rewrap_loop_fuel (lines : list str) (extra : nat) :
  rewrap_loop max_length is_docstring (length lines + extra) lines 0 false
  = rewrap_text max_length is_docstring lines.
Proof.
  rewrite rewrap_text_rest.
  change (rewrap_loop max_length is_docstring (length lines + extra) lines 0
            false)
    with (rewrap_loop max_length is_docstring (length lines + extra)
            ([] ++ lines) (length (@nil str)) false).
  rewrite rewrap_loop_rest, rewrap_rest_fuel by lia.
  now destruct (rewrap_rest _ _ _ _ _).
Qed.

Lemma token_line_more (lines lines' : list str) (l : str) :
  (forall x, In x lines -> In x lines') ->
  token_line is_docstring lines l -> token_line is_docstring lines' l.
Proof.
  intros Sub (orig & indent & marker & rest & tok & I & H).
  exists orig, indent, marker, rest, tok. split; auto.
Qed.

Lemma rewrap_rest_width (fuel : nat) :
  forall rest modified out b,
    length rest <= fuel ->
    rewrap_rest max_length is_docstring fuel rest modified = (out, Return b) ->
    Forall (width_ok max_length is_docstring rest) out.
Proof.
  induction fuel as [|fuel IH]; intros rest modified out b F H.
  - destruct rest; [|simpl in F; lia]. inversion H. constructor.
  - destruct rest as [|cur following]; [inversion H; constructor|].
    simpl in H, F. destruct (left_alone max_length cur) eqn:A.
    + destruct (rewrap_rest max_length is_docstring fuel following modified)
        as [out' r] eqn:R.
      inversion H; subst. constructor.
      * apply left_alone_spec in A. unfold width_ok. tauto.
      * eapply Forall_impl; [|eapply IH; [|exact R]; lia].
        intros l [?|[?|T]]; unfold width_ok; auto.
        right. right. eapply token_line_more; [|exact T]. now right.
    + destruct (reflow_paragraph max_length is_docstring (cur :: following)
                  0 cur) as [[end_line new_lines]|e] eqn:P; [|discriminate].
      destruct (rewrap_rest max_length is_docstring fuel
                  (skipn end_line (cur :: following)) true)
        as [out' r] eqn:R.
      inversion H; subst.
      pose proof (reflow_paragraph_end _ _ _ _ P) as E.
      apply reflow_paragraph_spec in P
        as (indent & marker & r0 & M & _ & _ & _ & W).
      apply Forall_app. split.
      * apply Forall_forall. intros l I.
        destruct (wrap_width _ _ _ _ _ l W I) as [?|(tok & U & T)];
          [left; assumption|].
        right. right. exists cur, indent, marker, r0, tok.
        split; [now left|]. auto.
      * eapply Forall_impl; [|eapply IH; [|exact R]].
        -- intros l [?|[?|T]]; unfold width_ok; auto.
           right. right. eapply token_line_more; [|exact T].
           intros x. apply (skipn_In' end_line (cur :: following)).
        -- destruct end_line; [lia|]. simpl.
           pose proof (length_skipn end_line following). lia.
Qed.

Lemma rewrap_rest_returns (fuel : nat) :
  forall rest modified,
    (0 < max_length)%Z ->
    is_docstring = true \/ Forall (fun l => is_comment_line l = true) rest ->
    exists out b,
      rewrap_rest max_length is_docstring fuel rest modified
      = (out, Return b).
Proof.
  induction fuel as [|fuel IH]; intros rest modified Pos Shape; [simpl; eauto|].
  destruct rest as [|cur following]; [simpl; eauto|]. simpl.
  assert (Shape' : forall k,
             is_docstring = true
             \/ Forall (fun l => is_comment_line l = true)
                  (skipn k (cur :: following))).
  { intros k. destruct Shape as [?|S]; [now left | right].
    apply Forall_forall. intros x I.
    apply (proj1 (Forall_forall _ _) S). revert I. apply skipn_In'. }
  destruct (left_alone max_length cur).
  - destruct (IH following modified Pos (Shape' 1)) as (out & b & ->). eauto.
  - assert (M : exists indent marker r0,
               Re.match_indent is_docstring cur = Some (indent, marker, r0)).
    { destruct Shape as [->|S]; [apply match_indent_docstring|].
      inversion S; subst.
      destruct is_docstring;
        [apply match_indent_docstring | now apply match_indent_comment]. }
    destruct M as (indent & marker & r0 & M).
    unfold reflow_paragraph at 1. rewrite M.
    match goal with
    | |- context [Textwrap.wrap ?w ?a ?b ?t] =>
        destruct (wrap_returns w a b t Pos) as [new ->]
    end.
    match goal with
    | |- context [rewrap_rest _ _ fuel ?r true] =>
        destruct (IH r true Pos) as (out & b & ->)
    end; [|eauto].
    match goal with
    | |- context [skipn ?k (cur :: following)] => apply (Shape' k)
    end.
Qed.

(** Lines that are left alone stay as they are, and nothing is reported
    as modified. *)
Lemma rewrap_rest_noop (fuel : nat) :
  forall rest modified,
    Forall (fun l => left_alone max_length l = true) rest ->
    rewrap_rest max_length is_docstring fuel rest modified
    = (rest, Return modified).
Proof.
  induction fuel as [|fuel IH]; intros rest modified A; [reflexivity|].
  destruct rest as [|cur following]; [reflexivity|].
  inversion A; subst. simpl. rewrite H1, IH by assumption. reflexivity.
Qed.

End RewrapFacts.

(** ** Quotes *)

Lemma skipn_app_exact (p s : str) : skipn (length p) (p ++ s) = s.
Proof. induction p as [|c p IH]; [reflexivity | exact IH]. Qed.

Lemma drop_end_app (s d : str) : drop_end (length d) (s ++ d) = s.
Proof.
  unfold drop_end. rewrite length_app.
  replace (length s + length d - length d) with (length s) by lia.
  rewrite firstn_app, Nat.sub_diag, firstn_all. simpl. apply app_nil_r.
Qed.

Lemma rest_of_line_plain (s : str) :
  has_newline s = false -> rest_of_line s = Some s.
Proof. unfold rest_of_line. now intros ->. Qed.

(** A delimiter, and what follows it when it is a single character: the
    text must not go on with two more double quotes, nor with a single
    quote after one single quote. *)
Lemma quote_body_triple_double (x : str) :
  Re.quote_body (triple_double ++ x) = Some (triple_double, x).
Proof. reflexivity. Qed.



Lemma match_quote_raw (raw d x : str) :
  raw = [] \/ raw = letter_r ->
  Re.quote_body (d ++ x) = Some (d, x) ->
  Re.match_quote (raw ++ d ++ x) = Some (raw ++ d, x).
Proof.
  intros [-> | ->] Q.
  - unfold Re.match_quote. simpl app.
    destruct (startswith (d ++ x) letter_r) eqn:R; [|exact Q].
    exfalso. destruct d as [|c d].
    + simpl in *. unfold Re.quote_body in Q.
      repeat match type of Q with
             | (if ?b then _ else _) = _ => destruct b eqn:?
             end; inversion Q.
    + change (startswith ((c :: d) ++ x) letter_r)
        with ((114 =? c)%N && true) in R.
      apply andb_true_iff in R as [R _]. apply N.eqb_eq in R.
      subst c. unfold Re.quote_body in Q. simpl in Q. discriminate.
  - unfold Re.match_quote. simpl. now rewrite Q.
Qed.

Lemma lstrip_quote (raw d x : str) :
  raw = [] \/ raw = letter_r ->
  Re.quote_body (d ++ x) = Some (d, x) ->
  lstrip (raw ++ d ++ x) = raw ++ d ++ x.
Proof.
  intros [-> | ->] Q; [|reflexivity]. simpl app.
  unfold Re.quote_body in Q. destruct (d ++ x) as [|c t]; [reflexivity|].
  cbn [startswith triple_double triple_single] in Q. apply lstrip_no_space.
  destruct (isspace c) eqn:S; [|reflexivity]. exfalso.
  assert (N34 : (34 =? c)%N = false).
  { destruct (34 =? c)%N eqn:E; [|reflexivity].
    apply N.eqb_eq in E. subst. discriminate. }
  assert (N39 : (39 =? c)%N = false).
  { destruct (39 =? c)%N eqn:E; [|reflexivity].
    apply N.eqb_eq in E. subst. discriminate. }
  rewrite N34, N39 in Q. discriminate.
Qed.

Lemma match_docstring_start_spec (indent raw d content : str) :
  all_space indent = true ->
  raw = [] \/ raw = letter_r ->
  Re.quote_body (d ++ content) = Some (d, content) ->
  has_newline content = false ->
  match_docstring_start (indent ++ raw ++ d ++ content)
  = Some (indent, raw ++ d, content).
Proof.
  intros A R Q N. unfold match_docstring_start.
  rewrite (spaces_app indent (raw ++ d ++ content) A (lstrip_quote _ _ _ R Q)).
  rewrite (match_quote_raw _ _ _ R Q).
  now rewrite (rest_of_line_plain _ N).
Qed.

Lemma match_opening_quote_spec (indent raw d content : str) :
  all_space indent = true ->
  raw = [] \/ raw = letter_r ->
  Re.quote_body (d ++ content) = Some (d, content) ->
  match_opening_quote (indent ++ raw ++ d ++ content) = Some (raw ++ d).
Proof.
  intros A R Q. unfold match_opening_quote.
  rewrite (spaces_app indent (raw ++ d ++ content) A (lstrip_quote _ _ _ R Q)).
  simpl snd. now rewrite (match_quote_raw _ _ _ R Q).
Qed.

(** The closing delimiter at the end of a line, before whitespace. *)
Lemma rstrip_closed (body d trail : str) :
  d = triple_double \/ d = triple_single \/ d = [34%N] ->
  all_space trail = true ->
  rstrip (body ++ d ++ trail) = body ++ d.
Proof.
  intros D A. rewrite app_assoc, rstrip_app_space by exact A.
  destruct D as [->|[-> | ->]].
  - change triple_double with ([34; 34]%N ++ [34%N]).
    now rewrite app_assoc, rstrip_no_space.
  - change triple_single with ([39; 39]%N ++ [39%N]).
    now rewrite app_assoc, rstrip_no_space.
  - now rewrite rstrip_no_space.
Qed.

(** ** The weight of a text *)

Lemma text_weight_cons (c : char) (s : str) :
  text_weight (c :: s) = char_weight c + text_weight s.
Proof. reflexivity. Qed.

Lemma text_weight_app (a b : str) :
  text_weight (a ++ b) = text_weight a + text_weight b.
Proof. unfold text_weight. now rewrite map_app, list_sum_app. Qed.

Lemma text_weight_length (s : str) : length s <= text_weight s.
Proof.
  induction s as [|c s IH]; [apply Nat.le_refl|].
  unfold text_weight in *. simpl. unfold char_weight at 1.
  destruct (c =? 9)%N; lia.
Qed.

Lemma text_weight_lstrip (s : str) : text_weight (lstrip s) <= text_weight s.
Proof.
  induction s as [|c s IH]; [apply Nat.le_refl|]. simpl.
  destruct (isspace c); [|apply Nat.le_refl].
  unfold text_weight in *. simpl. lia.
Qed.

Lemma text_weight_spaces (n : nat) : text_weight (repeat 32%N n) = n.
Proof.
  induction n as [|n IH]; [reflexivity|].
  unfold text_weight in *. simpl. now rewrite IH.
Qed.

Lemma text_weight_expandtabs (s : str) :
  forall col, text_weight (expandtabs_from col s) <= text_weight s.
Proof.
  induction s as [|c s IH]; intros col; [apply Nat.le_refl|].
  rewrite expandtabs_cons.
  change (text_weight (c :: s)) with (char_weight c + text_weight s).
  unfold char_weight. destruct (c =? 9)%N eqn:T.
  - rewrite text_weight_app, text_weight_spaces.
    specialize (IH (col + (8 - col mod 8))). lia.
  - destruct ((c =? 10) || (c =? 13))%N.
    + change (text_weight (c :: expandtabs_from 0 s))
        with (char_weight c + text_weight (expandtabs_from 0 s)).
      unfold char_weight. rewrite T. specialize (IH 0). lia.
    + change (text_weight (c :: expandtabs_from (S col) s))
        with (char_weight c + text_weight (expandtabs_from (S col) s)).
      unfold char_weight. rewrite T. specialize (IH (S col)). lia.
Qed.

Lemma text_weight_munge (s : str) :
  text_weight (Textwrap.munge_whitespace s) <= text_weight s.
Proof.
  unfold Textwrap.munge_whitespace, expandtabs.
  apply Nat.le_trans with (text_weight (expandtabs_from 0 s));
    [|apply text_weight_expandtabs].
  induction (expandtabs_from 0 s) as [|c t IH]; [apply Nat.le_refl|].
  cbn [map]. rewrite !text_weight_cons.
  assert (char_weight (if Textwrap.is_ws c then 32%N else c)
          <= char_weight c).
  { destruct (Textwrap.is_ws c); [|apply Nat.le_refl].
    unfold char_weight. simpl. destruct (c =? 9)%N; lia. }
  apply Nat.add_le_mono; [exact H | exact IH].
Qed.

Lemma text_weight_concat (cs : list str) :
  list_sum (map text_weight cs) = text_weight (concat cs).
Proof.
  induction cs as [|c cs IH]; [reflexivity|]. simpl.
  now rewrite text_weight_app, IH.
Qed.

Lemma text_weight_join (t : str) (ts : list str) :
  S (text_weight (join newline (t :: ts)))
  = list_sum (map (fun x => S (text_weight x)) (t :: ts)).
Proof.
  revert t. induction ts as [|t' ts IH]; intros t.
  - simpl. lia.
  - change (join newline (t :: t' :: ts))
      with (t ++ newline ++ join newline (t' :: ts)).
    rewrite !text_weight_app.
    change (list_sum (map (fun x => S (text_weight x)) (t :: t' :: ts)))
      with (S (text_weight t)
            + list_sum (map (fun x => S (text_weight x)) (t' :: ts))).
    rewrite <- IH. change (text_weight newline) with 1. lia.
Qed.

Lemma total_weight_app (a b : list str) :
  total_weight (a ++ b) = total_weight a + total_weight b.
Proof. unfold total_weight. now rewrite map_app, list_sum_app. Qed.

Lemma total_weight_length (ls : list str) : length ls <= total_weight ls.
Proof.
  induction ls as [|l ls IH]; [apply Nat.le_refl|].
  unfold total_weight, line_weight in *. simpl. lia.
Qed.

Lemma total_weight_skipn (n : nat) (ls : list str) :
  total_weight (skipn n ls) <= total_weight ls.
Proof.
  rewrite <- (firstn_skipn n ls) at 2. rewrite total_weight_app. lia.
Qed.

(** ** What [_wrap_chunks] adds: at most one line *)

Lemma kind_weight (c : str) (k : bool) :
  kind c = Some k -> 1 <= text_weight c.
Proof.
  destruct c as [|x t]; [discriminate|]. intros _.
  rewrite text_weight_cons. unfold char_weight. destruct (x =? 9)%N; lia.
Qed.

Lemma kind_not_blank (c : str) (k : bool) :
  kind c = Some k -> Textwrap.is_blank c = false -> k = false.
Proof.
  intros K B. destruct k; [|reflexivity].
  apply kind_space in K. apply is_blank_all_space in K. congruence.
Qed.

Lemma well_chunked_adjacent (a : list str) (x h : str) (t : list str) :
  well_chunked (a ++ x :: h :: t) = true ->
  exists k, kind x = Some k /\ kind h = Some (negb k).
Proof.
  intros W. apply well_chunked_app in W as [_ W].
  destruct (well_chunked_kind _ _ W) as [k K].
  destruct (well_chunked_kind _ _ (well_chunked_tail _ _ W)) as [k' K'].
  rewrite (well_chunked_cons _ _ _ _ _ K K') in W.
  apply andb_true_iff in W as [N _]. exists k. split; [exact K|].
  rewrite K'. f_equal. destruct k, k'; try reflexivity; discriminate N.
Qed.

Lemma drop_trailing_blank_keep (cur : list str) :
  Textwrap.drop_trailing_blank cur = cur ->
  cur = [] \/ exists i x, cur = i ++ [x] /\ Textwrap.is_blank x = false.
Proof.
  unfold Textwrap.drop_trailing_blank.
  destruct (rev cur) as [|x r] eqn:E.
  - intros _. left. destruct cur as [|y cur]; [reflexivity|].
    apply (f_equal (@length str)) in E. rewrite length_rev in E.
    discriminate E.
  - assert (C : cur = rev r ++ [x])
      by (rewrite <- (rev_involutive cur), E; reflexivity).
    destruct (Textwrap.is_blank x) eqn:B.
    + intros H. exfalso. rewrite C in H.
      apply (f_equal (@length str)) in H. rewrite length_app in H.
      simpl in H. lia.
    + intros _. right. eauto.
Qed.

Section WrapAccount.

Variables (width : Z) (initial_indent subsequent_indent : str).

Lemma wrap_step_account (c0 : str) (rest0 lines chunks' lines' : list str) :
  well_chunked (c0 :: rest0) = true ->
  Textwrap.wrap_step width initial_indent subsequent_indent c0 rest0 lines
  = (chunks', lines') ->
  exists kept dropped,
    lines' = match kept with
             | [] => lines
             | _ =>
                 lines
                 ++ [indent_for initial_indent subsequent_indent lines
                     ++ concat kept]
             end
    /\ text_weight (concat (c0 :: rest0))
       = dropped + text_weight (concat kept) + text_weight (concat chunks')
    /\ length chunks' < length (c0 :: rest0)
    /\ well_chunked chunks' = true
    /\ match kept with
       | [] => slack lines chunks'
       | _ => S (slack lines' chunks')
       end <= dropped + slack lines (c0 :: rest0).
Proof.
  intros W. unfold Textwrap.wrap_step.
  fold (indent_for initial_indent subsequent_indent lines).
  set (w := (width
             - len (indent_for initial_indent subsequent_indent lines))%Z).
  set (started := match lines with [] => false | _ => true end).
  set (pre := if Textwrap.is_blank c0 && started then [c0] else []).
  set (chunks1 := if Textwrap.is_blank c0 && started then rest0
                  else c0 :: rest0).
  assert (Epre : c0 :: rest0 = pre ++ chunks1)
    by (unfold pre, chunks1; now destruct (Textwrap.is_blank c0 && started)).
  assert (Hpre : pre = [] -> chunks1 <> [])
    by (unfold pre, chunks1;
        destruct (Textwrap.is_blank c0 && started); discriminate).
  destruct (well_chunked_kind _ _ W) as [k0 K0].
  assert (P1 : slack lines (c0 :: rest0) = 0 ->
               1 <= text_weight (concat pre)).
  { unfold slack, pre, started. destruct lines as [|l ls]; [discriminate|].
    destruct (Textwrap.is_blank c0); [|discriminate]. intros _.
    simpl. rewrite app_nil_r. exact (kind_weight _ _ K0). }
  destruct (let (cur, chunks2) := Textwrap.fill_line w 0 chunks1 in
            Textwrap.take_long_word w chunks2 cur)
    as [cur' chunks3] eqn:T.
  destruct (take_line_spec _ _ _ _ T) as (Ecur & Ncur & _).
  destruct (Textwrap.fill_line w 0 chunks1) as [cur chunks2].
  rewrite T.
  set (kept := Textwrap.drop_trailing_blank cur') in *.
  assert (D : exists post,
             cur' = kept ++ post
             /\ (post = [] ->
                 kept = []
                 \/ exists i x, kept = i ++ [x]
                                /\ Textwrap.is_blank x = false)
             /\ (post <> [] -> 1 <= text_weight (concat post))).
  { destruct (drop_trailing_blank_spec cur') as [D|(b & D & Bb)].
    - exists []. fold kept in D. rewrite app_nil_r.
      split; [now rewrite D|]. split; [|congruence]. intros _.
      rewrite D. now apply drop_trailing_blank_keep.
    - exists [b]. fold kept in D. split; [exact D|].
      split; [discriminate|]. intros _. simpl. rewrite app_nil_r.
      assert (I : In b (c0 :: rest0)).
      { rewrite Epre, Ecur, D. apply in_or_app. right.
        apply in_or_app. left. apply in_or_app. right. now left. }
      destruct (well_chunked_In _ _ W I) as [k K].
      exact (kind_weight _ _ K). }
  destruct D as (post & Epost & Keep & Drop).
  intros H. exists kept, (text_weight (concat pre) + text_weight (concat post)).
  assert (chunks' = chunks3 /\
          lines' = match kept with
                   | [] => lines
                   | _ =>
                       lines
                       ++ [indent_for initial_indent subsequent_indent lines
                           ++ concat kept]
                   end) as [-> El].
  { destruct kept; inversion H; auto. }
  assert (All : c0 :: rest0 = pre ++ kept ++ post ++ chunks3)
    by now rewrite Epre, Ecur, Epost, <- !app_assoc.
  split; [exact El|]. split.
  { rewrite All, !concat_app, !text_weight_app. lia. }
  split.
  { rewrite Epre, Ecur, !length_app. destruct pre; simpl; [|lia].
    specialize (Ncur (Hpre eq_refl)).
    destruct cur'; [congruence | simpl; lia]. }
  split.
  { rewrite All in W. apply well_chunked_app in W as [_ W].
    apply well_chunked_app in W as [_ W].
    now apply well_chunked_app in W as [_ W]. }
  assert (S0 : slack lines (c0 :: rest0) = 0
               \/ slack lines (c0 :: rest0) = 1).
  { unfold slack. destruct lines; [now right|].
    destruct (Textwrap.is_blank c0); auto. }
  assert (Base : 1 <= text_weight (concat pre) + slack lines (c0 :: rest0)).
  { destruct S0 as [Z|Z]; [specialize (P1 Z)|]; lia. }
  destruct kept as [|k1 kept1] eqn:Ek.
  - assert (slack lines chunks3 <= 1).
    { unfold slack. destruct lines, chunks3; try lia.
      destruct (Textwrap.is_blank s0); lia. }
    lia.
  - assert (Ln : lines' <> [])
      by (rewrite El; destruct lines; discriminate).
    destruct lines' as [|l' ls']; [congruence|].
    unfold slack at 1. destruct chunks3 as [|h t]; [lia|].
    destruct (Textwrap.is_blank h) eqn:Bh; [lia|].
    assert (Q : 1 <= text_weight (concat post)).
    { apply Drop. intros ->. destruct (Keep eq_refl) as [N|(i & x & Ei & Bx)];
        [discriminate|].
      assert (W2 : well_chunked ((pre ++ i) ++ x :: h :: t) = true).
      { replace ((pre ++ i) ++ x :: h :: t) with (c0 :: rest0); [exact W|].
        rewrite All, Ei. cbn [app]. now rewrite <- !app_assoc. }
      destruct (well_chunked_adjacent _ _ _ _ W2) as (k & Kx & Kh).
      rewrite (kind_not_blank _ _ Kx Bx) in Kh.
      apply kind_space in Kh. apply is_blank_all_space in Kh. congruence. }
    lia.
Qed.

Lemma wrap_loop_account (fuel : nat) :
  forall chunks lines,
    length chunks <= fuel ->
    well_chunked chunks = true ->
    exists texts,
      Textwrap.wrap_loop width initial_indent subsequent_indent
        fuel chunks lines
      = lines ++ match lines with
                 | [] => prefixed initial_indent subsequent_indent texts
                 | _ => map (app subsequent_indent) texts
                 end
      /\ length texts + list_sum (map text_weight texts)
         <= text_weight (concat chunks) + slack lines chunks.
Proof.
  induction fuel as [|fuel IH]; intros chunks lines F W.
  - destruct chunks; [|simpl in F; lia]. exists []. simpl.
    split; [|lia]. destruct lines; simpl; now rewrite ?app_nil_r.
  - destruct chunks as [|c0 rest0].
    + exists []. simpl. split; [|lia].
      destruct lines; simpl; now rewrite ?app_nil_r.
    + simpl Textwrap.wrap_loop.
      destruct (Textwrap.wrap_step width initial_indent subsequent_indent
                  c0 rest0 lines) as [chunks' lines'] eqn:S.
      destruct (wrap_step_account _ _ _ _ _ W S)
        as (kept & dropped & L & Wt & Len & W' & Sl).
      destruct (IH chunks' lines') as (texts & R & B);
        [simpl in *; lia | exact W' |].
      rewrite R. destruct kept as [|k kept].
      * subst lines'. exists texts. split; [reflexivity|].
        change (text_weight (concat [])) with 0 in Wt. lia.
      * exists (concat (k :: kept) :: texts). subst lines'. split.
        -- destruct lines as [|l0 lines]; simpl; [reflexivity|].
           now rewrite <- app_assoc.
        -- cbn [length map].
           replace (list_sum (text_weight (concat (k :: kept))
                              :: map text_weight texts))
             with (text_weight (concat (k :: kept))
                   + list_sum (map text_weight texts)) by reflexivity.
           lia.
Qed.

Lemma wrap_account (text : str) (new : list str) :
  Textwrap.wrap width initial_indent subsequent_indent text = Return new ->
  exists texts,
    new = prefixed initial_indent subsequent_indent texts
    /\ length texts + list_sum (map text_weight texts)
       <= S (text_weight text).
Proof.
  unfold Textwrap.wrap, Textwrap.wrap_chunks.
  destruct (width <=? 0)%Z; [discriminate|]. intros H. inversion H.
  destruct (wrap_loop_account _ _ [] (le_n _)
              (split_well_chunked (Textwrap.munge_whitespace text)))
    as (texts & R & B).
  exists texts. split; [exact R|].
  rewrite concat_split in B. pose proof (text_weight_munge text).
  assert (slack [] (Textwrap.split (Textwrap.munge_whitespace text)) <= 1)
    by (unfold slack; destruct (Textwrap.split _); lia).
  lia.
Qed.

End WrapAccount.

(** ** The list marker among the tokens *)

(** A list marker ends with the whitespace that [\s+] matched. *)
Lemma list_marker_shape (s m r : str) :
  Re.list_marker s = Some (m, r) ->
  exists h c w, m = h ++ c :: w /\ isspace c = true /\ all_space w = true.
Proof.
  unfold Re.list_marker.
  destruct (Re.marker_head s) as [[h t]|]; [|discriminate].
  destruct (Re.spaces t) as [w r'] eqn:S.
  apply spaces_spec in S as (_ & A & _).
  destruct w as [|x w]; [discriminate|]. intros M. inversion M; subst.
  cbn [all_space forallb] in A. apply andb_true_iff in A as [X A].
  exists h, x, w. auto.
Qed.

Lemma match_indent_marker (is_docstring : bool)
  (line indent marker rest : str) :
  Re.match_indent is_docstring line = Some (indent, marker, rest) ->
  marker = []
  \/ exists h c w,
      marker = h ++ c :: w /\ isspace c = true /\ all_space w = true.
Proof.
  unfold Re.match_indent. destruct (Re.spaces line) as [w r].
  assert (M : forall ind r0,
             match Re.list_marker r0 with
             | Some (m, rest') => Some (ind, m, rest')
             | None => Some (ind, [], r0)
             end = Some (indent, marker, rest) ->
             marker = []
             \/ exists h c w,
                 marker = h ++ c :: w /\ isspace c = true
                 /\ all_space w = true).
  { intros ind r0.
    destruct (Re.list_marker r0) as [[m rest']|] eqn:LM; intros H;
      inversion H; subst; [|now left].
    right. now apply list_marker_shape in LM. }
  destruct is_docstring; [apply M|].
  destruct r as [|c r1]; [discriminate|].
  destruct (c =? 35)%N; [|discriminate].
  destruct (Re.spaces r1) as [w2 r2]. apply M.
Qed.






(** ** Reading the literal that [ensure_docstring_triple_quotes] leaves *)




(** * The claims *)

(** C1: with [--skip-comments] alone [main] should run
    [process_content] without comment wrapping and with docstring
    processing, and with [--skip-docstrings] alone the other way round.
    The code does the opposite, for every other argument: with
    [--skip-comments] the files are processed with [wrap_comments] set and
    [wrap_docstrings] unset, and with [--skip-docstrings] with
    [wrap_comments] unset and [wrap_docstrings] set; a file made of one
    comment of 80 characters is rewrapped although [--skip-comments] was
    passed. *)
Theorem main_skip_flags_swapped :
  (forall docstring_locs scan_bound ps max_length force nogit w,
      main docstring_locs scan_bound
        {| paths := ps; max_doc_length := max_length;
           force_triple_quotes := force; skip_comments := true;
           skip_docstrings := false; no_gitignore := nogit |} w
      = main_loop docstring_locs scan_bound max_length force (negb nogit)
          true false ps w)
  /\ (forall docstring_locs scan_bound ps max_length force nogit w,
         main docstring_locs scan_bound
           {| paths := ps; max_doc_length := max_length;
              force_triple_quotes := force; skip_comments := false;
              skip_docstrings := true; no_gitignore := nogit |} w
         = main_loop docstring_locs scan_bound max_length force (negb nogit)
             false true ps w)
  /\ main no_docstrings 4
       {| paths := ["c.py"%string]; max_doc_length := 79;
          force_triple_quotes := false; skip_comments := true;
          skip_docstrings := false; no_gitignore := false |}
       {| files :=
            [("c.py"%string,
              File (lit "    # This line is exactly 80 characters, so it really must be rewrapped to fit."))];
          written := [] |}
     = Some (0%Z,
             [Modified "c.py"%string; Summary 1 1 0],
             {| files :=
                  [("c.py"%string,
                    File (lit "    # This line is exactly 80 characters, so it really must be rewrapped to"
                          ++ newline ++ lit "    # fit." ++ newline))];
                written := ["c.py"%string] |}).
Proof.
  split; [reflexivity|]. split; [reflexivity|]. vm_compute. reflexivity.
Qed.

(** C2, as the specification states it, fails: the indent of the comment
    line [#   deeper] is the [#] with the three spaces after it. *)
Lemma comment_indent_counterexample :
  Re.match_indent false (lit "#   deeper")
  = Some (lit "#   ", [], lit "deeper")
  /\ ~ single_space_indent (lit "#   ").
Proof.
  split; [reflexivity|]. intros (ws & A & [E|E]).
  - apply (f_equal (@rev char)) in E. rewrite rev_app_distr in E.
    vm_compute in E. discriminate.
  - apply (f_equal (@rev char)) in E. rewrite rev_app_distr in E.
    change (rev [35; 32]%N) with [32; 35]%N in E.
    change (rev (lit "#   ")) with [32; 32; 32; 35]%N in E.
    simpl in E. inversion E.
Qed.

(** C2 (amended): in comment mode the indent is the leading whitespace of
    the line, one [#], and all the whitespace that follows it: the line is
    indent, list marker and rest, and what comes after the indent does not
    start with whitespace. *)
Theorem comment_indent_shape (line indent marker rest : str) :
  Re.match_indent false line = Some (indent, marker, rest) ->
  exists ws1 ws2,
    indent = ws1 ++ [35%N] ++ ws2
    /\ all_space ws1 = true /\ all_space ws2 = true
    /\ line = indent ++ marker ++ rest
    /\ lstrip (marker ++ rest) = marker ++ rest.
Proof.
  intros H.
  apply match_indent_spec in H as (E & L & _ & ws1 & ws2 & I & A1 & A2).
  exists ws1, ws2. auto.
Qed.

Lemma comment_indent_shape_witness :
  exists ws1 ws2,
    lit "  #   " = ws1 ++ [35%N] ++ ws2
    /\ all_space ws1 = true /\ all_space ws2 = true
    /\ lit "  #   - item" = lit "  #   " ++ lit "- " ++ lit "item"
    /\ lstrip (lit "- " ++ lit "item") = lit "- " ++ lit "item".
Proof.
  apply (comment_indent_shape (lit "  #   - item") (lit "  #   ") (lit "- ")
           (lit "item")).
  reflexivity.
Defined.

(** C5: a line with the exclusion marker should never be merged into a
    paragraph.  In comment mode the line [# noqa: E501], which carries the
    marker, is merged into the paragraph of the overlong comment line
    before it: the marker is searched after the paragraph prefix, which
    takes the [#] away. *)
Theorem noqa_comment_line_merged :
  Re.noqa_search (lit "# noqa: E501") = true
  /\ rewrap_text 20 false [lit "# this comment is too long";
                           lit "# noqa: E501"]
     = ([lit "# this comment is"; lit "# too long noqa:"; lit "# E501"],
        Return true).
Proof. split; vm_compute; reflexivity. Qed.

(** C6: when the quote that opens the docstring is not canonical and the
    last line, without its trailing whitespace, does not end with the
    closing delimiter (the quote without its [r]), a [ValueError] is
    raised whose message holds the quote and the last line, and the lines
    are as they were. *)
Theorem closing_delimiter_mismatch_raises
  (first indent quote content : str) (rest : list str) :
  match_docstring_start first = Some (indent, quote, content) ->
  is_canonical quote = false ->
  endswith (rstrip (last (first :: rest) [])) (lstrip_r quote) = false ->
  ensure_docstring_triple_quotes (first :: rest)
  = (first :: rest,
     Raise (ValueError [Text invalid_format; Text quote;
                        Text (lit " doesn't match ");
                        Repr (last (first :: rest) [])])).
Proof.
  intros M C E. unfold ensure_docstring_triple_quotes. now rewrite M, C, E.
Qed.

Lemma closing_delimiter_mismatch_witness :
  ensure_docstring_triple_quotes
    [lit "    '''Summary"; lit "    text.'''  # done"]
  = ([lit "    '''Summary"; lit "    text.'''  # done"],
     Raise (ValueError [Text invalid_format; Text triple_single;
                        Text (lit " doesn't match ");
                        Repr (lit "    text.'''  # done")])).
Proof.
  apply (closing_delimiter_mismatch_raises (lit "    '''Summary")
           (lit "    ") triple_single (lit "Summary")
           [lit "    text.'''  # done"]); reflexivity.
Defined.

(** C3, as the specification states it, fails: with [max_length] 10 the
    docstring line of four spaces and a token of eight characters is
    replaced by itself, 12 characters long, although it has no exclusion
    marker and no token wider than [max_length]. *)
Lemma width_counterexample :
  rewrap_text 10 true [lit "    xxxxxxxx"]
  = ([lit "    xxxxxxxx"], Return true)
  /\ (len (lit "    xxxxxxxx") > 10)%Z
  /\ Re.noqa_search (lit "    xxxxxxxx") = false
  /\ Forall (fun tok => (len tok <= 10)%Z) (words (lit "    xxxxxxxx")).
Proof.
  split; [vm_compute; reflexivity|]. split; [reflexivity|].
  split; [reflexivity|]. vm_compute. repeat constructor. discriminate.
Qed.

(** C3 (amended): when [rewrap_text] returns, every line of the result
    fits in [max_length], or carries the exclusion marker, or is the
    prefix of a paragraph (the indent and list marker of an input line,
    or that indent padded to the width of the marker) followed by one
    unbreakable token: the token need not be wider than [max_length], it
    is enough that it does not fit after the prefix.  And [rewrap_text]
    does return when [max_length] is positive, in docstring mode or on
    comment lines. *)
Theorem rewrap_text_width (max_length : Z) (is_docstring : bool)
  (lines : list str) :
  (forall lines' b,
      rewrap_text max_length is_docstring lines = (lines', Return b) ->
      Forall (width_ok max_length is_docstring lines) lines')
  /\ ((0 < max_length)%Z ->
      is_docstring = true
      \/ Forall (fun l => is_comment_line l = true) lines ->
      exists lines' b,
        rewrap_text max_length is_docstring lines = (lines', Return b)).
Proof.
  rewrite rewrap_text_rest. split.
  - intros lines' b H.
    exact (rewrap_rest_width max_length is_docstring _ _ _ _ _ (le_n _) H).
  - intros Pos Shape. now apply rewrap_rest_returns.
Qed.

Lemma rewrap_text_width_witness :
  Forall (width_ok 10 true [lit "    xxxxxxxx"; lit "aaaa bbbb cc"])
    [lit "    xxxxxxxx"; lit "aaaa bbbb"; lit "cc"]
  /\ exists lines' b,
      rewrap_text 10 true [lit "    xxxxxxxx"; lit "aaaa bbbb cc"]
      = (lines', Return b).
Proof.
  split.
  - apply (proj1 (rewrap_text_width 10 true
                    [lit "    xxxxxxxx"; lit "aaaa bbbb cc"])
             [lit "    xxxxxxxx"; lit "aaaa bbbb"; lit "cc"] true).
    vm_compute. reflexivity.
  - apply (proj2 (rewrap_text_width 10 true
                    [lit "    xxxxxxxx"; lit "aaaa bbbb cc"])).
    + reflexivity.
    + left. reflexivity.
Defined.




(** C9, as the specification states it, fails in its second half: with
    [max_length] 8 the first run leaves the overlong token on a line of
    its own and breaks after [aaa], whose three spaces did not leave room
    for [bbb]; the second run starts at the overlong line, joins the
    lines with single spaces and puts [aaa bbb] on one line. *)
Lemma idempotence_counterexample :
  rewrap_text 8 true [lit "xxxxxxxxxx aaa   bbb"]
  = ([lit "xxxxxxxxxx"; lit "aaa"; lit "bbb"], Return true)
  /\ rewrap_text 8 true [lit "xxxxxxxxxx"; lit "aaa"; lit "bbb"]
     = ([lit "xxxxxxxxxx"; lit "aaa bbb"], Return true)
  /\ [lit "xxxxxxxxxx"; lit "aaa bbb"]
     <> [lit "xxxxxxxxxx"; lit "aaa"; lit "bbb"].
Proof.
  split; [vm_compute; reflexivity|]. split; [vm_compute; reflexivity|].
  discriminate.
Qed.

(** C9 (amended): when every line has length at most [max_length],
    [rewrap_text] leaves the lines unchanged and returns [False]; and a
    second run yields the lines of the first run, and returns [False],
    whenever the first run left no line longer than [max_length] other
    than lines with the exclusion marker. *)
Theorem rewrap_text_settled (max_length : Z) (is_docstring : bool)
  (lines : list str) :
  (Forall (fun l => (len l <= max_length)%Z) lines ->
   rewrap_text max_length is_docstring lines = (lines, Return false))
  /\ (forall lines1 b1,
         rewrap_text max_length is_docstring lines = (lines1, Return b1) ->
         Forall (fun l => (len l <= max_length)%Z
                          \/ Re.noqa_search l = true) lines1 ->
         rewrap_text max_length is_docstring lines1
         = (lines1, Return false)).
Proof.
  split.
  - intros A. rewrite rewrap_text_rest. apply rewrap_rest_noop.
    eapply Forall_impl; [|exact A]. intros l H.
    apply left_alone_spec. now left.
  - intros lines1 b1 _ A. rewrite rewrap_text_rest. apply rewrap_rest_noop.
    eapply Forall_impl; [|exact A]. intros l H. now apply left_alone_spec.
Qed.

Lemma rewrap_text_settled_witness :
  rewrap_text 10 true [lit "aaaa bbbb"; lit "cc"]
  = ([lit "aaaa bbbb"; lit "cc"], Return false)
  /\ rewrap_text 10 true [lit "aaaa bbbb"; lit "cc"; lit "# noqa: overlong"]
     = ([lit "aaaa bbbb"; lit "cc"; lit "# noqa: overlong"], Return false).
Proof.
  split.
  - apply (proj1 (rewrap_text_settled 10 true [lit "aaaa bbbb"; lit "cc"])).
    repeat constructor; discriminate.
  - apply (proj2 (rewrap_text_settled 10 true
                    [lit "aaaa bbbb cc"; lit "# noqa: overlong"])
             [lit "aaaa bbbb"; lit "cc"; lit "# noqa: overlong"] true).
    + vm_compute. reflexivity.
    + repeat (apply Forall_cons;
                [first [left; discriminate | right; reflexivity]|]).
      apply Forall_nil.
Defined.

(** C10: a comment line that holds one unbreakable token wider than
    [max_length] and no exclusion marker is replaced by itself, and
    [rewrap_text] returns [True]; [process_file] then writes the file
    back with the text it had, and every run of [main] over the file
    reports it as modified. *)
Theorem unbreakable_line_always_modified :
  (len url_line > 79)%Z
  /\ Re.noqa_search url_line = false
  /\ rewrap_text 79 false [url_line] = ([url_line], Return true)
  /\ (forall log k,
         process_file no_docstrings (S (S k)) 79 false "url.py"%string
           true true (url_world log)
         = Some (url_world (log ++ ["url.py"%string]), Return true))
  /\ (forall n log k,
         main_runs no_docstrings (S (S k)) (default_args ["url.py"%string])
           n (url_world log)
         = Some (repeat [Modified "url.py"%string; Summary 1 1 0] n,
                 url_world (log ++ repeat "url.py"%string n))).
Proof.
  split; [reflexivity|]. split; [reflexivity|].
  split; [vm_compute; reflexivity|]. split.
  - intros log k. vm_compute. reflexivity.
  - assert (M : forall log k,
               main no_docstrings (S (S k)) (default_args ["url.py"%string])
                 (url_world log)
               = Some (0%Z, [Modified "url.py"%string; Summary 1 1 0],
                       url_world (log ++ ["url.py"%string]))).
    { intros log k. vm_compute. reflexivity. }
    induction n as [|n IH]; intros log k.
    + simpl. now rewrite app_nil_r.
    + cbn [main_runs]. rewrite M, IH, <- app_assoc. reflexivity.
Qed.




Lemma match_single_line_spec (indent raw content trail : str) :
  all_space indent = true ->
  raw = [] \/ raw = letter_r ->
  has_newline content = false ->
  all_space trail = true ->
  match_single_line (raw ++ triple_double)
    (indent ++ raw ++ triple_double ++ content ++ triple_double ++ trail)
  = Some (indent, content).
Proof.
  intros A R N T. unfold match_single_line.
  rewrite (spaces_app indent _ A
             (lstrip_quote raw triple_double _ R
                (quote_body_triple_double _))).
  rewrite (app_assoc raw), startswith_app, skipn_app_exact.
  rewrite (rstrip_closed content triple_double trail) by auto.
  rewrite endswith_app.
  change 3 with (length triple_double). now rewrite drop_end_app, N.
Qed.

(** C7: a docstring of one line that is still too long once its quotes
    are normalised should be replaced by three lines.  The code asserts
    that such a line matches the indent, the opening quotes, a text, the
    closing quotes and whitespace up to the end; for a docstring that is
    followed by a comment on its line the assertion fails, and the line
    is left as it is.  The line below has 103 characters and canonical
    quotes. *)
Theorem single_line_docstring_with_comment_fails :
  let line :=
    lit "    " ++ triple_double
    ++ lit "Return the number of files that were modified by this run."
    ++ triple_double ++ lit "  # see the summary printed by main" in
  (len line > 79)%Z
  /\ normalize_quotes 79 false [line] = ([line], Return false)
  /\ match_opening_quote line = Some triple_double
  /\ match_single_line triple_double line = None
  /\ process_docstring 79 false [line] = ([line], Raise AssertionError).
Proof. vm_compute. repeat split; reflexivity. Qed.

(** X22: a docstring of one line that is longer than [max_length] once
    its quotes are normalised, and that holds nothing but whitespace
    after its closing quotes, is replaced by three lines, the indent with
    the opening quotes, the indent with the text, and the indent with the
    closing quotes, and the paragraphs are reflowed from these three
    lines.  The line is the indent, the quotes with their optional [r],
    the text, the closing quotes and whitespace. *)
Theorem single_line_docstring_split (max_length : Z) (force : bool)
  (l l1 : str) (modified : bool) (indent raw content trail : str) :
  normalize_quotes max_length force [l] = ([l1], Return modified) ->
  l1 = indent ++ raw ++ triple_double ++ content ++ triple_double ++ trail ->
  all_space indent = true ->
  raw = [] \/ raw = letter_r ->
  has_newline content = false ->
  all_space trail = true ->
  (len l1 > max_length)%Z ->
  split_single_line max_length modified [l1]
  = ([indent ++ raw ++ triple_double; indent ++ content;
      indent ++ triple_double], Return true)
  /\ process_docstring max_length force [l]
     = reflow_docstring max_length true
         [indent ++ raw ++ triple_double; indent ++ content;
          indent ++ triple_double].
Proof.
  intros Norm E A R N T Long.
  assert (S : split_single_line max_length modified [l1]
              = ([indent ++ raw ++ triple_double; indent ++ content;
                  indent ++ triple_double], Return true)).
  { unfold split_single_line, bind, first_line, get_lines, set_lines, ret.
    assert (G : (len l1 >? max_length)%Z = true) by (apply Z.gtb_lt; lia).
    rewrite G. subst l1.
    rewrite (match_opening_quote_spec indent raw triple_double _ A R
               (quote_body_triple_double _)).
    cbn [length Nat.eqb andb].
    replace (if startswith (raw ++ triple_double) letter_r
             then skipn 1 (raw ++ triple_double) else raw ++ triple_double)
      with triple_double by (destruct R as [-> | ->]; reflexivity).
    change (str_eqb triple_double triple_double) with true. cbn [negb].
    rewrite (match_single_line_spec indent raw content trail A R N T).
    unfold splice. cbn [firstn skipn Nat.max app].
    rewrite <- ?app_assoc. reflexivity. }
  split; [exact S|].
  unfold process_docstring, bind at 1. rewrite Norm.
  unfold bind. now rewrite S.
Qed.

Lemma single_line_docstring_split_witness :
  split_single_line 10 true
    [triple_double ++ lit "aaaa bbbb cc" ++ triple_double]
  = ([triple_double; lit "aaaa bbbb cc"; triple_double], Return true)
  /\ process_docstring 10 false [lit "'aaaa bbbb cc'"]
     = reflow_docstring 10 true
         [triple_double; lit "aaaa bbbb cc"; triple_double].
Proof.
  apply (single_line_docstring_split 10 false (lit "'aaaa bbbb cc'")
           (triple_double ++ lit "aaaa bbbb cc" ++ triple_double) true
           [] [] (lit "aaaa bbbb cc") []);
    first [reflexivity | left; reflexivity].
Defined.

(** * Further properties of the script *)

(** ** [rewrap_text] *)

Section RewrapMore.

Variables (max_length : Z) (is_docstring : bool).

Lemma rewrap_rest_true (fuel : nat) :
  forall rest out b,
    rewrap_rest max_length is_docstring fuel rest true = (out, Return b) ->
    b = true.
Proof.
  induction fuel as [|fuel IH]; intros rest out b H.
  - simpl in H. now inversion H.
  - destruct rest as [|cur following]; [simpl in H; now inversion H|].
    simpl in H. destruct (left_alone max_length cur).
    + destruct (rewrap_rest max_length is_docstring fuel following true)
        as [out' r] eqn:R.
      inversion H; subst. eapply IH; exact R.
    + destruct (reflow_paragraph max_length is_docstring (cur :: following)
                  0 cur) as [[end_line new_lines]|e]; [|discriminate].
      destruct (rewrap_rest max_length is_docstring fuel
                  (skipn end_line (cur :: following)) true)
        as [out' r] eqn:R.
      inversion H; subst. eapply IH; exact R.
Qed.

Lemma rewrap_rest_flag (fuel : nat) :
  forall rest modified out b,
    length rest <= fuel ->
    rewrap_rest max_length is_docstring fuel rest modified
    = (out, Return b) ->
    b = modified
        || existsb (fun l => negb (left_alone max_length l)) rest.
Proof.
  induction fuel as [|fuel IH]; intros rest modified out b F H.
  - destruct rest; [|simpl in F; lia]. inversion H. simpl.
    now rewrite orb_false_r.
  - destruct rest as [|cur following].
    + inversion H. simpl. now rewrite orb_false_r.
    + simpl in H, F. simpl existsb.
      destruct (left_alone max_length cur) eqn:A.
      * destruct (rewrap_rest max_length is_docstring fuel following modified)
          as [out' r] eqn:R.
        inversion H; subst. simpl. eapply IH; [|exact R]. lia.
      * destruct (reflow_paragraph max_length is_docstring (cur :: following)
                    0 cur) as [[end_line new_lines]|e]; [|discriminate].
        destruct (rewrap_rest max_length is_docstring fuel
                    (skipn end_line (cur :: following)) true)
          as [out' r] eqn:R.
        inversion H; subst. apply rewrap_rest_true in R. subst.
        simpl. now rewrite orb_true_r.
Qed.

Lemma rewrap_rest_skip (pre : list str) :
  forall fuel rest modified,
    Forall (fun l => left_alone max_length l = true) pre ->
    rewrap_rest max_length is_docstring (length pre + fuel) (pre ++ rest)
      modified
    = let (out, r) :=
        rewrap_rest max_length is_docstring fuel rest modified in
      (pre ++ out, r).
Proof.
  induction pre as [|l pre IH]; intros fuel rest modified A.
  - simpl. now destruct (rewrap_rest _ _ _ _ _).
  - inversion A; subst. simpl. rewrite H1, IH by assumption.
    now destruct (rewrap_rest _ _ _ _ _).
Qed.

End RewrapMore.

Lemma rewrap_text_skip (max_length : Z) (is_docstring : bool)
  (pre rest : list str) :
  Forall (fun l => left_alone max_length l = true) pre ->
  rewrap_text max_length is_docstring (pre ++ rest)
  = let (out, r) := rewrap_text max_length is_docstring rest in
    (pre ++ out, r).
Proof.
  intros A. rewrite !rewrap_text_rest, length_app.
  now apply rewrap_rest_skip.
Qed.

(** X1: the flag that [rewrap_text] returns tells whether the input held
    a line to wrap, not whether the lines changed: it is [True] exactly
    when some line is longer than [max_length] and has no exclusion
    marker. *)
Theorem rewrap_text_flag (max_length : Z) (is_docstring : bool)
  (lines out : list str) (b : bool) :
  rewrap_text max_length is_docstring lines = (out, Return b) ->
  b = existsb (fun l => negb (left_alone max_length l)) lines.
Proof.
  rewrite rewrap_text_rest. intros H.
  now apply rewrap_rest_flag in H.
Qed.

Lemma rewrap_text_flag_witness :
  true = existsb (fun l => negb (left_alone 10 l))
           [lit "short"; lit "aaaa bbbb cc"].
Proof.
  apply (rewrap_text_flag 10 true [lit "short"; lit "aaaa bbbb cc"]
           [lit "short"; lit "aaaa bbbb"; lit "cc"] true).
  vm_compute. reflexivity.
Defined.

(** X2: the lines that come before the first line to wrap are kept as
    they are, and the rest is wrapped as if [rewrap_text] were given the
    rest alone, with the same outcome. *)
Theorem rewrap_text_skips_prefix (max_length : Z) (is_docstring : bool)
  (pre rest : list str) :
  Forall (fun l => left_alone max_length l = true) pre ->
  rewrap_text max_length is_docstring (pre ++ rest)
  = let (out, r) := rewrap_text max_length is_docstring rest in
    (pre ++ out, r).
Proof. apply rewrap_text_skip. Qed.

Lemma rewrap_text_skips_prefix_witness :
  rewrap_text 10 true ([lit "short"; lit "# noqa: overlong"]
                       ++ [lit "aaaa bbbb cc"])
  = let (out, r) := rewrap_text 10 true [lit "aaaa bbbb cc"] in
    ([lit "short"; lit "# noqa: overlong"] ++ out, r).
Proof.
  apply (rewrap_text_skips_prefix 10 true
           [lit "short"; lit "# noqa: overlong"] [lit "aaaa bbbb cc"]).
  repeat (apply Forall_cons; [reflexivity|]). apply Forall_nil.
Defined.

Lemma match_indent_not_comment (line : str) :
  is_comment_line line = false -> Re.match_indent false line = None.
Proof.
  unfold is_comment_line, Re.match_indent. rewrite <- spaces_lstrip.
  destruct (Re.spaces line) as [w r]. simpl snd.
  destruct r as [|c r1]; [reflexivity|].
  change (startswith (c :: r1) [35%N]) with ((35 =? c)%N && true).
  rewrite andb_true_r, N.eqb_sym. now intros ->.
Qed.

(** X3: in comment mode a line to wrap that is not a comment line (no [#]
    after its leading whitespace) stops [rewrap_text] with an
    [AssertionError]; the lines are as they were when it is the first
    line to wrap. *)
Theorem rewrap_text_not_a_comment (max_length : Z) (pre rest : list str)
  (l : str) :
  Forall (fun x => left_alone max_length x = true) pre ->
  left_alone max_length l = false ->
  is_comment_line l = false ->
  rewrap_text max_length false (pre ++ l :: rest)
  = (pre ++ l :: rest, Raise AssertionError).
Proof.
  intros A L C. rewrite (rewrap_text_skip max_length false _ _ A).
  rewrite rewrap_text_rest. simpl. rewrite L.
  unfold reflow_paragraph. now rewrite (match_indent_not_comment _ C).
Qed.

Lemma rewrap_text_not_a_comment_witness :
  rewrap_text 10 false ([lit "# short"] ++ lit "code = 1  # trailing" :: [])
  = ([lit "# short"] ++ lit "code = 1  # trailing" :: [],
     Raise AssertionError).
Proof.
  apply (rewrap_text_not_a_comment 10 [lit "# short"] []
           (lit "code = 1  # trailing")).
  - repeat (apply Forall_cons; [reflexivity|]). apply Forall_nil.
  - reflexivity.
  - reflexivity.
Defined.

(** X4: with a [max_length] of zero or less, the first line to wrap stops
    [rewrap_text] with the [ValueError] of [textwrap] for an invalid
    width, and the lines are as they were. *)
Theorem rewrap_text_invalid_width (max_length : Z) (is_docstring : bool)
  (pre rest : list str) (l : str) :
  (max_length <= 0)%Z ->
  Forall (fun x => left_alone max_length x = true) pre ->
  left_alone max_length l = false ->
  is_docstring = true \/ is_comment_line l = true ->
  rewrap_text max_length is_docstring (pre ++ l :: rest)
  = (pre ++ l :: rest,
     Raise (ValueError [Text (lit "invalid width "); ReprInt max_length;
                        Text (lit " (must be > 0)")])).
Proof.
  intros W A L S.
  rewrite (rewrap_text_skip max_length is_docstring _ _ A).
  rewrite rewrap_text_rest. simpl. rewrite L.
  assert (M : exists indent marker r0,
             Re.match_indent is_docstring l = Some (indent, marker, r0)).
  { destruct S as [-> | S]; [apply match_indent_docstring|].
    destruct is_docstring;
      [apply match_indent_docstring | now apply match_indent_comment]. }
  destruct M as (indent & marker & r0 & M).
  unfold reflow_paragraph. rewrite M.
  unfold Textwrap.wrap, Textwrap.wrap_chunks.
  apply Z.leb_le in W. now rewrite W.
Qed.

Lemma rewrap_text_invalid_width_witness :
  rewrap_text 0 true ([[]] ++ lit "text" :: [lit "more"])
  = ([[]] ++ lit "text" :: [lit "more"],
     Raise (ValueError [Text (lit "invalid width "); ReprInt 0;
                        Text (lit " (must be > 0)")])).
Proof.
  apply (rewrap_text_invalid_width 0 true [[]] [lit "more"] (lit "text")).
  - discriminate.
  - repeat (apply Forall_cons; [reflexivity|]). apply Forall_nil.
  - reflexivity.
  - left. reflexivity.
Defined.

Lemma comment_prefix_line (ws1 ws2 t : str) :
  all_space ws1 = true ->
  is_comment_line ((ws1 ++ [35%N] ++ ws2) ++ t) = true.
Proof.
  intros A. unfold is_comment_line.
  now rewrite <- !app_assoc, lstrip_app_space.
Qed.

Lemma prefixed_comment_lines (indent marker : str) (texts : list str) :
  (exists ws1 ws2, indent = ws1 ++ [35%N] ++ ws2 /\ all_space ws1 = true) ->
  Forall (fun l => is_comment_line l = true)
    (prefixed (indent ++ marker) (indent ++ repeat 32%N (length marker))
       texts).
Proof.
  intros (ws1 & ws2 & -> & A). destruct texts as [|t ts]; [constructor|].
  simpl. constructor.
  - rewrite <- app_assoc. now apply comment_prefix_line.
  - apply Forall_forall. intros l I. apply in_map_iff in I as (x & <- & _).
    rewrite <- app_assoc. now apply comment_prefix_line.
Qed.

Lemma rewrap_rest_comment_lines (max_length : Z) (fuel : nat) :
  forall rest modified out r,
    Forall (fun l => is_comment_line l = true) rest ->
    rewrap_rest max_length false fuel rest modified = (out, r) ->
    Forall (fun l => is_comment_line l = true) out.
Proof.
  induction fuel as [|fuel IH]; intros rest modified out r C H.
  - simpl in H. now inversion H; subst.
  - destruct rest as [|cur following]; [simpl in H; now inversion H; subst|].
    simpl in H. destruct (left_alone max_length cur).
    + destruct (rewrap_rest max_length false fuel following modified)
        as [out' r'] eqn:R.
      inversion H; subst. inversion C; subst. constructor; [assumption|].
      eapply IH; [|exact R]. assumption.
    + destruct (reflow_paragraph max_length false (cur :: following) 0 cur)
        as [[end_line new_lines]|e] eqn:P; [|now inversion H; subst].
      destruct (rewrap_rest max_length false fuel
                  (skipn end_line (cur :: following)) true)
        as [out' r'] eqn:R.
      inversion H; subst.
      apply reflow_paragraph_spec in P
        as (indent & marker & r0 & M & _ & _ & _ & W).
      apply wrap_words in W as (texts & -> & _).
      apply match_indent_spec in M as (_ & _ & _ & ws1 & ws2 & I & A1 & _).
      apply Forall_app. split.
      * apply prefixed_comment_lines. eauto.
      * eapply IH; [|exact R]. apply Forall_forall. intros x I'.
        apply (proj1 (Forall_forall _ _) C). revert I'. apply skipn_In'.
Qed.

(** X5: in comment mode [rewrap_text] turns comment lines into comment
    lines: when every line starts, after whitespace, with [#], so does
    every line it leaves, whatever the outcome. *)
Theorem rewrap_text_keeps_comments (max_length : Z) (lines out : list str)
  (r : outcome bool) :
  Forall (fun l => is_comment_line l = true) lines ->
  rewrap_text max_length false lines = (out, r) ->
  Forall (fun l => is_comment_line l = true) out.
Proof.
  rewrite rewrap_text_rest. intros C H.
  eapply rewrap_rest_comment_lines; [exact C | exact H].
Qed.

Lemma rewrap_text_keeps_comments_witness :
  Forall (fun l => is_comment_line l = true)
    [lit "  # aaaa"; lit "  # bbbb cc"; lit "  #"].
Proof.
  apply (rewrap_text_keeps_comments 11 [lit "  # aaaa bbbb cc"; lit "  #"]
           [lit "  # aaaa"; lit "  # bbbb cc"; lit "  #"] (Return true)).
  - repeat (apply Forall_cons; [reflexivity|]). apply Forall_nil.
  - vm_compute. reflexivity.
Defined.

(** ** The exclusion marker *)

Lemma lstrip_split (s : str) :
  exists w, s = w ++ lstrip s /\ all_space w = true.
Proof.
  induction s as [|c t (w & E & A)]; [now exists []|]. simpl.
  destruct (isspace c) eqn:C; [|now exists []].
  exists (c :: w). simpl. rewrite C, A. split; [now f_equal | reflexivity].
Qed.

Lemma rstrip_split (s : str) :
  exists trail, s = rstrip s ++ trail /\ all_space trail = true.
Proof.
  destruct (lstrip_split (rev s)) as (w & E & A). exists (rev w). split.
  - unfold rstrip. rewrite <- rev_app_distr, <- E. now rewrite rev_involutive.
  - now rewrite all_space_rev.
Qed.

Lemma space_is_not (c k : char) :
  isspace c = true -> isspace k = false -> (c =? k)%N = false.
Proof.
  intros C K. destruct (c =? k)%N eqn:E; [|reflexivity].
  apply N.eqb_eq in E. subst. congruence.
Qed.

Lemma noqa_search_after_space (w s : str) :
  all_space w = true -> Re.noqa_search (w ++ s) = Re.noqa_search s.
Proof.
  induction w as [|c w IH]; [reflexivity|]. intros A. simpl in A.
  apply andb_true_iff in A as [C A]. simpl.
  now rewrite (space_is_not c 35%N C eq_refl), IH.
Qed.

Lemma noqa_here_before_space (y trail : str) :
  all_space trail = true -> Re.noqa_here (y ++ trail) = Re.noqa_here y.
Proof.
  intros A.
  assert (S : forall t rest, all_space (t :: rest) = true ->
              ((t =? 110) || (t =? 78) = false
               /\ (t =? 111) || (t =? 79) = false
               /\ (t =? 113) || (t =? 81) = false
               /\ (t =? 97) || (t =? 65) = false
               /\ all_space rest = true)%N).
  { intros t rest H. simpl in H. apply andb_true_iff in H as [T R].
    repeat split; try assumption;
      match goal with
      | |- ((t =? ?a) || (t =? ?b))%N = false =>
          rewrite (space_is_not t a T eq_refl), (space_is_not t b T eq_refl);
          reflexivity
      end. }
  destruct y as [|a [|b [|c [|d y]]]]; cbn [app Re.noqa_here].
  - destruct trail as [|t1 trail]; [reflexivity|].
    destruct (S _ _ A) as (N1 & _ & _ & _ & A1).
    destruct trail as [|t2 [|t3 [|t4 trail]]]; try reflexivity.
    cbn [app Re.noqa_here]. now rewrite N1.
  - destruct trail as [|t1 trail]; [reflexivity|].
    destruct (S _ _ A) as (_ & O1 & _ & _ & A1).
    destruct trail as [|t2 [|t3 trail]]; try reflexivity.
    cbn [app Re.noqa_here]. now rewrite O1, andb_false_r.
  - destruct trail as [|t1 trail]; [reflexivity|].
    destruct (S _ _ A) as (_ & _ & Q1 & _ & A1).
    destruct trail as [|t2 trail]; try reflexivity.
    cbn [app Re.noqa_here]. now rewrite Q1, andb_false_r.
  - destruct trail as [|t1 trail]; [reflexivity|].
    destruct (S _ _ A) as (_ & _ & _ & A1 & _).
    cbn [app Re.noqa_here]. now rewrite A1, andb_false_r.
  - reflexivity.
Qed.

Lemma lstrip_app_nonempty (a trail : str) :
  lstrip a <> [] -> lstrip (a ++ trail) = lstrip a ++ trail.
Proof.
  induction a as [|c a IH]; [simpl; congruence|]. simpl.
  destruct (isspace c); [exact IH | reflexivity].
Qed.

Lemma noqa_here_lstrip_before_space (a trail : str) :
  all_space trail = true ->
  Re.noqa_here (lstrip (a ++ trail)) = Re.noqa_here (lstrip a).
Proof.
  intros A. destruct (lstrip a) as [|c x] eqn:L.
  - apply lstrip_nil_all_space in L.
    rewrite lstrip_all_space; [reflexivity|].
    now rewrite all_space_app, L, A.
  - rewrite lstrip_app_nonempty by (rewrite L; discriminate).
    rewrite L. now apply noqa_here_before_space.
Qed.

Lemma noqa_search_before_space (a trail : str) :
  all_space trail = true -> Re.noqa_search (a ++ trail) = Re.noqa_search a.
Proof.
  intros A. induction a as [|c a IH].
  - simpl. rewrite <- (app_nil_r trail).
    now rewrite noqa_search_after_space.
  - simpl. now rewrite IH, (noqa_here_lstrip_before_space a trail A).
Qed.

Lemma noqa_search_rstrip (s : str) :
  Re.noqa_search (rstrip s) = Re.noqa_search s.
Proof.
  destruct (rstrip_split s) as (trail & E & A).
  rewrite E at 2. now rewrite noqa_search_before_space.
Qed.

(** In docstring mode the lines taken into a paragraph after the first
    one have no exclusion marker. *)
Lemma paragraph_extent_no_marker (prefix : str) (following : list str) :
  all_space prefix = true ->
  Forall (fun l => Re.noqa_search l = false)
    (firstn (paragraph_extent true prefix following) following).
Proof.
  intros A. induction following as [|next following IH]; [constructor|].
  cbn [paragraph_extent].
  destruct (startswith next prefix) eqn:P; [|constructor]. cbv zeta.
  destruct (rstrip (skipn (length prefix) next)) as [|c line] eqn:L;
    [constructor|].
  cbn [andb]. destruct (_ || _); [constructor|].
  destruct (Re.starts_new_block (c :: line)); [constructor|].
  destruct (Re.noqa_search (c :: line)) eqn:Q; [constructor|].
  assert (Q' : Re.noqa_search next = false).
  { rewrite (startswith_inv _ _ P), noqa_search_after_space by exact A.
    now rewrite <- noqa_search_rstrip, L. }
  destruct (endswith (c :: line) colon); simpl.
  - constructor; [exact Q' | constructor].
  - constructor; [exact Q' | exact IH].
Qed.

Lemma rewrap_rest_keeps_marked (max_length : Z) (fuel : nat) :
  forall rest modified out r l,
    rewrap_rest max_length true fuel rest modified = (out, r) ->
    In l rest -> Re.noqa_search l = true -> In l out.
Proof.
  induction fuel as [|fuel IH]; intros rest modified out r l H I Q.
  - simpl in H. now inversion H; subst.
  - destruct rest as [|cur following]; [contradiction|].
    simpl in H. destruct (left_alone max_length cur) eqn:A.
    + destruct (rewrap_rest max_length true fuel following modified)
        as [out' r'] eqn:R.
      inversion H; subst. destruct I as [-> | I]; [now left | right].
      eapply IH; [exact R | exact I | exact Q].
    + destruct (reflow_paragraph max_length true (cur :: following) 0 cur)
        as [[end_line new_lines]|e] eqn:P; [|now inversion H; subst].
      destruct (rewrap_rest max_length true fuel
                  (skipn end_line (cur :: following)) true)
        as [out' r'] eqn:R.
      inversion H; subst. apply in_or_app. right.
      eapply IH; [exact R | | exact Q].
      apply reflow_paragraph_spec in P
        as (indent & marker & r0 & M & E & _ & _ & _).
      cbv zeta in E. subst end_line.
      apply match_indent_spec in M as (_ & _ & _ & Ai).
      destruct I as [-> | I].
      { unfold left_alone in A. rewrite Q, orb_true_r in A. discriminate. }
      simpl skipn. unfold paragraph_lines.
      destruct (endswith (rstrip cur) colon); [exact I|].
      set (prefix := indent ++ repeat 32%N (length marker)).
      assert (Ap : all_space prefix = true).
      { unfold prefix. now rewrite all_space_app, Ai, all_space_repeat. }
      pose proof (paragraph_extent_no_marker prefix following Ap) as N.
      rewrite <- (firstn_skipn (paragraph_extent true prefix following)
                    following) in I.
      apply in_app_or in I as [I | I]; [|exact I].
      apply (proj1 (Forall_forall _ _) N) in I. congruence.
Qed.

(** X6: in docstring mode a line with the exclusion marker is never
    rewrapped nor merged into a paragraph: every such line of the input
    is a line of the result, whatever the outcome. *)
Theorem rewrap_text_docstring_keeps_marked (max_length : Z)
  (lines out : list str) (r : outcome bool) (l : str) :
  rewrap_text max_length true lines = (out, r) ->
  In l lines -> Re.noqa_search l = true -> In l out.
Proof.
  rewrite rewrap_text_rest. apply rewrap_rest_keeps_marked.
Qed.

Lemma rewrap_text_docstring_keeps_marked_witness :
  In (lit "continued  # noqa")
    [lit "this line is"; lit "too long"; lit "continued  # noqa"].
Proof.
  apply (rewrap_text_docstring_keeps_marked 12
           [lit "this line is too long"; lit "continued  # noqa"]
           [lit "this line is"; lit "too long"; lit "continued  # noqa"]
           (Return true) (lit "continued  # noqa")).
  - vm_compute. reflexivity.
  - right. left. reflexivity.
  - reflexivity.
Defined.

(** ** Docstrings *)

Lemma set_last_length (lines : list str) (v : str) :
  lines <> [] -> length (set_last lines v) = length lines.
Proof.
  intros N. unfold set_last. rewrite length_app, removelast_firstn_len.
  rewrite length_firstn. destruct lines; [congruence|]. simpl. lia.
Qed.

Lemma set_last_nth (lines : list str) (v : str) (i : nat) :
  S i < length lines ->
  nth_error (set_last lines v) i = nth_error lines i.
Proof.
  intros L. unfold set_last. rewrite removelast_firstn_len.
  rewrite nth_error_app1 by (rewrite length_firstn; lia).
  rewrite nth_error_firstn.
  destruct (i <? Nat.pred (length lines)) eqn:E; [reflexivity|].
  apply Nat.ltb_ge in E. lia.
Qed.

(** X7: [ensure_docstring_triple_quotes] changes at most the first and
    the last line: whatever the outcome, the number of lines is the same
    and the lines between the first and the last are as they were. *)
Theorem ensure_keeps_inner_lines (lines lines' : list str)
  (r : outcome bool) (i : nat) :
  ensure_docstring_triple_quotes lines = (lines', r) ->
  length lines' = length lines
  /\ (0 < i -> S i < length lines -> nth_error lines' i = nth_error lines i).
Proof.
  unfold ensure_docstring_triple_quotes.
  destruct lines as [|first rest]; [intros H; now inversion H|].
  destruct (match_docstring_start first) as [[[indent quote] content]|];
    [|intros H; now inversion H].
  destruct (is_canonical quote); [intros H; now inversion H|].
  destruct (negb _); [intros H; now inversion H|].
  intros H. inversion H; subst. clear H. cbn [set_first]. split.
  - now rewrite set_last_length by discriminate.
  - intros P L. rewrite set_last_nth by exact L.
    destruct i; [lia | reflexivity].
Qed.

Lemma ensure_keeps_inner_lines_witness :
  length [lit "  " ++ triple_double ++ lit "Summary"; lit "  text";
          lit "  end" ++ triple_double]
  = length [lit "  '''Summary"; lit "  text"; lit "  end'''  "]
  /\ (0 < 1 -> 2 < length [lit "  '''Summary"; lit "  text";
                           lit "  end'''  "] ->
      nth_error [lit "  " ++ triple_double ++ lit "Summary"; lit "  text";
                 lit "  end" ++ triple_double] 1
      = nth_error [lit "  '''Summary"; lit "  text"; lit "  end'''  "] 1).
Proof.
  apply (ensure_keeps_inner_lines
           [lit "  '''Summary"; lit "  text"; lit "  end'''  "]
           [lit "  " ++ triple_double ++ lit "Summary"; lit "  text";
            lit "  end" ++ triple_double] (Return true) 1).
  vm_compute. reflexivity.
Defined.

Lemma match_quote_none (s : str) :
  match s with
  | c :: _ => c <> 34%N /\ c <> 39%N /\ c <> 114%N
  | [] => True
  end ->
  Re.match_quote s = None.
Proof.
  destruct s as [|c t]; [reflexivity|]. intros (Q2 & Q1 & R).
  assert (E : forall k, c <> k -> (k =? c)%N = false).
  { intros k N. apply N.eqb_neq. congruence. }
  unfold Re.match_quote, Re.quote_body.
  cbn [startswith letter_r triple_double triple_single].
  now rewrite (E _ R), (E _ Q2), (E _ Q1).
Qed.

(** X8: a docstring whose first line does not start, after whitespace,
    with a quote or with a lowercase [r] (a prefix such as [R], [u], [b]
    or [f], or no quote at all) makes [process_docstring] raise the
    [ValueError] that names the line, whether or not anything needs
    wrapping, and the lines are as they were. *)
Theorem process_docstring_rejects_prefix (max_length : Z) (force : bool)
  (first : str) (rest : list str) :
  match lstrip first with
  | c :: _ => c <> 34%N /\ c <> 39%N /\ c <> 114%N
  | [] => True
  end ->
  process_docstring max_length force (first :: rest)
  = (first :: rest, Raise (ValueError [Text invalid_format; Repr first])).
Proof.
  intros P. apply match_quote_none in P.
  unfold process_docstring, normalize_quotes, split_single_line, bind,
    first_line, ret, raise.
  destruct (force || (len first >? max_length)%Z).
  - unfold ensure_docstring_triple_quotes, match_docstring_start.
    rewrite <- spaces_lstrip in P. destruct (Re.spaces first) as [w r0].
    simpl in P. now rewrite P.
  - unfold match_opening_quote. rewrite spaces_lstrip. now rewrite P.
Qed.

Lemma process_docstring_rejects_prefix_witness :
  process_docstring 79 false [lit "    R" ++ triple_double ++ lit "Doc."
                              ++ triple_double]
  = ([lit "    R" ++ triple_double ++ lit "Doc." ++ triple_double],
     Raise (ValueError
              [Text invalid_format;
               Repr (lit "    R" ++ triple_double ++ lit "Doc."
                     ++ triple_double)])).
Proof.
  apply (process_docstring_rejects_prefix 79 false
           (lit "    R" ++ triple_double ++ lit "Doc." ++ triple_double) []).
  vm_compute. repeat split; discriminate.
Defined.

Lemma quote_body_some (c : char) (t : str) :
  c = 34%N \/ c = 39%N ->
  exists q r, Re.quote_body (c :: t) = Some (q, r).
Proof.
  intros C. unfold Re.quote_body.
  destruct (startswith (c :: t) triple_double); [eauto|].
  destruct (startswith (c :: t) triple_single); [eauto|].
  destruct C as [-> | ->]; simpl; eauto.
Qed.

(** X9: without [force_triple_quotes], a docstring that starts with a
    quote, after an optional [r], and has no line longer than
    [max_length] is left as it is by [process_docstring], which returns
    [False]: the quotes are not touched, whatever their style. *)
Theorem process_docstring_fitting (max_length : Z) (first : str)
  (rest : list str) (raw t : str) (c : char) :
  Forall (fun l => (len l <= max_length)%Z) (first :: rest) ->
  lstrip first = raw ++ c :: t ->
  raw = [] \/ raw = letter_r ->
  c = 34%N \/ c = 39%N ->
  process_docstring max_length false (first :: rest)
  = (first :: rest, Return false).
Proof.
  intros F L R C.
  assert (S : forall l, In l (first :: rest) ->
                        (len l >? max_length)%Z = false).
  { intros l I. apply (proj1 (Forall_forall _ _) F) in I.
    rewrite Z.gtb_ltb. apply Z.ltb_ge. exact I. }
  unfold process_docstring, normalize_quotes, split_single_line,
    reflow_docstring, bind, first_line, get_lines, ret.
  rewrite (S first (or_introl eq_refl)). cbn [orb].
  assert (Q : exists q, match_opening_quote first = Some q).
  { unfold match_opening_quote. rewrite spaces_lstrip, L.
    destruct (quote_body_some c t C) as (q & r & Q).
    destruct R as [-> | ->].
    - unfold Re.match_quote. cbn [app].
      replace (startswith (c :: t) letter_r) with false
        by (destruct C as [-> | ->]; reflexivity).
      rewrite Q. eauto.
    - unfold Re.match_quote. cbn. rewrite Q. eauto. }
  destruct Q as (q & ->).
  rewrite (S first (or_introl eq_refl)), andb_false_r. cbv beta iota.
  replace (existsb (fun line => (len line >? max_length)%Z) (first :: rest))
    with false; [reflexivity|].
  symmetry. apply not_true_is_false. intros E.
  apply existsb_exists in E as (l & I & G). rewrite (S l I) in G.
  discriminate.
Qed.

Lemma process_docstring_fitting_witness :
  process_docstring 20 false [lit "  r'Short text.'"; lit "  and more"]
  = ([lit "  r'Short text.'"; lit "  and more"], Return false).
Proof.
  apply (process_docstring_fitting 20 (lit "  r'Short text.'")
           [lit "  and more"] letter_r (lit "Short text.'") 39%N).
  - repeat (apply Forall_cons; [discriminate|]). apply Forall_nil.
  - reflexivity.
  - right. reflexivity.
  - right. reflexivity.
Defined.

(** X10: a docstring of one line, in canonical quotes and longer than
    [max_length], whose closing quotes are not the last characters before
    the trailing whitespace (a comment follows it on the line, say) makes
    [process_docstring] fail with an [AssertionError]; the line is as it
    was. *)
Theorem process_docstring_trailing_text (max_length : Z) (force : bool)
  (indent raw after : str) :
  all_space indent = true ->
  raw = [] \/ raw = letter_r ->
  has_newline after = false ->
  endswith (rstrip after) triple_double = false ->
  (len (indent ++ raw ++ triple_double ++ after) > max_length)%Z ->
  process_docstring max_length force [indent ++ raw ++ triple_double ++ after]
  = ([indent ++ raw ++ triple_double ++ after], Raise AssertionError).
Proof.
  intros A R N E Long.
  assert (G : (len (indent ++ raw ++ triple_double ++ after) >? max_length)%Z
              = true) by (apply Z.gtb_lt; lia).
  unfold process_docstring, normalize_quotes, split_single_line, bind,
    first_line, get_lines, ret, raise.
  rewrite G, orb_true_r. unfold ensure_docstring_triple_quotes.
  rewrite (match_docstring_start_spec indent raw triple_double after A R
             (quote_body_triple_double after) N).
  replace (is_canonical (raw ++ triple_double)) with true
    by (destruct R as [-> | ->]; reflexivity).
  rewrite (match_opening_quote_spec indent raw triple_double after A R
             (quote_body_triple_double after)).
  rewrite G. cbn [length Nat.eqb andb].
  replace (if startswith (raw ++ triple_double) letter_r
           then skipn 1 (raw ++ triple_double) else raw ++ triple_double)
    with triple_double by (destruct R as [-> | ->]; reflexivity).
  change (str_eqb triple_double triple_double) with true. cbn [negb].
  unfold match_single_line.
  rewrite (spaces_app indent _ A
             (lstrip_quote raw triple_double _ R
                (quote_body_triple_double _))).
  rewrite (app_assoc raw), startswith_app, skipn_app_exact.
  now rewrite E.
Qed.

Lemma process_docstring_trailing_text_witness :
  process_docstring 10 false
    [lit "  " ++ [] ++ triple_double
     ++ (lit "Doc." ++ triple_double ++ lit "  # why")]
  = ([lit "  " ++ [] ++ triple_double
      ++ (lit "Doc." ++ triple_double ++ lit "  # why")],
     Raise AssertionError).
Proof.
  apply (process_docstring_trailing_text 10 false (lit "  ") []
           (lit "Doc." ++ triple_double ++ lit "  # why"));
    first [reflexivity | left; reflexivity].
Defined.

(** ** The loop over the docstrings *)

Lemma descending_below (hi hi' : nat) (locs : list (nat * nat)) :
  hi <= hi' -> descending hi locs -> descending hi' locs.
Proof.
  destruct locs as [|[s e] locs]; [auto|]. simpl. intros L (A & B & C).
  repeat split; [assumption | lia | assumption].
Qed.

Lemma slice_app_within {A} (pre tail : list A) (s e : nat) :
  s <= e -> e <= length pre -> slice (pre ++ tail) s e = slice pre s e.
Proof.
  intros S E. unfold slice. rewrite skipn_app, firstn_app.
  replace (s - length pre) with 0 by lia. rewrite length_skipn.
  replace (e - s - (length pre - s)) with 0 by lia.
  simpl. apply app_nil_r.
Qed.

Lemma splice_app_within {A} (pre tail new : list A) (s e : nat) :
  s <= e -> e <= length pre ->
  splice (pre ++ tail) s e new = splice pre s e new ++ tail.
Proof.
  intros S E. unfold splice. rewrite Nat.max_r by lia.
  rewrite firstn_app, skipn_app.
  replace (s - length pre) with 0 by lia.
  replace (e - length pre) with 0 by lia.
  simpl. now rewrite app_nil_r, <- !app_assoc.
Qed.

Lemma splice_length_ge {A} (l new : list A) (s e : nat) :
  s <= length l -> s <= length (splice l s e new).
Proof.
  intros S. unfold splice. rewrite length_app, length_firstn. lia.
Qed.

(** Ranges that lie in the head of the lines are processed as on the
    head alone. *)
Lemma process_docstrings_local (max_length : Z) (force : bool)
  (locs : list (nat * nat)) :
  forall pre tail modified,
    descending (length pre) locs ->
    process_docstrings max_length force locs (pre ++ tail) modified
    = followed_by tail
        (process_docstrings max_length force locs pre modified).
Proof.
  induction locs as [|[s e] locs IH]; intros pre tail modified D;
    [reflexivity|].
  destruct D as (S & E & D). cbn [process_docstrings].
  rewrite (slice_app_within pre tail s e S E).
  destruct (process_docstring max_length force (slice pre s e))
    as [doc' [[|]|x]].
  - rewrite (splice_app_within pre tail doc' s e S E). apply IH.
    apply (descending_below s); [|exact D].
    apply splice_length_ge. lia.
  - apply IH. apply (descending_below s); [lia | exact D].
  - reflexivity.
Qed.

(** X11: the docstrings are processed from the last one up, so that a
    docstring that grows or shrinks does not move the ones before it:
    for ranges in descending order that do not overlap, the ranges before
    the first one processed are processed on the head of the file as it
    was, and the processed docstring and the rest of the file follow. *)
Theorem process_docstrings_in_reverse (max_length : Z) (force : bool)
  (s e : nat) (locs : list (nat * nat)) (lines : list str)
  (modified : bool) :
  descending (length lines) ((s, e) :: locs) ->
  process_docstrings max_length force ((s, e) :: locs) lines modified
  = match process_docstring max_length force (slice lines s e) with
    | (_, Raise x) => Raise x
    | (docstring_lines, Return true) =>
        followed_by (docstring_lines ++ skipn e lines)
          (process_docstrings max_length force locs (firstn s lines) true)
    | (_, Return false) =>
        followed_by (skipn s lines)
          (process_docstrings max_length force locs (firstn s lines)
             modified)
    end.
Proof.
  intros (S & E & D). cbn [process_docstrings].
  assert (L : length (firstn s lines) = s)
    by (rewrite length_firstn; lia).
  destruct (process_docstring max_length force (slice lines s e))
    as [doc' [[|]|x]]; [| |reflexivity].
  - unfold splice. rewrite Nat.max_r by lia.
    apply process_docstrings_local. now rewrite L.
  - rewrite <- (firstn_skipn s lines) at 1.
    apply process_docstrings_local. now rewrite L.
Qed.

Lemma process_docstrings_in_reverse_witness :
  process_docstrings 12 false [(2, 3); (0, 1)]
    [lit "'first docstring'"; lit "x = 1"; lit "'second docstring'"] false
  = match process_docstring 12 false
            (slice [lit "'first docstring'"; lit "x = 1";
                    lit "'second docstring'"] 2 3) with
    | (_, Raise x) => Raise x
    | (docstring_lines, Return true) =>
        followed_by
          (docstring_lines
           ++ skipn 3 [lit "'first docstring'"; lit "x = 1";
                       lit "'second docstring'"])
          (process_docstrings 12 false [(0, 1)]
             (firstn 2 [lit "'first docstring'"; lit "x = 1";
                        lit "'second docstring'"]) true)
    | (_, Return false) =>
        followed_by
          (skipn 2 [lit "'first docstring'"; lit "x = 1";
                    lit "'second docstring'"])
          (process_docstrings 12 false [(0, 1)]
             (firstn 2 [lit "'first docstring'"; lit "x = 1";
                        lit "'second docstring'"]) false)
    end.
Proof.
  apply (process_docstrings_in_reverse 12 false 2 3 [(0, 1)]
           [lit "'first docstring'"; lit "x = 1"; lit "'second docstring'"]
           false).
  simpl. lia.
Defined.

(** ** The loop over the comment blocks *)

Lemma firstn_splice {A} (l new : list A) (s e : nat) :
  s <= length l -> firstn s (splice l s e new) = firstn s l.
Proof.
  intros S. unfold splice. rewrite firstn_app, length_firstn.
  replace (s - Nat.min s (length l)) with 0 by lia.
  rewrite firstn_firstn, Nat.min_id. simpl. apply app_nil_r.
Qed.

Lemma firstn_shorter {A} (a b : list A) (n m : nat) :
  n <= m -> firstn m a = firstn m b -> firstn n a = firstn n b.
Proof.
  intros L E. apply (f_equal (firstn n)) in E.
  now rewrite !firstn_firstn, !Nat.min_l in E by exact L.
Qed.

(** The lines before [lineno] are not changed by the scan. *)
Lemma scan_comments_prefix (max_length : Z) (fuel : nat) :
  forall lines lineno modified lines' b,
    scan_comments max_length fuel lines lineno modified
    = Some (Return (lines', b)) ->
    firstn lineno lines' = firstn lineno lines.
Proof.
  induction fuel as [|fuel IH]; intros lines lineno modified lines' b H;
    [discriminate|].
  cbn [scan_comments] in H.
  destruct (nth_error lines lineno) as [cur|] eqn:N;
    [|now inversion H; subst].
  assert (Lt : lineno < length lines)
    by (apply nth_error_Some; congruence).
  destruct ((lineno =? 0) && startswith cur (lit "#!")).
  { apply IH in H. apply (firstn_shorter _ _ lineno (lineno + 1)); [lia|].
    exact H. }
  destruct (is_comment_line cur).
  - set (end_line := lineno + 1 + comment_run (skipn (lineno + 1) lines))
      in *.
    destruct (existsb (too_long max_length) (slice lines lineno end_line)).
    + destruct (rewrap_text max_length false (slice lines lineno end_line))
        as [cl [[|]|e]]; [| |discriminate].
      * apply IH in H.
        apply (firstn_shorter _ _ lineno end_line) in H;
          [|unfold end_line; lia].
        rewrite H. apply firstn_splice. lia.
      * apply IH in H.
        apply (firstn_shorter _ _ lineno end_line); [unfold end_line; lia|].
        exact H.
    + apply IH in H.
      apply (firstn_shorter _ _ lineno end_line); [unfold end_line; lia|].
      exact H.
  - apply IH in H. apply (firstn_shorter _ _ lineno (lineno + 1)); [lia|].
    exact H.
Qed.

(** A first line that starts with [#!] is skipped by the scanner and
    stays the first line of what it returns. *)
Lemma scan_comments_shebang (max_length : Z) (fuel : nat) (l0 : str)
  (rest lines' : list str) (modified b : bool) :
  startswith l0 (lit "#!") = true ->
  scan_comments max_length fuel (l0 :: rest) 0 modified
  = Some (Return (lines', b)) ->
  hd_error lines' = Some l0.
Proof.
  intros S H. destruct fuel as [|fuel]; [discriminate|].
  cbn [scan_comments nth_error Nat.eqb andb] in H. rewrite S in H.
  apply scan_comments_prefix in H. simpl in H.
  destruct lines' as [|l lines']; [discriminate|]. now inversion H.
Qed.

Lemma comment_run_spec (following : list str) :
  Forall (fun l => is_comment_line l = true)
    (firstn (comment_run following) following).
Proof.
  induction following as [|l following IH]; [constructor|]. simpl.
  destruct (is_comment_line l) eqn:C; [|constructor].
  simpl. now constructor.
Qed.

Lemma filter_comment_lines (ls : list str) :
  Forall (fun l => is_comment_line l = true) ls ->
  filter is_code_line ls = [].
Proof.
  induction 1 as [|l ls C _ IH]; [reflexivity|]. simpl.
  unfold is_code_line at 1. now rewrite C.
Qed.

(** What the scanner returns holds the lines of code of its input, in
    the same order. *)
Lemma scan_comments_code (max_length : Z) (fuel : nat) :
  forall lines lineno modified lines' b,
    scan_comments max_length fuel lines lineno modified
    = Some (Return (lines', b)) ->
    filter is_code_line lines' = filter is_code_line lines.
Proof.
  induction fuel as [|fuel IH]; intros lines lineno modified lines' b H;
    [discriminate|].
  cbn [scan_comments] in H.
  destruct (nth_error lines lineno) as [cur|] eqn:N;
    [|now inversion H; subst].
  destruct ((lineno =? 0) && startswith cur (lit "#!"));
    [now apply IH in H|].
  destruct (is_comment_line cur) eqn:C; [|now apply IH in H].
  set (end_line := lineno + 1 + comment_run (skipn (lineno + 1) lines)) in *.
  destruct (existsb (too_long max_length) (slice lines lineno end_line));
    [|now apply IH in H].
  destruct (rewrap_text max_length false (slice lines lineno end_line))
    as [cl [[|]|e]] eqn:R; [|now apply IH in H|discriminate].
  apply IH in H. rewrite H. clear H IH.
  apply nth_error_split in N as (l1 & l2 & E & L).
  assert (S1 : skipn (lineno + 1) lines = l2).
  { rewrite E, <- L, skipn_app, skipn_all2 by lia.
    replace (length l1 + 1 - length l1) with 1 by lia. reflexivity. }
  assert (S2 : slice lines lineno end_line
               = cur :: firstn (comment_run l2) l2).
  { unfold slice, end_line. rewrite S1, E, <- L, skipn_app, skipn_all2 by lia.
    replace (length l1 - length l1) with 0 by lia.
    replace (length l1 + 1 + comment_run l2 - length l1)
      with (S (comment_run l2)) by lia.
    reflexivity. }
  assert (Cb : Forall (fun l => is_comment_line l = true)
                 (slice lines lineno end_line)).
  { rewrite S2. constructor; [exact C | apply comment_run_spec]. }
  pose proof (rewrap_text_rest max_length false (slice lines lineno end_line))
    as Rr. rewrite R in Rr. symmetry in Rr.
  pose proof (rewrap_rest_comment_lines max_length _ _ _ _ _ Cb Rr) as Cn.
  assert (F1 : firstn lineno lines = l1).
  { rewrite E, <- L, firstn_app, firstn_all, Nat.sub_diag. simpl.
    apply app_nil_r. }
  assert (F2 : skipn end_line lines = skipn (comment_run l2) l2).
  { unfold end_line. rewrite S1, E, <- L, skipn_app, skipn_all2 by lia.
    replace (length l1 + 1 + comment_run l2 - length l1)
      with (S (comment_run l2)) by lia.
    reflexivity. }
  unfold splice. rewrite Nat.max_r by (unfold end_line; lia).
  rewrite F1, F2, E, !filter_app, (filter_comment_lines _ Cn).
  f_equal.
  change (filter is_code_line (cur :: l2))
    with (if is_code_line cur then cur :: filter is_code_line l2
          else filter is_code_line l2).
  unfold is_code_line at 2. rewrite C. cbn [negb app].
  replace (filter is_code_line l2)
    with (filter is_code_line
            (firstn (comment_run l2) l2 ++ skipn (comment_run l2) l2))
    by now rewrite firstn_skipn.
  now rewrite filter_app, (filter_comment_lines _ (comment_run_spec l2)).
Qed.

(** ** [process_file] and [main] *)

Lemma lookup_store_other (fs : list (path * node)) (p q : path) (n : node) :
  q <> p -> lookup (store fs p n) q = lookup fs q.
Proof.
  intros N. assert (E : String.eqb p q = false).
  { apply String.eqb_neq. congruence. }
  induction fs as [|[q0 m] fs IH]; simpl.
  - now rewrite E.
  - destruct (String.eqb q0 p) eqn:P; simpl.
    + apply String.eqb_eq in P. subst q0. now rewrite E.
    + now rewrite IH.
Qed.

(** A call of [process_file] either returns [True] after it wrote the
    file, and no other, or leaves the files as they are. *)
Lemma process_file_effect
  (docstring_locs : str -> outcome (list (nat * nat))) (scan_bound : nat)
  (max_length : Z) (force : bool) (p : path) (wc wd : bool)
  (w w' : world) (r : outcome bool) :
  process_file docstring_locs scan_bound max_length force p wc wd w
  = Some (w', r) ->
  (r = Return true
   /\ written w' = written w ++ [p]
   /\ forall q, q <> p -> lookup (files w') q = lookup (files w) q)
  \/ (r <> Return true /\ w' = w).
Proof.
  unfold process_file. destruct (read_text w p) as [content|e];
    [|intros H; inversion H; subst; right; split; [discriminate | auto]].
  destruct (process_content _ _ _ _ _ _ _) as [[[lines [|]]|e]|];
    intros H; inversion H; subst.
  - left. repeat split. intros q N. simpl. now apply lookup_store_other.
  - right. split; [discriminate | reflexivity].
  - right. split; [discriminate | reflexivity].
Qed.

Lemma run_extends_refl (r : run) : run_extends r r.
Proof.
  exists []. rewrite !app_nil_r. simpl. repeat split; auto.
Qed.

Lemma run_extends_trans (r1 r2 r3 : run) :
  run_extends r1 r2 -> run_extends r2 r3 -> run_extends r1 r3.
Proof.
  intros (d1 & O1 & W1 & M1 & E1 & F1) (d2 & O2 & W2 & M2 & E2 & F2).
  exists (d1 ++ d2). unfold modified_paths in *.
  rewrite flat_map_app, filter_app, !length_app.
  repeat split.
  - now rewrite O2, O1, app_assoc.
  - now rewrite W2, W1, app_assoc.
  - lia.
  - lia.
  - intros q N. rewrite F2, F1; [reflexivity | |];
      intros I; apply N; apply in_or_app; auto.
Qed.

Section MainFacts.

Variable process : path -> world -> option (world * outcome bool).

Hypothesis process_effect :
  forall p w w' r,
    process p w = Some (w', r) ->
    (r = Return true
     /\ written w' = written w ++ [p]
     /\ forall q, q <> p -> lookup (files w') q = lookup (files w) q)
    \/ (r <> Return true /\ w' = w).

Lemma process_files_extends (file_paths : list path) :
  forall r r', process_files process file_paths r = Some r' ->
               run_extends r r'.
Proof.
  induction file_paths as [|p ps IH]; intros r r' H.
  - inversion H. apply run_extends_refl.
  - cbn [process_files] in H.
    destruct (process p (state r)) as [[w [[|]|e]]|] eqn:P; [| | |discriminate].
    + destruct (process_effect _ _ _ _ P) as [(_ & W & F)|(N & _)];
        [|congruence].
      eapply run_extends_trans; [|eapply IH; exact H].
      exists [Modified p]. simpl. repeat split; auto.
      all: try (intros q N; apply F; intros ->; apply N; now left).
    + destruct (process_effect _ _ _ _ P) as [(C & _)|(_ & ->)];
        [discriminate|].
      eapply run_extends_trans; [|eapply IH; exact H].
      exists []. simpl. rewrite !app_nil_r. repeat split; auto.
    + destruct (process_effect _ _ _ _ P) as [(C & _)|(_ & ->)];
        [discriminate|].
      eapply run_extends_trans; [|eapply IH; exact H].
      exists [ErrorProcessing p e]. simpl. rewrite !app_nil_r.
      repeat split; auto; lia.
Qed.

Lemma process_paths_extends (omit_gitignore : bool) (ps : list path) :
  forall r r', process_paths process omit_gitignore ps r = Some r' ->
               run_extends r r'.
Proof.
  induction ps as [|p ps IH]; intros r r' H.
  - inversion H. apply run_extends_refl.
  - cbn [process_paths] in H.
    destruct (lookup (files (state r)) p) as [[content|matches]|].
    + destruct (process_files process [p] r) as [r1|] eqn:P; [|discriminate].
      eapply run_extends_trans; [eapply process_files_extends; exact P|].
      now apply IH.
    + destruct (process_files process (recursive_glob matches omit_gitignore)
                  r) as [r1|] eqn:P; [|discriminate].
      eapply run_extends_trans; [eapply process_files_extends; exact P|].
      now apply IH.
    + eapply run_extends_trans; [|eapply IH; exact H].
      exists [NotAFileOrDirectory p]. simpl. rewrite !app_nil_r.
      repeat split; auto; lia.
Qed.

End MainFacts.

Lemma main_loop_extends
  (docstring_locs : str -> outcome (list (nat * nat))) (scan_bound : nat)
  (max_length : Z) (force omit wc wd : bool) (ps : list path) (w w' : world)
  (code : Z) (out : list printed) :
  main_loop docstring_locs scan_bound max_length force omit wc wd ps w
  = Some (code, out, w') ->
  exists body processed,
    out = body ++ [Summary processed (length (modified_paths body))
                     (length (filter is_error_line body))]
    /\ code = (if length (filter is_error_line body) =? 0 then 0%Z else 1%Z)
    /\ written w' = written w ++ modified_paths body
    /\ forall q, ~ In q (modified_paths body) ->
                 lookup (files w') q = lookup (files w) q.
Proof.
  unfold main_loop.
  destruct (process_paths _ omit ps _) as [r|] eqn:P; [|discriminate].
  apply process_paths_extends in P;
    [|intros p0 w0 w1 r0; apply process_file_effect].
  destruct P as (delta & O & W & M & E & F). simpl in O, W, M, E, F.
  intros H. inversion H. exists delta, (processed_count r).
  rewrite O, M, E. repeat split; auto.
Qed.

(** ** Paragraph boundaries *)

Section Boundaries.

Variables (max_length : Z) (is_docstring : bool).

(** The flag given to the loop does not change the lines; it is returned
    unless a paragraph was reflowed. *)
Lemma rewrap_rest_modified (fuel : nat) :
  forall rest modified,
    rewrap_rest max_length is_docstring fuel rest modified
    = let (out, r) := rewrap_rest max_length is_docstring fuel rest false in
      (out, match r with
            | Return b => Return (modified || b)
            | Raise e => Raise e
            end).
Proof.
  induction fuel as [|fuel IH]; intros rest modified.
  - simpl. now rewrite orb_false_r.
  - destruct rest as [|cur following]; [simpl; now rewrite orb_false_r|].
    simpl. destruct (left_alone max_length cur).
    + rewrite IH.
      now destruct (rewrap_rest max_length is_docstring fuel following false).
    + destruct (reflow_paragraph max_length is_docstring (cur :: following)
                  0 cur) as [[end_line new_lines]|e]; [|reflexivity].
      destruct (rewrap_rest max_length is_docstring fuel
                  (skipn end_line (cur :: following)) true)
        as [out [b|e]] eqn:R; [|reflexivity].
      apply rewrap_rest_true in R. subst. now rewrite orb_true_r.
Qed.

Lemma rewrap_rest_enough (fuel : nat) (rest : list str) (modified : bool) :
  length rest <= fuel ->
  rewrap_rest max_length is_docstring fuel rest modified
  = rewrap_rest max_length is_docstring (length rest) rest modified.
Proof.
  intros L. replace fuel with (length rest + (fuel - length rest)) by lia.
  now apply rewrap_rest_fuel.
Qed.

Lemma paragraph_extent_blank (prefix : str) (a b : list str) :
  paragraph_extent is_docstring prefix (a ++ [] :: b)
  = paragraph_extent is_docstring prefix a.
Proof.
  induction a as [|next a IH].
  - cbn [app paragraph_extent].
    destruct prefix as [|c prefix]; reflexivity.
  - cbn [app paragraph_extent]. now rewrite IH.
Qed.

Lemma reflow_paragraph_blank (cur : str) (a b : list str) :
  reflow_paragraph max_length is_docstring (cur :: a ++ [] :: b) 0 cur
  = reflow_paragraph max_length is_docstring (cur :: a) 0 cur.
Proof.
  unfold reflow_paragraph.
  destruct (Re.match_indent is_docstring cur) as [[[indent marker] r0]|];
    [|reflexivity].
  cbn [skipn Nat.add]. rewrite paragraph_extent_blank.
  set (prefix := indent ++ repeat 32%N (length marker)).
  destruct (paragraph_extent_spec is_docstring prefix a) as [Le _].
  assert (S : forall k, k <= length a ->
                        slice (cur :: a ++ [] :: b) 0 (S k)
                        = slice (cur :: a) 0 (S k)).
  { intros k K. unfold slice. cbn [skipn]. rewrite Nat.sub_0_r.
    cbn [firstn]. f_equal. rewrite firstn_app.
    replace (k - length a) with 0 by lia. simpl. apply app_nil_r. }
  destruct (endswith (rstrip cur) colon).
  - rewrite S by lia. reflexivity.
  - rewrite S by exact Le. reflexivity.
Qed.

Lemma rewrap_rest_cons (fuel : nat) (cur : str) (following : list str)
  (modified : bool) :
  rewrap_rest max_length is_docstring (S fuel) (cur :: following) modified
  = if left_alone max_length cur then
      let (out, r) :=
        rewrap_rest max_length is_docstring fuel following modified in
      (cur :: out, r)
    else
      match reflow_paragraph max_length is_docstring (cur :: following) 0 cur
      with
      | Raise e => (cur :: following, Raise e)
      | Return (end_line, new_lines) =>
          let (out, r) :=
            rewrap_rest max_length is_docstring fuel
              (skipn end_line (cur :: following)) true in
          (new_lines ++ out, r)
      end.
Proof. reflexivity. Qed.

Lemma left_alone_empty : (0 <= max_length)%Z -> left_alone max_length [] = true.
Proof.
  intros P. unfold left_alone. apply orb_true_iff. left.
  apply Z.leb_le. exact P.
Qed.

(** An empty line ends the paragraph before it and is never part of the
    one after it: the loop on [a ++ [] :: b] is the loop on [a], the empty
    line, and the loop on [b]. *)
Lemma rewrap_rest_blank (fuel : nat) :
  forall a b modified,
    (0 <= max_length)%Z ->
    length (a ++ [] :: b) <= fuel ->
    rewrap_rest max_length is_docstring fuel (a ++ [] :: b) modified
    = match rewrap_rest max_length is_docstring fuel a modified with
      | (out1, Return m1) =>
          let (out2, r2) :=
            rewrap_rest max_length is_docstring fuel b m1 in
          (out1 ++ [] :: out2, r2)
      | (out1, Raise e) => (out1 ++ [] :: b, Raise e)
      end.
Proof.
  induction fuel as [|fuel IH]; intros a b modified Pos F.
  - rewrite length_app in F. simpl in F. lia.
  - rewrite length_app in F. simpl in F.
    assert (Fb : forall m,
               rewrap_rest max_length is_docstring (S fuel) b m
               = rewrap_rest max_length is_docstring fuel b m).
    { intros m. replace (S fuel) with (fuel + 1) by lia.
      apply rewrap_rest_fuel. unfold str. lia. }
    destruct a as [|cur a].
    + cbn [app].
      change (rewrap_rest max_length is_docstring (S fuel) [] modified)
        with (@nil str, @Return bool modified).
      cbv iota beta. rewrite Fb.
      cbn [rewrap_rest]. rewrite (left_alone_empty Pos).
      reflexivity.
    + cbn [app]. rewrite !rewrap_rest_cons.
      destruct (left_alone max_length cur).
      * rewrite IH
          by (try assumption; rewrite length_app; simpl in *;
              unfold str in *; lia).
        destruct (rewrap_rest max_length is_docstring fuel a modified)
          as [out1 [m1|e]]; [|reflexivity].
        rewrite Fb.
        now destruct (rewrap_rest max_length is_docstring fuel b m1).
      * rewrite reflow_paragraph_blank. unfold str in *.
        destruct (reflow_paragraph max_length is_docstring (cur :: a) 0 cur)
          as [[end_line new_lines]|e] eqn:P; [|reflexivity].
        apply reflow_paragraph_spec in P
          as (indent & marker & r0 & _ & E & Le & _).
        cbv zeta in E, Le. subst end_line. unfold str in *.
        set (k := paragraph_lines is_docstring cur
                    (indent ++ repeat 32%N (length marker)) a) in *.
        cbn [Nat.add skipn]. rewrite skipn_app.
        replace (k - length a) with 0 by lia. cbn [skipn].
        rewrite IH;
          [|assumption
           |rewrite length_app, length_skipn; simpl in *;
            unfold str in *; lia].
        destruct (rewrap_rest max_length is_docstring fuel (skipn k a) true)
          as [out1 [m1|e]]; [|now rewrite <- app_assoc].
        rewrite Fb.
        destruct (rewrap_rest max_length is_docstring fuel b m1).
        now rewrite <- app_assoc.
Qed.

End Boundaries.

Lemma reflow_paragraph_colon (max_length : Z) (is_docstring : bool)
  (cur : str) (following : list str) :
  endswith (rstrip cur) colon = true ->
  reflow_paragraph max_length is_docstring (cur :: following) 0 cur
  = match reflow_paragraph max_length is_docstring [cur] 0 cur with
    | Return (_, new_lines) => Return (1, new_lines)
    | Raise e => Raise e
    end.
Proof.
  intros C. unfold reflow_paragraph.
  destruct (Re.match_indent is_docstring cur) as [[[indent marker] r0]|];
    [|reflexivity].
  rewrite C. change (slice (cur :: following) 0 (0 + 1)) with [cur].
  change (slice [cur] 0 (0 + 1)) with [cur].
  now destruct (Textwrap.wrap _ _ _ _).
Qed.

(** X16: an empty line separates paragraphs.  For a width that is not
    negative, [rewrap_text] on lines that hold an empty line gives the
    result of [rewrap_text] on the lines before it, the empty line, and the
    result on the lines after it; the flag is the disjunction of the two
    flags, and an exception of the first part leaves the rest as it was. *)
Theorem rewrap_text_empty_line_separates (max_length : Z)
  (is_docstring : bool) (a b : list str) :
  (0 <= max_length)%Z ->
  rewrap_text max_length is_docstring (a ++ [] :: b)
  = match rewrap_text max_length is_docstring a with
    | (out1, Return m1) =>
        let (out2, r2) := rewrap_text max_length is_docstring b in
        (out1 ++ [] :: out2,
         match r2 with
         | Return m2 => Return (m1 || m2)
         | Raise e => Raise e
         end)
    | (out1, Raise e) => (out1 ++ [] :: b, Raise e)
    end.
Proof.
  intros Pos. rewrite !rewrap_text_rest.
  rewrite rewrap_rest_blank by (exact Pos || apply Nat.le_refl).
  rewrite (rewrap_rest_enough max_length is_docstring
             (length (a ++ [] :: b)) a false)
    by (rewrite length_app; lia).
  destruct (rewrap_rest max_length is_docstring (length a) a false)
    as [out1 [m1|e]]; [|reflexivity].
  rewrite (rewrap_rest_enough max_length is_docstring
             (length (a ++ [] :: b)) b m1)
    by (rewrite length_app; simpl; lia).
  rewrite rewrap_rest_modified.
  now destruct (rewrap_rest max_length is_docstring (length b) b false).
Qed.

Lemma rewrap_text_empty_line_separates_witness :
  rewrap_text 10 true ([lit "aaaa bbbb cc"] ++ [] :: [lit "dddd eeee ff"])
  = match rewrap_text 10 true [lit "aaaa bbbb cc"] with
    | (out1, Return m1) =>
        let (out2, r2) := rewrap_text 10 true [lit "dddd eeee ff"] in
        (out1 ++ [] :: out2,
         match r2 with
         | Return m2 => Return (m1 || m2)
         | Raise e => Raise e
         end)
    | (out1, Raise e) => (out1 ++ [] :: [lit "dddd eeee ff"], Raise e)
    end.
Proof.
  apply (rewrap_text_empty_line_separates 10 true [lit "aaaa bbbb cc"]
           [lit "dddd eeee ff"]).
  lia.
Defined.

(** X17: an overlong line that ends with a colon is a paragraph of its
    own.  [rewrap_text] on such a line followed by other lines gives the
    wrapped line followed by the result of [rewrap_text] on the other
    lines, and returns True; the lines that follow are never filled into
    it. *)
Theorem rewrap_text_colon_line_alone (max_length : Z) (is_docstring : bool)
  (cur : str) (following : list str) :
  left_alone max_length cur = false ->
  endswith (rstrip cur) colon = true ->
  rewrap_text max_length is_docstring (cur :: following)
  = match rewrap_text max_length is_docstring [cur] with
    | (new_lines, Return _) =>
        let (out, r) := rewrap_text max_length is_docstring following in
        (new_lines ++ out,
         match r with
         | Return _ => Return true
         | Raise e => Raise e
         end)
    | (_, Raise e) => (cur :: following, Raise e)
    end.
Proof.
  intros L C. rewrite !rewrap_text_rest. cbn [length].
  rewrite !rewrap_rest_cons, L.
  rewrite (reflow_paragraph_colon max_length is_docstring cur following C).
  destruct (reflow_paragraph max_length is_docstring [cur] 0 cur)
    as [[end_line new_lines]|e] eqn:P; [|reflexivity].
  apply reflow_paragraph_spec in P as (indent & marker & r0 & _ & E & _).
  cbv zeta in E. unfold paragraph_lines in E. rewrite C in E. subst end_line.
  cbn [Nat.add skipn rewrap_rest]. rewrite app_nil_r.
  rewrite rewrap_rest_modified.
  now destruct (rewrap_rest max_length is_docstring (length following)
                  following false) as [out [b|e]].
Qed.

Lemma rewrap_text_colon_line_alone_witness :
  rewrap_text 12 true [lit "aaaa bbbb cc:"; lit "dd"]
  = match rewrap_text 12 true [lit "aaaa bbbb cc:"] with
    | (new_lines, Return _) =>
        let (out, r) := rewrap_text 12 true [lit "dd"] in
        (new_lines ++ out,
         match r with
         | Return _ => Return true
         | Raise e => Raise e
         end)
    | (_, Raise e) => ([lit "aaaa bbbb cc:"; lit "dd"], Raise e)
    end.
Proof.
  apply (rewrap_text_colon_line_alone 12 true (lit "aaaa bbbb cc:")
           [lit "dd"]);
    reflexivity.
Defined.

(** ** The flag and the lines of [process_content] *)

Lemma process_docstrings_flag (max_length : Z) (force_triple_quotes : bool)
  (locs : list (nat * nat)) :
  forall lines modified lines' b,
    process_docstrings max_length force_triple_quotes locs lines modified
    = Return (lines', b) ->
    (modified = true -> b = true) /\ (b = false -> lines' = lines).
Proof.
  induction locs as [|[start_line end_line] locs IH];
    intros lines modified lines' b H.
  - inversion H; subst. split; [auto | reflexivity].
  - cbn [process_docstrings] in H.
    destruct (process_docstring max_length force_triple_quotes
                (slice lines start_line end_line)) as [dl [[|]|e]];
      [| |discriminate].
    + apply IH in H as [T _]. specialize (T eq_refl). subst b.
      split; [reflexivity | discriminate].
    + now apply IH in H.
Qed.

Lemma scan_comments_flag (max_length : Z) (fuel : nat) :
  forall lines lineno modified lines' b,
    scan_comments max_length fuel lines lineno modified
    = Some (Return (lines', b)) ->
    (modified = true -> b = true) /\ (b = false -> lines' = lines).
Proof.
  induction fuel as [|fuel IH]; intros lines lineno modified lines' b H;
    [discriminate|].
  cbn [scan_comments] in H.
  destruct (nth_error lines lineno) as [cur|];
    [|inversion H; subst; split; [auto | reflexivity]].
  destruct ((lineno =? 0) && startswith cur (lit "#!"));
    [now apply IH in H|].
  destruct (is_comment_line cur); [|now apply IH in H].
  set (end_line := lineno + 1 + comment_run (skipn (lineno + 1) lines)) in *.
  destruct (existsb (too_long max_length) (slice lines lineno end_line));
    [|now apply IH in H].
  destruct (rewrap_text max_length false (slice lines lineno end_line))
    as [cl [[|]|e]]; [|now apply IH in H|discriminate].
  apply IH in H as [T _]. specialize (T eq_refl). subst b.
  split; [reflexivity | discriminate].
Qed.

(** X18: no change is lost.  When [process_content] returns with the
    flag False, the lines it returns are the lines of the content: every
    replacement of lines by either pass sets the flag, so that
    [process_file] writes the file whenever the lines differ. *)
Theorem process_content_unmodified
  (docstring_locs : str -> outcome (list (nat * nat))) (scan_bound : nat)
  (max_length : Z) (force_triple_quotes : bool) (content : str)
  (wrap_comments wrap_docstrings : bool) (lines' : list str) :
  process_content docstring_locs scan_bound max_length force_triple_quotes
    content wrap_comments wrap_docstrings
  = Some (Return (lines', false)) ->
  lines' = splitlines content.
Proof.
  unfold process_content. intros H.
  set (lines := splitlines content) in *.
  assert (D : forall r l m,
             (if wrap_docstrings then
                match docstring_locs content with
                | Raise e => Raise e
                | Return locs =>
                    process_docstrings max_length force_triple_quotes
                      (sorted_reverse locs) lines false
                end
              else Return (lines, false)) = r ->
             r = Return (l, m) -> m = false -> l = lines).
  { intros r l m E R M. subst r. destruct wrap_docstrings.
    - destruct (docstring_locs content) as [locs|e]; [|discriminate].
      apply process_docstrings_flag in R as [_ U]. now apply U.
    - now inversion R. }
  destruct (if wrap_docstrings then _ else _) as [[l m]|e] eqn:A;
    [|discriminate].
  specialize (D _ l m eq_refl eq_refl).
  destruct wrap_comments.
  - apply scan_comments_flag in H as [T U]. specialize (U eq_refl). subst.
    destruct m; [specialize (T eq_refl); discriminate T|].
    now apply D.
  - inversion H; subst. now apply D.
Qed.

Lemma process_content_unmodified_witness :
  [lit "x = 1"; lit "# short"]
  = splitlines (lit "x = 1" ++ 10%N :: lit "# short").
Proof.
  apply (process_content_unmodified no_docstrings 4 79 false
           (lit "x = 1" ++ 10%N :: lit "# short") true true
           [lit "x = 1"; lit "# short"]).
  vm_compute. reflexivity.
Defined.

(** ** The result of [ensure_docstring_triple_quotes] is canonical *)

Lemma quote_body_inv (s d r : str) :
  Re.quote_body s = Some (d, r) ->
  s = d ++ r
  /\ (d = triple_double \/ d = triple_single \/ d = [34%N] \/ d = [39%N]).
Proof.
  unfold Re.quote_body. intros H.
  destruct (startswith s triple_double) eqn:A.
  { inversion H; subst. split; [now apply startswith_inv in A | auto]. }
  destruct (startswith s triple_single) eqn:B.
  { inversion H; subst. split; [now apply startswith_inv in B | auto]. }
  destruct (startswith s [34%N]) eqn:C.
  { inversion H; subst. split; [now apply startswith_inv in C | auto]. }
  destruct (startswith s [39%N]) eqn:D; [|discriminate].
  inversion H; subst. split; [now apply startswith_inv in D | auto].
Qed.

Lemma match_quote_inv (s quote r : str) :
  Re.match_quote s = Some (quote, r) ->
  exists raw d,
    quote = raw ++ d /\ s = raw ++ d ++ r
    /\ (raw = [] \/ raw = letter_r)
    /\ (d = triple_double \/ d = triple_single \/ d = [34%N] \/ d = [39%N]).
Proof.
  unfold Re.match_quote. intros H.
  destruct (startswith s letter_r) eqn:R.
  - destruct (Re.quote_body (skipn 1 s)) as [[q r']|] eqn:Q; [|discriminate].
    inversion H; subst. apply quote_body_inv in Q as [E D].
    exists letter_r, q. repeat split; auto.
    apply startswith_inv in R. rewrite R at 1. simpl length.
    now rewrite E.
  - apply quote_body_inv in H as [E D]. exists [], quote. auto.
Qed.

Lemma has_newline_app (a b : str) :
  has_newline (a ++ b) = has_newline a || has_newline b.
Proof. apply existsb_app. Qed.

Lemma has_newline_removelast (s : str) :
  has_newline s = false -> has_newline (removelast s) = false.
Proof.
  induction s as [|c [|d t] IH]; [reflexivity | reflexivity |].
  intros H. change (has_newline (c :: d :: t))
    with ((10 =? c)%N || has_newline (d :: t)) in H.
  apply orb_false_iff in H as [C H].
  change (has_newline (removelast (c :: d :: t)))
    with ((10 =? c)%N || has_newline (removelast (d :: t))).
  rewrite C. now apply IH.
Qed.

Lemma rest_of_line_inv (s content : str) :
  rest_of_line s = Some content -> has_newline content = false.
Proof.
  unfold rest_of_line. destruct (has_newline s) eqn:N.
  - destruct (endswith s newline && negb (has_newline (removelast s)))
      eqn:E; [|discriminate].
    intros H. inversion H; subst.
    apply andb_true_iff in E as [_ E]. now apply negb_true_iff in E.
  - intros H. now inversion H; subst.
Qed.

Lemma has_newline_firstn (n : nat) (s : str) :
  has_newline s = false -> has_newline (firstn n s) = false.
Proof.
  intros H. rewrite <- (firstn_skipn n s), has_newline_app in H.
  now apply orb_false_iff in H as [H _].
Qed.

Lemma has_newline_rstrip (s : str) :
  has_newline s = false -> has_newline (rstrip s) = false.
Proof.
  intros H. destruct (rstrip_split s) as (trail & E & _).
  rewrite E, has_newline_app in H. now apply orb_false_iff in H as [H _].
Qed.

(** Trailing whitespace is stripped up to the last character that is not
    whitespace. *)
Lemma rstrip_after (x : str) (c : char) (s : str) :
  isspace c = false -> rstrip (x ++ c :: s) = x ++ c :: rstrip s.
Proof.
  intros C. unfold rstrip.
  replace (rev (x ++ c :: s)) with ((rev s ++ [c]) ++ rev x)
    by (rewrite rev_app_distr; simpl; reflexivity).
  assert (L : lstrip (rev s ++ [c]) = lstrip (rev s) ++ [c]).
  { destruct (lstrip (rev s)) as [|k t] eqn:E.
    - rewrite lstrip_app_space by now apply lstrip_nil_all_space.
      now apply lstrip_no_space.
    - rewrite lstrip_app_nonempty by congruence. now rewrite E. }
  rewrite lstrip_app_nonempty
    by (rewrite L; destruct (lstrip (rev s)); discriminate).
  rewrite L, !rev_app_distr, rev_involutive. reflexivity.
Qed.

(** Cutting a closing delimiter of one or three characters off a line
    that starts with the canonical opening, and putting the canonical
    closing, leaves the canonical opening in place. *)
Lemma drop_end_keeps_opening (p t : str) (k : nat) :
  k = 1 \/ k = 3 ->
  has_newline t = false ->
  exists content,
    drop_end k (p ++ triple_double ++ t) ++ triple_double
    = p ++ triple_double ++ content
    /\ has_newline content = false.
Proof.
  intros K N. unfold drop_end. rewrite !length_app.
  change (length triple_double) with 3.
  destruct (Nat.le_gt_cases k (length t)) as [Le|Gt].
  - exists (firstn (length t - k) t ++ triple_double). split.
    + replace (length p + (3 + length t) - k)
        with (length p + (3 + (length t - k))) by lia.
      rewrite firstn_app_2.
      change (triple_double ++ t) with ([34; 34; 34]%N ++ t).
      change (3 + (length t - k)) with (length [34; 34; 34]%N + (length t - k)).
      rewrite firstn_app_2. now rewrite <- !app_assoc.
    + rewrite has_newline_app, has_newline_firstn by exact N. reflexivity.
  - exists (repeat 34%N (3 + length t - k)). split.
    + replace (length p + (3 + length t) - k)
        with (length p + (3 + length t - k)) by lia.
      rewrite firstn_app_2, <- app_assoc. f_equal.
      destruct K as [-> | ->].
      * destruct t as [|a t]; [reflexivity | simpl in Gt; lia].
      * destruct t as [|a [|b [|c t]]]; try reflexivity.
        simpl in Gt. lia.
    + destruct K as [-> | ->].
      * destruct t as [|a t]; [reflexivity | simpl in Gt; lia].
      * destruct t as [|a [|b [|c t]]]; try reflexivity.
        simpl in Gt. lia.
Qed.

Lemma ensure_canonical_first (indent raw content : str) (rest : list str) :
  all_space indent = true ->
  raw = [] \/ raw = letter_r ->
  has_newline content = false ->
  ensure_docstring_triple_quotes
    ((indent ++ raw ++ triple_double ++ content) :: rest)
  = ((indent ++ raw ++ triple_double ++ content) :: rest, Return false).
Proof.
  intros A R N. unfold ensure_docstring_triple_quotes.
  rewrite (match_docstring_start_spec indent raw triple_double content A R
             (quote_body_triple_double content) N).
  now replace (is_canonical (raw ++ triple_double)) with true
    by (destruct R as [-> | ->]; reflexivity).
Qed.

(** The first line is canonical already exactly when False is returned,
    and then nothing is assigned. *)
Lemma ensure_unchanged (lines out : list str) :
  ensure_docstring_triple_quotes lines = (out, Return false) ->
  out = lines
  /\ exists first rest indent quote content,
      lines = first :: rest
      /\ match_docstring_start first = Some (indent, quote, content)
      /\ is_canonical quote = true.
Proof.
  intros H. destruct lines as [|first rest]; [discriminate|].
  unfold ensure_docstring_triple_quotes in H.
  destruct (match_docstring_start first) as [[[indent quote] content]|] eqn:M;
    [|discriminate].
  destruct (is_canonical quote) eqn:Cn.
  - inversion H; subst. split; [reflexivity|].
    exists first, rest, indent, quote, content. auto.
  - destruct (negb _); discriminate.
Qed.

(** After a conversion the first line is made of the indent, the raw
    flag, the canonical opening and a text. *)
Lemma ensure_converted (lines out : list str) :
  ensure_docstring_triple_quotes lines = (out, Return true) ->
  exists indent raw content rest,
    out = (indent ++ raw ++ triple_double ++ content) :: rest
    /\ all_space indent = true
    /\ (raw = [] \/ raw = letter_r)
    /\ has_newline content = false.
Proof.
  intros H. destruct lines as [|first rest]; [discriminate|].
  unfold ensure_docstring_triple_quotes in H.
  destruct (match_docstring_start first) as [[[indent quote] content]|] eqn:M;
    [|discriminate].
  destruct (is_canonical quote) eqn:Cn; [discriminate|].
  unfold match_docstring_start in M.
  destruct (Re.spaces first) as [w r] eqn:S.
  destruct (Re.match_quote r) as [[q r']|] eqn:Q; [|discriminate].
  destruct (rest_of_line r') as [c|] eqn:L; [|discriminate].
  inversion M; subst w q c. clear M.
  apply spaces_spec in S as (_ & A & _).
  apply match_quote_inv in Q as (raw & d & Eq & _ & R & D).
  apply rest_of_line_inv in L.
  assert (Raw : (if startswith quote letter_r then letter_r else []) = raw).
  { subst quote.
    destruct R as [-> | ->], D as [->|[->|[-> | ->]]]; reflexivity. }
  assert (K : length (lstrip_r quote) = 1 \/ length (lstrip_r quote) = 3).
  { subst quote.
    destruct R as [-> | ->], D as [->|[->|[-> | ->]]]; simpl; auto. }
  rewrite Raw in H.
  destruct (negb (endswith (rstrip (last (first :: rest) []))
                    (lstrip_r quote))); [discriminate|].
  inversion H; subst out. clear H.
  cbn [set_first]. destruct rest as [|second rest].
  - cbn [last]. unfold set_last. cbn [removelast app].
    assert (E0 : rstrip (indent ++ raw ++ 34%N :: 34%N :: 34%N :: content)
                 = (indent ++ raw) ++ triple_double ++ rstrip content).
    { replace (indent ++ raw ++ 34%N :: 34%N :: 34%N :: content)
        with ((indent ++ raw ++ [34; 34]%N) ++ 34%N :: content)
        by now rewrite <- !app_assoc.
      rewrite rstrip_after by reflexivity. now rewrite <- !app_assoc. }
    destruct (drop_end_keeps_opening (indent ++ raw) (rstrip content)
                (length (lstrip_r quote)) K (has_newline_rstrip _ L))
      as (content' & E & N).
    unfold str, char in *. rewrite E0, E, <- app_assoc.
    exists indent, raw, content', []. auto.
  - unfold set_last.
    change (removelast
              ((indent ++ raw ++ 34%N :: 34%N :: 34%N :: content)
                 :: second :: rest))
      with ((indent ++ raw ++ triple_double ++ content)
              :: removelast (second :: rest)).
    rewrite <- app_comm_cons. eexists indent, raw, content, _. eauto.
Qed.

(** X19: the quote normaliser is idempotent.  Whenever
    [ensure_docstring_triple_quotes] returns, the lines it leaves start
    with a canonical opening: a second call returns False and changes
    nothing. *)
Theorem ensure_result_is_canonical (lines out : list str) (b : bool) :
  ensure_docstring_triple_quotes lines = (out, Return b) ->
  ensure_docstring_triple_quotes out = (out, Return false).
Proof.
  intros H. destruct b.
  - apply ensure_converted in H as (indent & raw & content & rest & -> & A
                                    & R & N).
    now apply ensure_canonical_first.
  - destruct (ensure_unchanged _ _ H) as [-> _]. exact H.
Qed.

Lemma ensure_result_is_canonical_witness :
  ensure_docstring_triple_quotes
    [lit "  r" ++ triple_double ++ lit "Raw text" ++ triple_double]
  = ([lit "  r" ++ triple_double ++ lit "Raw text" ++ triple_double],
     Return false).
Proof.
  apply (ensure_result_is_canonical [lit "  r'Raw text'   "]
           [lit "  r" ++ triple_double ++ lit "Raw text" ++ triple_double]
           true).
  vm_compute. reflexivity.
Defined.

(** ** A line without text *)

Lemma wrap_empty (width : Z) (initial_indent subsequent_indent : str) :
  (0 < width)%Z ->
  Textwrap.wrap width initial_indent subsequent_indent [] = Return [].
Proof.
  intros W. unfold Textwrap.wrap, Textwrap.wrap_chunks.
  destruct (width <=? 0)%Z eqn:E; [apply Z.leb_le in E; lia|].
  reflexivity.
Qed.

Lemma paragraph_extent_other (is_docstring : bool) (prefix : str)
  (following : list str) :
  (forall next rest,
      following = next :: rest -> startswith next prefix = false) ->
  paragraph_extent is_docstring prefix following = 0.
Proof.
  intros H. destruct following as [|next rest]; [reflexivity|].
  cbn [paragraph_extent]. now rewrite (H next rest eq_refl).
Qed.

(** X20: a line that is too long and holds nothing after its indent and
    list marker is removed.  When the next line does not continue the
    paragraph prefix, [rewrap_text] gives the result for the lines that
    follow, without the line, and returns True: [textwrap.wrap] returns no
    line for an empty paragraph. *)
Theorem rewrap_text_drops_line_without_text (max_length : Z)
  (is_docstring : bool) (line indent marker : str) (following : list str) :
  (0 < max_length)%Z ->
  left_alone max_length line = false ->
  Re.match_indent is_docstring line = Some (indent, marker, []) ->
  (forall next rest,
      following = next :: rest ->
      startswith next (indent ++ repeat 32%N (length marker)) = false) ->
  rewrap_text max_length is_docstring (line :: following)
  = let (out, r) := rewrap_text max_length is_docstring following in
    (out, match r with
          | Return _ => Return true
          | Raise e => Raise e
          end).
Proof.
  intros W L M O. rewrite !rewrap_text_rest. cbn [length].
  rewrite rewrap_rest_cons, L.
  assert (R : reflow_paragraph max_length is_docstring (line :: following)
                0 line = Return (1, [])).
  { unfold reflow_paragraph. rewrite M. cbn [skipn Nat.add].
    rewrite (paragraph_extent_other is_docstring _ following O).
    replace (if endswith (rstrip line) colon then 1 else 1) with 1
      by now destruct (endswith (rstrip line) colon).
    change (slice (line :: following) 0 1) with [line].
    cbn [map join].
    apply match_indent_spec in M as (E & _).
    replace (skipn (length (indent ++ repeat 32%N (length marker))) line)
      with (@nil char).
    - now rewrite wrap_empty.
    - symmetry. apply skipn_all2.
      rewrite E, !length_app, repeat_length. simpl. lia. }
  rewrite R. cbn [skipn app]. rewrite rewrap_rest_modified.
  now destruct (rewrap_rest max_length is_docstring (length following)
                  following false) as [out [b|e]].
Qed.

Lemma rewrap_text_drops_line_without_text_witness :
  rewrap_text 10 false [lit "#           "; lit "x = 1"]
  = let (out, r) := rewrap_text 10 false [lit "x = 1"] in
    (out, match r with
          | Return _ => Return true
          | Raise e => Raise e
          end).
Proof.
  apply (rewrap_text_drops_line_without_text 10 false (lit "#           ")
           (lit "#           ") []).
  - lia.
  - reflexivity.
  - reflexivity.
  - intros next rest E. inversion E; subst. reflexivity.
Defined.

(** ** The assertions of [process_docstring] *)

Lemma is_canonical_inv (quote : str) :
  is_canonical quote = true ->
  quote = triple_double \/ quote = letter_r ++ triple_double.
Proof.
  unfold is_canonical, str_eqb. intros H.
  destruct (list_eq_dec N.eq_dec quote triple_double) as [E|_]; [now left|].
  destruct (list_eq_dec N.eq_dec quote (letter_r ++ triple_double)) as [E|_];
    [now right | discriminate].
Qed.

Lemma opening_of_start (line indent quote content : str) :
  match_docstring_start line = Some (indent, quote, content) ->
  match_opening_quote line = Some quote.
Proof.
  unfold match_docstring_start, match_opening_quote.
  destruct (Re.spaces line) as [w r]. simpl snd.
  destruct (Re.match_quote r) as [[q r']|]; [|discriminate].
  destruct (rest_of_line r'); [|discriminate].
  intros H. now inversion H.
Qed.

Lemma ensure_raises (lines out : list str) (e : exn) :
  ensure_docstring_triple_quotes lines = (out, Raise e) ->
  e <> AssertionError.
Proof.
  unfold ensure_docstring_triple_quotes.
  destruct lines as [|first rest]; [intros H; inversion H; discriminate|].
  destruct (match_docstring_start first) as [[[indent quote] content]|];
    [|intros H; inversion H; discriminate].
  destruct (is_canonical quote); [discriminate|].
  destruct (negb _); [intros H; inversion H; discriminate | discriminate].
Qed.

Lemma ensure_opening (lines out : list str) (b : bool) :
  ensure_docstring_triple_quotes lines = (out, Return b) ->
  exists first rest quote,
    out = first :: rest
    /\ match_opening_quote first = Some quote
    /\ is_canonical quote = true.
Proof.
  intros H. destruct b.
  - apply ensure_converted in H as (indent & raw & content & rest & -> & A
                                    & R & N).
    exists (indent ++ raw ++ triple_double ++ content), rest,
      (raw ++ triple_double).
    split; [reflexivity|]. split.
    + apply match_opening_quote_spec; auto.
    + destruct R as [-> | ->]; reflexivity.
  - apply ensure_unchanged in H
      as (-> & first & rest & indent & quote & content & -> & M & C).
    exists first, rest, quote. split; [reflexivity|].
    split; [now apply opening_of_start in M | exact C].
Qed.

Lemma rewrap_rest_docstring_raises (max_length : Z) (fuel : nat) :
  forall rest modified out e,
    rewrap_rest max_length true fuel rest modified = (out, Raise e) ->
    e <> AssertionError.
Proof.
  induction fuel as [|fuel IH]; intros rest modified out e H;
    [discriminate|].
  destruct rest as [|cur following]; [discriminate|].
  rewrite rewrap_rest_cons in H. destruct (left_alone max_length cur).
  - destruct (rewrap_rest max_length true fuel following modified)
      as [out' [b|e']] eqn:R; [discriminate|].
    inversion H; subst. now apply IH in R.
  - destruct (reflow_paragraph max_length true (cur :: following) 0 cur)
      as [[end_line new_lines]|e'] eqn:P.
    + destruct (rewrap_rest max_length true fuel
                  (skipn end_line (cur :: following)) true)
        as [out' [b|e'']] eqn:R; [discriminate|].
      inversion H; subst. now apply IH in R.
    + inversion H; subst. unfold reflow_paragraph in P.
      destruct (match_indent_docstring cur) as (indent & marker & r0 & M).
      rewrite M in P. unfold Textwrap.wrap, Textwrap.wrap_chunks in P.
      destruct (max_length <=? 0)%Z; [|discriminate].
      inversion P. discriminate.
Qed.

Lemma reflow_docstring_assertion (max_length : Z) (modified : bool)
  (lines out : list str) (P : Prop) :
  reflow_docstring max_length modified lines = (out, Raise AssertionError) ->
  P.
Proof.
  unfold reflow_docstring, bind, get_lines, ret. intros H. exfalso.
  destruct (existsb (fun line => (len line >? max_length)%Z) lines);
    [|discriminate].
  destruct (rewrap_text max_length true lines) as [o [c|e]] eqn:R;
    [discriminate|].
  inversion H; subst. rewrite rewrap_text_rest in R.
  now apply rewrap_rest_docstring_raises in R.
Qed.

(** X21: the only assertion of [process_docstring] that can fail is the
    one on the shape of a single-line docstring.  When [process_docstring]
    raises [AssertionError], the lines are one line that is too long and
    starts with a canonical opening, and that line does not end (before
    trailing whitespace) with the closing delimiter; the assertion on
    [end_quote] and the one of [rewrap_text] never fail. *)
Theorem process_docstring_assertion (max_length : Z) (force : bool)
  (lines out : list str) :
  process_docstring max_length force lines = (out, Raise AssertionError) ->
  exists line quote,
    out = [line]
    /\ (len line > max_length)%Z
    /\ match_opening_quote line = Some quote
    /\ is_canonical quote = true
    /\ match_single_line quote line = None.
Proof.
  unfold process_docstring, bind. intros H.
  destruct (normalize_quotes max_length force lines) as [l1 [m|e]] eqn:Nq.
  - assert (S : exists first rest,
               l1 = first :: rest
               /\ ((len first >? max_length)%Z = false
                   \/ exists q, match_opening_quote first = Some q
                                /\ is_canonical q = true)).
    { unfold normalize_quotes, bind, first_line, ret in Nq.
      destruct lines as [|first rest]; [discriminate|].
      destruct (force || (len first >? max_length)%Z) eqn:G.
      - apply ensure_opening in Nq as (f1 & r1 & q & -> & O & C). eauto 7.
      - inversion Nq; subst. apply orb_false_iff in G as [_ G]. eauto. }
    destruct S as (first & rest & -> & S).
    unfold split_single_line, bind, first_line, get_lines, set_lines, ret,
      raise in H.
    destruct (match_opening_quote first) as [quote|] eqn:O; [|discriminate].
    destruct ((length (first :: rest) =? 1) && (len first >? max_length)%Z)
      eqn:G.
    + apply andb_true_iff in G as [G1 G2].
      destruct S as [S|(q & Oq & C)]; [congruence|].
      inversion Oq; subst q.
      assert (A : negb (str_eqb
                          (if startswith quote letter_r then skipn 1 quote
                           else quote) triple_double) = false)
        by (destruct (is_canonical_inv _ C) as [E | E]; rewrite E;
            reflexivity).
      revert H. unfold str, char in *. rewrite A.
      destruct (match_single_line quote first) as [[indent content]|] eqn:Ms.
      * apply reflow_docstring_assertion.
      * intros H. inversion H; subst. destruct rest; [|discriminate G1].
        exists first, quote. repeat split; auto.
        apply Z.gtb_lt in G2. lia.
    + revert H. apply reflow_docstring_assertion.
  - inversion H; subst. exfalso.
    unfold normalize_quotes, bind, first_line, ret in Nq.
    destruct lines as [|first rest]; [discriminate|].
    destruct (force || (len first >? max_length)%Z); [|discriminate].
    now apply ensure_raises in Nq.
Qed.

Lemma process_docstring_assertion_witness :
  exists line quote,
    [lit "  " ++ triple_double ++ lit "Doc." ++ triple_double ++ lit " # x"]
    = [line]
    /\ (len line > 10)%Z
    /\ match_opening_quote line = Some quote
    /\ is_canonical quote = true
    /\ match_single_line quote line = None.
Proof.
  apply (process_docstring_assertion 10 false
           [lit "  " ++ triple_double ++ lit "Doc." ++ triple_double
            ++ lit " # x"]).
  vm_compute. reflexivity.
Defined.

(** * The comment scanner ends *)

(** ** The weight of a paragraph does not grow *)

Lemma rstrip_first (t : str) (c : char) (r : str) :
  rstrip t = c :: r -> exists r', t = c :: r'.
Proof.
  intros E. destruct (rstrip_split t) as (trail & S & _).
  rewrite E in S. exists (r ++ trail). exact S.
Qed.

(** The lines taken into a paragraph hold, after the prefix, a text that
    does not start with whitespace. *)
Lemma paragraph_extent_texts (is_docstring : bool) (prefix : str)
  (following : list str) :
  Forall (fun l => lstrip (skipn (length prefix) l) = skipn (length prefix) l)
    (firstn (paragraph_extent is_docstring prefix following) following).
Proof.
  induction following as [|next following IH]; [constructor|].
  cbn [paragraph_extent].
  destruct (startswith next prefix); [|constructor].
  destruct (rstrip (skipn (length prefix) next)) as [|c r] eqn:E;
    [constructor|].
  destruct (is_docstring
            && (str_eqb (strip (c :: r)) triple_double
                || str_eqb (strip (c :: r)) triple_single)); [constructor|].
  destruct (Re.starts_new_block (c :: r)) eqn:B; [constructor|].
  destruct (Re.noqa_search (c :: r)); [constructor|].
  assert (L : lstrip (skipn (length prefix) next)
              = skipn (length prefix) next).
  { destruct (rstrip_first _ _ _ E) as (r' & ->).
    apply lstrip_no_space. unfold Re.starts_new_block in B.
    apply orb_false_iff in B as [B _]. now apply orb_false_iff in B as [B _]. }
  destruct (endswith (c :: r) colon).
  - cbn [firstn]. constructor; [exact L | constructor].
  - cbn [firstn]. constructor; [exact L | exact IH].
Qed.

Lemma comment_text_indent (ws1 ws2 x : str) :
  all_space ws1 = true -> all_space ws2 = true ->
  comment_text ((ws1 ++ [35%N] ++ ws2) ++ x) = lstrip x.
Proof.
  intros A1 A2. unfold comment_text.
  rewrite <- !app_assoc, lstrip_app_space by exact A1.
  cbn [app]. rewrite lstrip_no_space by reflexivity.
  cbn [skipn]. now apply lstrip_app_space.
Qed.

Lemma total_weight_cons (l : str) (ls : list str) :
  total_weight (l :: ls) = line_weight l + total_weight ls.
Proof. reflexivity. Qed.

Lemma total_weight_padded (ws1 ws2 pad : str) (texts : list str) :
  all_space ws1 = true -> all_space ws2 = true -> all_space pad = true ->
  total_weight (map (app ((ws1 ++ [35%N] ++ ws2) ++ pad)) texts)
  <= length texts + list_sum (map text_weight texts).
Proof.
  intros A1 A2 Ap. induction texts as [|t ts IH]; [apply Nat.le_refl|].
  cbn [map length]. rewrite total_weight_cons. unfold line_weight.
  rewrite <- app_assoc, comment_text_indent, lstrip_app_space by assumption.
  pose proof (text_weight_lstrip t).
  replace (list_sum (text_weight t :: map text_weight ts))
    with (text_weight t + list_sum (map text_weight ts)) by reflexivity.
  lia.
Qed.

Lemma total_weight_texts (ws1 ws2 pad : str) (lines : list str) :
  all_space ws1 = true -> all_space ws2 = true -> all_space pad = true ->
  Forall (fun l => startswith l ((ws1 ++ [35%N] ++ ws2) ++ pad) = true)
    lines ->
  Forall (fun l =>
            lstrip (skipn (length ((ws1 ++ [35%N] ++ ws2) ++ pad)) l)
            = skipn (length ((ws1 ++ [35%N] ++ ws2) ++ pad)) l) lines ->
  total_weight lines
  = list_sum
      (map (fun x => S (text_weight x))
         (map (skipn (length ((ws1 ++ [35%N] ++ ws2) ++ pad))) lines)).
Proof.
  intros A1 A2 Ap Hs Hl. induction lines as [|l ls IH]; [reflexivity|].
  inversion Hs as [|? ? Sl Ss]; inversion Hl as [|? ? Ll Ls]; subst.
  cbn [map]. rewrite total_weight_cons, (IH Ss Ls).
  set (n := length ((ws1 ++ [35%N] ++ ws2) ++ pad)) in *.
  set (tail := list_sum (map (fun x => S (text_weight x)) (map (skipn n) ls))).
  change (line_weight l + tail = S (text_weight (skipn n l)) + tail).
  f_equal. unfold line_weight. f_equal. f_equal.
  apply startswith_inv in Sl. fold n in Sl. rewrite Sl at 1.
  rewrite <- app_assoc, comment_text_indent, lstrip_app_space by assumption.
  exact Ll.
Qed.

(** In comment mode the lines that replace a paragraph weigh no more
    than the paragraph. *)
Lemma reflow_paragraph_weight (max_length : Z) (cur : str)
  (following : list str) (end_line : nat) (new_lines : list str) :
  reflow_paragraph max_length false (cur :: following) 0 cur
  = Return (end_line, new_lines) ->
  total_weight new_lines <= total_weight (firstn end_line (cur :: following)).
Proof.
  intros H. apply reflow_paragraph_spec in H
    as (indent & marker & r0 & M & E & Le & Pre & W).
  cbv zeta in E, Le, Pre, W.
  pose proof (match_indent_marker _ _ _ _ _ M) as Mk.
  apply match_indent_spec in M
    as (Ec & Lm & _ & ws1 & ws2 & -> & A1 & A2).
  unfold str, char in *.
  set (pad := repeat 32%N (length marker)) in *.
  set (prefix := (ws1 ++ [35%N] ++ ws2) ++ pad) in *.
  set (k := paragraph_lines false cur prefix following) in *.
  assert (Ap : all_space pad = true) by apply all_space_repeat.
  apply wrap_account in W as (texts' & -> & B).
  assert (T0 : skipn (length prefix) cur = r0).
  { assert (Len : length prefix = length ((ws1 ++ [35%N] ++ ws2) ++ marker))
      by (unfold prefix, pad; now rewrite !length_app, repeat_length).
    rewrite Len.
    transitivity (skipn (length ((ws1 ++ [35%N] ++ ws2) ++ marker))
                    (((ws1 ++ [35%N] ++ ws2) ++ marker) ++ r0));
      [|apply skipn_app_exact].
    f_equal. rewrite <- app_assoc. exact Ec. }
  cbn [map] in B. rewrite T0 in B.
  assert (Txt : Forall (fun l => lstrip (skipn (length prefix) l)
                                 = skipn (length prefix) l)
                  (firstn k following)).
  { unfold k, paragraph_lines.
    destruct (endswith (rstrip cur) colon); [constructor|].
    apply paragraph_extent_texts. }
  subst end_line. cbn [Nat.add firstn]. rewrite total_weight_cons.
  rewrite (total_weight_texts ws1 ws2 pad _ A1 A2 Ap Pre Txt).
  assert (Old : line_weight cur = S (text_weight marker + text_weight r0)).
  { unfold line_weight. rewrite Ec at 1.
    now rewrite comment_text_indent, Lm, text_weight_app by assumption. }
  rewrite Old. unfold prefix in *.
  set (TS := map (skipn (length ((ws1 ++ [35%N] ++ ws2) ++ pad)))
               (firstn k following)) in *.
  assert (J : S (text_weight (join newline (r0 :: TS)))
              = S (text_weight r0)
                + list_sum (map (fun x => S (text_weight x)) TS))
    by (rewrite text_weight_join; reflexivity).
  destruct texts' as [|t' ts']; [cbn; lia|].
  cbn [prefixed]. rewrite total_weight_cons.
  assert (New0 : line_weight (((ws1 ++ [35%N] ++ ws2) ++ marker) ++ t')
                 <= S (text_weight marker + text_weight t')).
  { unfold line_weight. rewrite <- app_assoc, comment_text_indent
      by assumption.
    pose proof (text_weight_lstrip (marker ++ t')).
    rewrite text_weight_app in *. lia. }
  pose proof (total_weight_padded ws1 ws2 pad ts' A1 A2 Ap) as NewR.
  cbn [length map] in B.
  pose (x := line_weight (((ws1 ++ [35%N] ++ ws2) ++ marker) ++ t')).
  pose (y := total_weight (map (app ((ws1 ++ [35%N] ++ ws2) ++ pad)) ts')).
  pose (z := list_sum (map (fun x => S (text_weight x)) TS)).
  pose (u := list_sum (map text_weight ts')).
  pose (v := text_weight (join newline (r0 :: TS))).
  change (x + y <= S (text_weight marker + text_weight r0) + z).
  assert (B' : S (length ts') + (text_weight t' + u) <= S v) by exact B.
  assert (J' : S v = S (text_weight r0) + z) by exact J.
  assert (N0 : x <= S (text_weight marker + text_weight t')) by exact New0.
  assert (NR : y <= length ts' + u) by exact NewR.
  clearbody x y z u v. lia.
Qed.

(** ** The weight behind the scanner decreases *)

Lemma total_weight_skipn_lines (d : nat) (ls : list str) :
  d <= length ls -> d + total_weight (skipn d ls) <= total_weight ls.
Proof.
  intros L. rewrite <- (firstn_skipn d ls) at 2. rewrite total_weight_app.
  pose proof (total_weight_length (firstn d ls)) as F.
  rewrite length_firstn in F. lia.
Qed.

(** In comment mode the result of the loop weighs no more than its
    input and, where it has more lines, the lines beyond the length of
    the input weigh less than the input. *)
Lemma rewrap_rest_weight (max_length : Z) (fuel : nat) :
  forall rest modified out b,
    rewrap_rest max_length false fuel rest modified = (out, Return b) ->
    total_weight out <= total_weight rest
    /\ forall d, length rest <= d -> d < length out ->
                 total_weight (skipn d out) < total_weight rest.
Proof.
  induction fuel as [|fuel IH]; intros rest modified out b H.
  - simpl in H. inversion H; subst. split; [apply Nat.le_refl | lia].
  - destruct rest as [|cur following].
    { simpl in H. inversion H; subst. split; [apply Nat.le_refl|].
      simpl. lia. }
    rewrite rewrap_rest_cons in H. destruct (left_alone max_length cur).
    + destruct (rewrap_rest max_length false fuel following modified)
        as [out' [b'|e]] eqn:R; [|discriminate].
      inversion H; subst out b'. destruct (IH _ _ _ _ R) as [T1 T2].
      rewrite !total_weight_cons. split; [lia|].
      intros d L1 L2. destruct d as [|d]; [simpl in L1; lia|].
      cbn [skipn]. simpl in L1, L2.
      specialize (T2 d ltac:(lia) ltac:(lia)). lia.
    + destruct (reflow_paragraph max_length false (cur :: following) 0 cur)
        as [[end_line new_lines]|e] eqn:P; [|discriminate].
      destruct (rewrap_rest max_length false fuel
                  (skipn end_line (cur :: following)) true)
        as [out' [b'|e]] eqn:R; [|discriminate].
      inversion H; subst out b'. destruct (IH _ _ _ _ R) as [T1 T2].
      pose proof (reflow_paragraph_weight _ _ _ _ _ P) as Wp.
      pose proof (reflow_paragraph_end _ _ _ _ _ _ P) as E1.
      assert (E2 : end_line <= length (cur :: following)).
      { apply reflow_paragraph_spec in P
          as (indent & marker & r0 & _ & E & Le & _).
        cbv zeta in E, Le. simpl. lia. }
      set (rest := cur :: following) in *.
      assert (Sp : total_weight rest
                   = total_weight (firstn end_line rest)
                     + total_weight (skipn end_line rest))
        by (now rewrite <- total_weight_app, firstn_skipn).
      assert (Pl : end_line <= total_weight (firstn end_line rest)).
      { pose proof (total_weight_length (firstn end_line rest)) as F.
        rewrite length_firstn in F. lia. }
      assert (Ls : length (skipn end_line rest) = length rest - end_line)
        by apply length_skipn.
      rewrite total_weight_app. split; [lia|].
      intros d L1 L2. rewrite length_app in L2. rewrite skipn_app.
      rewrite total_weight_app.
      destruct (Nat.le_gt_cases (length new_lines) d) as [Ge|Lt].
      * rewrite (skipn_all2 new_lines) by exact Ge.
        change (total_weight []) with 0.
        destruct (Nat.le_gt_cases (length (skipn end_line rest))
                    (d - length new_lines)) as [Ge2|Lt2].
        -- specialize (T2 (d - length new_lines) Ge2 ltac:(lia)). lia.
        -- pose proof (total_weight_skipn (d - length new_lines) out'). lia.
      * replace (d - length new_lines) with 0 by lia. cbn [skipn].
        pose proof (total_weight_skipn_lines d new_lines ltac:(lia)). lia.
Qed.

(** ** Enough passes *)

Section ScanEnds.

Variable max_length : Z.

Lemma scan_comments_returns (fuel : nat) :
  forall lines lineno modified,
    total_weight (skipn lineno lines) < fuel ->
    exists r, scan_comments max_length fuel lines lineno modified = Some r.
Proof.
  induction fuel as [|fuel IH]; intros lines lineno modified F; [lia|].
  cbn [scan_comments].
  destruct (nth_error lines lineno) as [cur|] eqn:N; [|eauto].
  apply nth_error_split in N as (l1 & l2 & E & L).
  assert (S0 : skipn lineno lines = cur :: l2).
  { rewrite E, <- L, skipn_app, skipn_all2, Nat.sub_diag by lia.
    reflexivity. }
  assert (S1 : forall j, skipn (lineno + 1 + j) lines = skipn j l2).
  { intros j. rewrite E, <- L, skipn_app, skipn_all2 by lia.
    replace (length l1 + 1 + j - length l1) with (S j) by lia.
    reflexivity. }
  rewrite S0, total_weight_cons in F.
  assert (Lw : 1 <= line_weight cur) by (unfold line_weight; lia).
  assert (Next : forall j m,
             exists r, scan_comments max_length fuel lines (lineno + 1 + j) m
                       = Some r).
  { intros j m. apply IH. rewrite S1.
    pose proof (total_weight_skipn j l2). lia. }
  assert (Next0 : forall m,
             exists r, scan_comments max_length fuel lines (lineno + 1) m
                       = Some r).
  { intros m. replace (lineno + 1) with (lineno + 1 + 0) by lia.
    apply Next. }
  destruct ((lineno =? 0) && startswith cur (lit "#!")); [apply Next0|].
  destruct (is_comment_line cur) eqn:C; [|apply Next0].
  set (run := comment_run (skipn (lineno + 1) lines)).
  destruct (existsb (too_long max_length)
              (slice lines lineno (lineno + 1 + run))); [|apply Next].
  destruct (rewrap_text max_length false
              (slice lines lineno (lineno + 1 + run)))
    as [cl [[|]|e]] eqn:R; [|apply Next|eauto].
  apply IH.
  assert (Run : run = comment_run l2).
  { unfold run. replace (lineno + 1) with (lineno + 1 + 0) by lia.
    now rewrite S1. }
  assert (Sl : slice lines lineno (lineno + 1 + run)
               = cur :: firstn run l2).
  { unfold slice. rewrite S0.
    replace (lineno + 1 + run - lineno) with (S run) by lia. reflexivity. }
  assert (Rl : run <= length l2).
  { rewrite Run. clear. induction l2 as [|x l2 IH2]; simpl; [lia|].
    destruct (is_comment_line x); simpl; lia. }
  rewrite Sl in R. rewrite rewrap_text_rest in R.
  destruct (rewrap_rest_weight _ _ _ _ _ _ R) as [_ T2].
  unfold splice. rewrite Nat.max_r, S1 by lia.
  assert (F1 : firstn lineno lines = l1).
  { rewrite E, <- L, firstn_app, firstn_all, Nat.sub_diag. simpl.
    apply app_nil_r. }
  rewrite F1, skipn_app, <- L.
  rewrite (skipn_all2 l1) by lia. cbn [app].
  replace (length l1 + 1 + run - length l1) with (S run) by lia.
  rewrite skipn_app, total_weight_app.
  assert (Old : total_weight l2
                = total_weight (firstn run l2) + total_weight (skipn run l2))
    by (now rewrite <- total_weight_app, firstn_skipn).
  pose proof (total_weight_skipn (S run - length cl) (skipn run l2)) as Post.
  destruct (Nat.le_gt_cases (length cl) (S run)) as [Le|Gt].
  - rewrite (skipn_all2 cl) by exact Le. change (total_weight []) with 0.
    lia.
  - specialize (T2 (S run)). cbn [length] in T2.
    rewrite length_firstn, Nat.min_l in T2 by exact Rl.
    specialize (T2 (le_n _) Gt). rewrite total_weight_cons in T2. lia.
Qed.

(** More passes than needed change nothing. *)
Lemma scan_comments_more (fuel : nat) :
  forall lines lineno modified r extra,
    scan_comments max_length fuel lines lineno modified = Some r ->
    scan_comments max_length (fuel + extra) lines lineno modified = Some r.
Proof.
  induction fuel as [|fuel IH]; intros lines lineno modified r extra H;
    [discriminate|].
  cbn [Nat.add scan_comments] in H |- *.
  destruct (nth_error lines lineno) as [cur|]; [|exact H].
  destruct ((lineno =? 0) && startswith cur (lit "#!")); [now apply IH|].
  destruct (is_comment_line cur); [|now apply IH].
  destruct (existsb (too_long max_length)
              (slice lines lineno
                 (lineno + 1 + comment_run (skipn (lineno + 1) lines))));
    [|now apply IH].
  destruct (rewrap_text max_length false
              (slice lines lineno
                 (lineno + 1 + comment_run (skipn (lineno + 1) lines))))
    as [cl [[|]|e]]; [now apply IH | now apply IH | exact H].
Qed.

Lemma scan_comments_enough (lines : list str) (lineno : nat)
  (modified : bool) (fuel : nat) :
  total_weight (skipn lineno lines) < fuel ->
  scan_comments max_length fuel lines lineno modified
  = scan_comments max_length (S (total_weight (skipn lineno lines)))
      lines lineno modified.
Proof.
  intros F.
  destruct (scan_comments_returns (S (total_weight (skipn lineno lines)))
              lines lineno modified (Nat.lt_succ_diag_r _)) as [r R].
  rewrite R.
  replace fuel
    with (S (total_weight (skipn lineno lines))
          + (fuel - S (total_weight (skipn lineno lines)))) by lia.
  now apply scan_comments_more.
Qed.

End ScanEnds.

(** ** The scanner, with enough passes *)

(** X12: a first line that starts with [#!] is skipped by the comment
    scanner and stays the first line, however long it is.  With more
    passes than the weight of the lines the scanner ends; when it returns
    lines, the first one is the line it was given. *)
Theorem shebang_line_is_kept (max_length : Z) (fuel : nat) (l0 : str)
  (rest : list str) (modified : bool) :
  startswith l0 (lit "#!") = true ->
  total_weight (l0 :: rest) < fuel ->
  exists r,
    scan_comments max_length fuel (l0 :: rest) 0 modified = Some r
    /\ forall lines' b,
        r = Return (lines', b) -> hd_error lines' = Some l0.
Proof.
  intros Sh F.
  destruct (scan_comments_returns max_length fuel (l0 :: rest) 0 modified F)
    as [r R].
  exists r. split; [exact R|]. intros lines' b ->.
  now apply (scan_comments_shebang max_length fuel l0 rest lines' modified b).
Qed.

Lemma shebang_line_is_kept_witness :
  exists r,
    scan_comments 12 40
      [lit "#!/usr/bin/env python3"; lit "# aaaa bbbb cc"] 0 false
    = Some r
    /\ forall lines' b,
        r = Return (lines', b) ->
        hd_error lines' = Some (lit "#!/usr/bin/env python3").
Proof.
  apply (shebang_line_is_kept 12 40 (lit "#!/usr/bin/env python3")
           [lit "# aaaa bbbb cc"] false).
  - reflexivity.
  - apply Nat.ltb_lt. vm_compute. reflexivity.
Defined.

(** X13: the comment scanner changes comment lines only.  With more
    passes than the weight of the lines from [lineno] on the scanner
    ends; when it returns lines, the lines of code, those that do not
    start with [#] after whitespace, are the same and in the same order
    as before the scan. *)
Theorem scan_comments_keeps_code (max_length : Z) (fuel : nat)
  (lines : list str) (lineno : nat) (modified : bool) :
  total_weight (skipn lineno lines) < fuel ->
  exists r,
    scan_comments max_length fuel lines lineno modified = Some r
    /\ forall lines' b,
        r = Return (lines', b) ->
        filter is_code_line lines' = filter is_code_line lines.
Proof.
  intros F.
  destruct (scan_comments_returns max_length fuel lines lineno modified F)
    as [r R].
  exists r. split; [exact R|]. intros lines' b ->.
  now apply (scan_comments_code max_length fuel lines lineno modified
               lines' b).
Qed.

Lemma scan_comments_keeps_code_witness :
  exists r,
    scan_comments 12 40
      [lit "x = 1"; lit "# aaaa bbbb cc"; lit "y = 2"] 0 false
    = Some r
    /\ forall lines' b,
        r = Return (lines', b) ->
        filter is_code_line lines'
        = filter is_code_line
            [lit "x = 1"; lit "# aaaa bbbb cc"; lit "y = 2"].
Proof.
  apply (scan_comments_keeps_code 12 40
           [lit "x = 1"; lit "# aaaa bbbb cc"; lit "y = 2"] 0 false).
  apply Nat.ltb_lt. vm_compute. reflexivity.
Defined.

(** ** [main], with enough passes *)

Section MainEnds.

Variable docstring_locs : str -> outcome (list (nat * nat)).

Lemma process_content_returns (max_length : Z) (force : bool)
  (content : str) (wc wd : bool) :
  exists n r,
    forall scan_bound,
      n <= scan_bound ->
      process_content docstring_locs scan_bound max_length force content
        wc wd = Some r.
Proof.
  unfold process_content.
  destruct (if wd then _ else _) as [[lines' modified]|e];
    [|exists 0, (Raise e); reflexivity].
  destruct wc; [|exists 0, (Return (lines', modified)); reflexivity].
  destruct (scan_comments_returns max_length (S (total_weight lines'))
              lines' 0 modified (Nat.lt_succ_diag_r _)) as [r R].
  exists (S (total_weight lines')), r. intros scan_bound B.
  replace scan_bound
    with (S (total_weight lines') + (scan_bound - S (total_weight lines')))
    by lia.
  now apply scan_comments_more.
Qed.

Lemma process_file_returns (max_length : Z) (force : bool) (p : path)
  (wc wd : bool) (w : world) :
  exists n x,
    forall scan_bound,
      n <= scan_bound ->
      process_file docstring_locs scan_bound max_length force p wc wd w
      = Some x.
Proof.
  unfold process_file.
  destruct (read_text w p) as [content|e];
    [|exists 0, (w, Raise e); reflexivity].
  destruct (process_content_returns max_length force content wc wd)
    as (n & r & H).
  exists n.
  exists (match r with
          | Raise e => (w, Raise e)
          | Return (processed_lines, true) =>
              (write_text w p (join newline processed_lines ++ newline),
               Return true)
          | Return (_, false) => (w, Return false)
          end).
  intros scan_bound B. rewrite (H scan_bound B).
  destruct r as [[l [|]]|e]; reflexivity.
Qed.

Section Loops.

Variable process : nat -> path -> world -> option (world * outcome bool).

Hypothesis process_returns :
  forall p w, exists n x,
    forall scan_bound, n <= scan_bound -> process scan_bound p w = Some x.

Lemma process_files_returns (file_paths : list path) :
  forall r, exists n r',
    forall scan_bound,
      n <= scan_bound ->
      process_files (process scan_bound) file_paths r = Some r'.
Proof.
  induction file_paths as [|p ps IH]; intros r.
  - exists 0, r. reflexivity.
  - destruct (process_returns p (state r)) as (n & [w o] & H).
    set (r1 := match o with
               | Return true =>
                   {| processed_count := processed_count r + 1;
                      modified_count := modified_count r + 1;
                      error_count := error_count r;
                      output := output r ++ [Modified p];
                      state := w |}
               | Return false =>
                   {| processed_count := processed_count r + 1;
                      modified_count := modified_count r;
                      error_count := error_count r;
                      output := output r;
                      state := w |}
               | Raise e =>
                   {| processed_count := processed_count r + 1;
                      modified_count := modified_count r;
                      error_count := error_count r + 1;
                      output := output r ++ [ErrorProcessing p e];
                      state := w |}
               end).
    destruct (IH r1) as (n' & r' & H').
    exists (Nat.max n n'), r'. intros scan_bound B.
    cbn [process_files]. rewrite (H scan_bound) by lia.
    rewrite <- (H' scan_bound) by lia.
    unfold r1. destruct o as [[|]|e]; reflexivity.
Qed.

Lemma process_paths_returns (omit_gitignore : bool) (ps : list path) :
  forall r, exists n r',
    forall scan_bound,
      n <= scan_bound ->
      process_paths (process scan_bound) omit_gitignore ps r = Some r'.
Proof.
  induction ps as [|p ps IH]; intros r.
  - exists 0, r. reflexivity.
  - cbn [process_paths].
    destruct (lookup (files (state r)) p) as [[content|matches]|].
    + destruct (process_files_returns [p] r) as (n & r1 & H).
      destruct (IH r1) as (n' & r' & H').
      exists (Nat.max n n'), r'. intros scan_bound B.
      rewrite (H scan_bound) by lia. apply H'. lia.
    + destruct (process_files_returns
                  (recursive_glob matches omit_gitignore) r)
        as (n & r1 & H).
      destruct (IH r1) as (n' & r' & H').
      exists (Nat.max n n'), r'. intros scan_bound B.
      rewrite (H scan_bound) by lia. apply H'. lia.
    + apply IH.
Qed.

End Loops.

Lemma main_returns (args : namespace) (w : world) :
  exists n code out w',
    forall scan_bound,
      n <= scan_bound ->
      main docstring_locs scan_bound args w = Some (code, out, w').
Proof.
  unfold main, main_loop.
  destruct (process_paths_returns
              (fun scan_bound file_path =>
                 process_file docstring_locs scan_bound
                   (max_doc_length args) (force_triple_quotes args)
                   file_path (negb (skip_docstrings args))
                   (negb (skip_comments args)))
              (fun p w0 =>
                 process_file_returns (max_doc_length args)
                   (force_triple_quotes args) p
                   (negb (skip_docstrings args))
                   (negb (skip_comments args)) w0)
              (negb (no_gitignore args)) (paths args)
              {| processed_count := 0; modified_count := 0;
                 error_count := 0; output := []; state := w |})
    as (n & r & H).
  exists n, (if error_count r =? 0 then 0%Z else 1%Z),
    (output r ++ [Summary (processed_count r) (modified_count r)
                    (error_count r)]),
    (state r).
  intros scan_bound B. now rewrite (H scan_bound B).
Qed.

(** X14: [main] writes the files that it reports as modified, once each
    time it reports one and in that order.  It is stated for the runs
    that do not ask git: the directories are searched with
    [--no-gitignore], or no path names a directory.  With enough passes
    for the comment scanner these runs end, with the same result for
    every greater bound. *)
Theorem main_writes_what_it_reports (args : namespace) (w : world) :
  no_gitignore args = true
  \/ Forall (fun p => names_directory w p = false) (paths args) ->
  exists n code out w',
    (forall scan_bound,
        n <= scan_bound ->
        main docstring_locs scan_bound args w = Some (code, out, w'))
    /\ written w' = written w ++ modified_paths out.
Proof.
  intros _. destruct (main_returns args w) as (n & code & out & w' & H).
  exists n, code, out, w'. split; [exact H|].
  specialize (H n (le_n _)). unfold main in H.
  apply main_loop_extends in H as (body & processed & -> & _ & W & _).
  unfold modified_paths in *. rewrite flat_map_app. simpl.
  now rewrite app_nil_r.
Qed.

(** X15: the last line that [main] prints is the summary, whose counts
    of modified files and of errors are those of the lines printed before
    it, and the exit code is 0 when no error line was printed and 1
    otherwise.  It is stated for the runs that do not ask git; with
    enough passes for the comment scanner these runs end. *)
Theorem main_summary_agrees (args : namespace) (w : world) :
  no_gitignore args = true
  \/ Forall (fun p => names_directory w p = false) (paths args) ->
  exists n code out w',
    (forall scan_bound,
        n <= scan_bound ->
        main docstring_locs scan_bound args w = Some (code, out, w'))
    /\ exists body processed,
        out = body ++ [Summary processed (length (modified_paths body))
                         (length (filter is_error_line body))]
        /\ code
           = (if length (filter is_error_line body) =? 0
              then 0%Z else 1%Z).
Proof.
  intros _. destruct (main_returns args w) as (n & code & out & w' & H).
  exists n, code, out, w'. split; [exact H|].
  specialize (H n (le_n _)). unfold main in H.
  apply main_loop_extends in H as (body & processed & E & C & _).
  eauto.
Qed.

End MainEnds.

Lemma main_writes_what_it_reports_witness :
  exists n code out w',
    (forall scan_bound,
        n <= scan_bound ->
        main no_docstrings scan_bound (default_args ["url.py"%string])
          (url_world [])
        = Some (code, out, w'))
    /\ written w' = written (url_world []) ++ modified_paths out.
Proof.
  apply (main_writes_what_it_reports no_docstrings
           (default_args ["url.py"%string]) (url_world [])).
  right. constructor; [reflexivity | constructor].
Defined.

Lemma main_summary_agrees_witness :
  exists n code out w',
    (forall scan_bound,
        n <= scan_bound ->
        main no_docstrings scan_bound
          (default_args ["url.py"%string; "none"%string]) (url_world [])
        = Some (code, out, w'))
    /\ exists body processed,
        out = body ++ [Summary processed (length (modified_paths body))
                         (length (filter is_error_line body))]
        /\ code
           = (if length (filter is_error_line body) =? 0
              then 0%Z else 1%Z).
Proof.
  apply (main_summary_agrees no_docstrings
           (default_args ["url.py"%string; "none"%string]) (url_world [])).
  right. repeat (constructor; [reflexivity|]). constructor.
Defined.

(** X23: the comment scanner ends.  A pass that replaces a block goes on
    at the line where the block ended before, which can lie inside the
    new block; the weight of the lines from the current line on (one per
    line and one per character of the text after the [#], eight for a
    tab) still decreases with every pass.  So with more passes than that
    weight the scanner returns, and every greater number of passes gives
    the same result. *)
Theorem scan_comments_ends (max_length : Z) (lines : list str)
  (lineno : nat) (modified : bool) (fuel : nat) :
  total_weight (skipn lineno lines) < fuel ->
  exists r,
    forall more,
      scan_comments max_length (fuel + more) lines lineno modified = Some r.
Proof.
  intros F.
  destruct (scan_comments_returns max_length fuel lines lineno modified F)
    as [r R].
  exists r. intros more. now apply scan_comments_more.
Qed.

Lemma scan_comments_ends_witness :
  exists r,
    forall more,
      scan_comments 12 (40 + more)
        [lit "x = 1"; lit "# aaaa bbbb cc dddd eeee ff"; lit "y = 2"] 0 false
      = Some r.
Proof.
  apply (scan_comments_ends 12
           [lit "x = 1"; lit "# aaaa bbbb cc dddd eeee ff"; lit "y = 2"]
           0 false 40).
  apply Nat.ltb_lt. vm_compute. reflexivity.
Defined.
